(** * audible-converter: a shallow embedding of [main.js]

    The repository is a command-line tool that decrypts Audible AAX
    audiobooks with ffmpeg.  This development embeds the parts of
    [main.js] that its design document talks about:

    - the hex rendering of registry bytes ([toHex], [bytesToHex],
      [extractBytes]);
    - the two regular-expression based parsers ([extractDownloadURL],
      [lookupChecksum]);
    - the progress computation ([currentTimemarkToPercent]);
    - the checksum reader ([fetchChecksum]);
    - the activation-bytes resolver ([fetchActivationBytesFromDevices],
      [fetchActivationBytes]);
    - the per-file pipeline and the batch loop ([converter], [main]).

    The sources hold three revisions of the program: the first text of
    [src/main.js] (lines 1-345), [src/unnamed/part_000], and the second
    text of [src/main.js] (lines 347-850), which is the latest.  The
    functions above are the same in all three up to the logger calls,
    except [fetchActivationBytes] (the first revision has no short cut
    for an explicit secret on Windows) and [extractDownloadURL] (absent
    from the first revision, a different title pattern in the second).
    The top-level definitions follow the latest revision; [Rev1] and
    [Rev2] hold the two functions that differ.

    Modelling choices:

    - strings are ASCII text ([string]); bytes and counters are [N];
      a number of JavaScript is the rational it denotes, and
      [Double.round] rounds every product, sum, quotient and every
      numeral read from text to the nearest double, as IEEE 754 does
      ([Double], [Num.toNumber], [currentTimemarkToPercent], the
      progress of [download]); it is compared below with the
      operations of the standard library's [SpecFloat].  The duration
      shown by [fetchMetadata] is written with exact quotients and
      remainders: for a duration below 2^53 seconds their whole parts
      are those of the doubles;
    - a promise chain is run to completion: its value is the list of
      observable events it performed together with its resolution or
      rejection; everything outside the program (file system, registry,
      ffprobe, ffmpeg, rcrack, glob, path helpers, the command line) is
      a field of the environment [Env], a function of its arguments. *)

From Stdlib Require Import ZArith NArith QArith Qround List String Ascii Bool Lia.
From Stdlib Require Import DecimalString HexadecimalString DecimalN DecimalZ.
From Stdlib Require SpecFloat.
Import ListNotations.

Local Close Scope Q_scope.
Local Open Scope string_scope.

(** ** JavaScript string primitives used by the program *)

Module Js.

Definition is_lower (c : ascii) : bool :=
  (("a" <=? c) && (c <=? "z"))%char.

Definition is_upper (c : ascii) : bool :=
  (("A" <=? c) && (c <=? "Z"))%char.

Definition is_digit (c : ascii) : bool :=
  (("0" <=? c) && (c <=? "9"))%char.

Definition upper_char (c : ascii) : ascii :=
  if is_lower c then ascii_of_nat (nat_of_ascii c - 32) else c.

Definition lower_char (c : ascii) : ascii :=
  if is_upper c then ascii_of_nat (nat_of_ascii c + 32) else c.

(** [s.toUpperCase()] and [s.toLowerCase()] on ASCII text. *)
Fixpoint toUpperCase (s : string) : string :=
  match s with
  | EmptyString => EmptyString
  | String c s' => String (upper_char c) (toUpperCase s')
  end.

Fixpoint toLowerCase (s : string) : string :=
  match s with
  | EmptyString => EmptyString
  | String c s' => String (lower_char c) (toLowerCase s')
  end.

(** [s.slice(-k)]: the last [k] characters, or all of [s] when it is
    shorter. *)
Definition slice_last (k : nat) (s : string) : string :=
  substring (length s - k) k s.

(** [Number(n).toString(16)] for a non-negative integer: lowercase
    digits, no padding, ["0"] for zero. *)
Definition toString16 (n : N) : string :=
  HexadecimalString.NilZero.string_of_uint (N.to_hex_uint n).

(** Decimal rendering of an integer, as a template literal does. *)
Definition toString10 (z : Z) : string :=
  DecimalString.NilZero.string_of_int (Z.to_int z).

(** [array.join('')]. *)
Definition join (l : list string) : string := String.concat "" l.

End Js.

(** ** Hex rendering of byte arrays *)

(** [toHex]: [('0' + Number(d).toString(16)).slice(-2).toUpperCase()]. *)
Definition toHex (d : N) : string :=
  Js.toUpperCase (Js.slice_last 2 ("0" ++ Js.toString16 d)).

(** [bytesToHex]: [_.map(byteArray, toHex).join('')]. *)
Definition bytesToHex (byteArray : list N) : string :=
  Js.join (map toHex byteArray).

(** [extractBytes]: [bytesToHex(byteArray.slice(0, 4).reverse())]. *)
Definition extractBytes (byteArray : list N) : string :=
  bytesToHex (rev (firstn 4 byteArray)).

(** The program has no decoder.  [hexToBytes] is the reading direction
    the round-trip property is stated against: two hexadecimal digits,
    most significant first, per byte; either case is accepted. *)
Definition hexval (c : ascii) : option N :=
  if Js.is_digit c then Some (N_of_ascii c - 48)%N
  else if (("A" <=? c) && (c <=? "F"))%char then Some (N_of_ascii c - 55)%N
  else if (("a" <=? c) && (c <=? "f"))%char then Some (N_of_ascii c - 87)%N
  else None.

Fixpoint hexToBytes (s : string) : option (list N) :=
  match s with
  | EmptyString => Some []
  | String h (String l s') =>
      match hexval h, hexval l, hexToBytes s' with
      | Some a, Some b, Some r => Some ((16 * a + b)%N :: r)
      | _, _, _ => None
      end
  | String _ EmptyString => None
  end.

Definition is_byte (d : N) : Prop := (d < 256)%N.

(** ** Regular expressions

    The program uses four patterns, all of the shape
    [literal(group)] where the group is a sequence of single-character
    classes, the first of them possibly under a greedy [+].  [search]
    is [String.prototype.match] for this shape: the leftmost position
    at which the pattern matches, the greedy choice at that position,
    and the text of the capture group as result ([None] for [null]). *)

Module Regex.

Inductive atom : Type :=
| One (p : ascii -> bool)       (* a class, once *)
| Plus (p : ascii -> bool).     (* a class, once or more, greedy *)

(** [p+] followed by the continuation [k]: longest repetition first,
    giving characters back one at a time while [k] fails. *)
Fixpoint plus_then (p : ascii -> bool) (k : string -> option string)
         (s : string) : option string :=
  match s with
  | EmptyString => None
  | String c s' =>
      if p c then
        match plus_then p k s' with
        | Some r => Some r
        | None => k s'
        end
      else None
  end.

(** Match the atoms at the start of [s]; the result is the text left
    after the match. *)
Fixpoint match_atoms (atoms : list atom) (s : string) : option string :=
  match atoms with
  | [] => Some s
  | One p :: rest =>
      match s with
      | EmptyString => None
      | String c s' => if p c then match_atoms rest s' else None
      end
  | Plus p :: rest => plus_then p (match_atoms rest) s
  end.

Definition lit (text : string) : list atom :=
  map (fun c => One (Ascii.eqb c)) (list_ascii_of_string text).

Definition match_here (prefix : string) (group : list atom) (s : string)
  : option string :=
  match match_atoms (lit prefix) s with
  | Some r =>
      match match_atoms group r with
      | Some r' => Some (substring 0 (length r - length r') r)
      | None => None
      end
  | None => None
  end.

Fixpoint search (prefix : string) (group : list atom) (s : string)
  : option string :=
  match match_here prefix group s with
  | Some g => Some g
  | None =>
      match s with
      | EmptyString => None
      | String _ s' => search prefix group s'
      end
  end.

(** Character classes. *)
Definition word (c : ascii) : bool :=            (* \w *)
  Js.is_lower c || Js.is_upper c || Js.is_digit c || Ascii.eqb c "_".

Definition space (c : ascii) : bool :=           (* \s, ASCII part *)
  let n := nat_of_ascii c in
  Nat.eqb n 32 || (Nat.leb 9 n && Nat.leb n 13).

Definition word_dash (c : ascii) : bool :=       (* [\w-] *)
  word c || Ascii.eqb c "-".

Definition word_space_dash (c : ascii) : bool := (* [\w\s-] *)
  word c || space c || Ascii.eqb c "-".

Definition not_amp (c : ascii) : bool :=         (* [^&] *)
  negb (Ascii.eqb c "&").

Definition hexdigit (c : ascii) : bool :=        (* [a-fA-F0-9] *)
  (("a" <=? c) && (c <=? "f"))%char
  || (("A" <=? c) && (c <=? "F"))%char
  || Js.is_digit c.

End Regex.

(** ** Promises, events and rejections

    A promise chain is run to completion: its value is the list of
    observable events it performed, in order, and either the value it
    resolved with or the reason it rejected with. *)

Inductive level : Type := error | warn | info | verbose | debug | silly.

Inductive rejection : Type :=
| JsError (message : string)       (* an [Error] object *)
| RawData (data : string).         (* [reject] called with a data chunk *)

(** [err.message]; a data chunk has none. *)
Definition message (r : rejection) : string :=
  match r with
  | JsError m => m
  | RawData _ => "undefined"
  end.

(** Values that can flow out of the resolver: a string, the [false] of
    an option that was not given, [undefined], or what indexing the
    device array with a non-index key gives (its [length], or a member
    inherited from [Array.prototype], kept as the text it prints as). *)
Inductive jsval : Type :=
| VStr (s : string)
| VNum (n : N)
| VNative (text : string)
| VUndefined
| VFalse.

Definition truthy (v : jsval) : bool :=
  match v with
  | VStr s => negb (s =? "")
  | VNum n => negb (n =? 0)%N
  | VNative _ => true
  | VUndefined | VFalse => false
  end.

Definition text_of (v : jsval) : string :=
  match v with
  | VStr s => s
  | VNum n => Js.toString10 (Z.of_N n)
  | VNative t => t
  | VUndefined => "undefined"
  | VFalse => "false"
  end.

(** The three ffmpeg invocations of the pipeline. *)
Inductive job : Type :=
| DecodeJob (input output : string) (activationBytes : jsval)
| CoverJob (input output : string)
| LoopJob (input image output : string).

Inductive event : Type :=
| ConsoleLog (line : string)                 (* console.log *)
| StdoutWrite (text : string)                (* process.stdout.write *)
| Progress (label : string) (percent : option Z)
      (* process.stdout.write of a progress line: the text before the
         number, and the number when it is finite *)
| Log (lvl : level) (msg : string)           (* winston / logger call *)
| LogStack (lvl : level) (r : rejection)     (* logging [err] / [err.stack] *)
| Probe (file : string)                      (* ffprobe started *)
| OpenRead (file : string)                   (* fs.open for reading *)
| ReadFile (file : string)                   (* fs.readFile *)
| Run (j : job)                              (* ffmpeg started *)
| Spawn (checksum : string)                  (* rcrack started *)
| Glob (pattern : string)                    (* glob started *)
| Registry (key : string).                   (* regedit.list *)

Inductive outcome (A : Type) : Type :=
| Resolved (a : A)
| Rejected (r : rejection).

Arguments Resolved {A} a.
Arguments Rejected {A} r.

Definition Promise (A : Type) : Type := (list event * outcome A)%type.

Definition resolve {A} (a : A) : Promise A := ([], Resolved a).

Definition reject {A} (r : rejection) : Promise A := ([], Rejected r).

Definition emit (e : event) : Promise unit := ([e], Resolved tt).

(** [p.then(k)] *)
Definition then_ {A B} (p : Promise A) (k : A -> Promise B) : Promise B :=
  match p with
  | (tr, Resolved a) => let (tr', o) := k a in ((tr ++ tr')%list, o)
  | (tr, Rejected r) => (tr, Rejected r)
  end.

(** [p.catch(h)] *)
Definition catch_ {A} (p : Promise A) (h : rejection -> Promise A) : Promise A :=
  match p with
  | (tr, Resolved a) => (tr, Resolved a)
  | (tr, Rejected r) => let (tr', o) := h r in ((tr ++ tr')%list, o)
  end.

Notation "x <- p ;; k" := (then_ p (fun x => k))
  (at level 61, p at next level, right associativity).
Notation "p ;;; k" := (then_ p (fun _ => k))
  (at level 61, right associativity).

Definition trace {A} (p : Promise A) : list event := fst p.
Definition result {A} (p : Promise A) : outcome A := snd p.

Definition settle {A} (o : outcome A) : Promise A := ([], o).

(** ** Text to number *)

(** ** Numbers

    JavaScript numbers are IEEE 754 doubles.  A finite double is held
    as the rational it denotes (the sign of zero is not kept); [None]
    stands for a value that is not finite: [NaN], [Infinity] or
    [-Infinity].  [round] is the rounding every arithmetic operation
    and every conversion of text ends with: to the nearest double, to
    the one with the even significand when two are equally near. *)

Module Double.

(** [a / b] rounded to the nearest integer, to the even one of two
    nearest, for [a >= 0] and [b > 0]. *)
Definition nearest (a b : Z) : Z :=
  let q := (a / b)%Z in
  match (2 * (a mod b) ?= b)%Z with
  | Lt => q
  | Gt => (q + 1)%Z
  | Eq => if Z.even q then q else (q + 1)%Z
  end.

(** The binary exponent of [n / d]: the [e] with
    [2^e <= n / d < 2^(e+1)], for [n > 0] and [d > 0]. *)
Definition exponent (n d : Z) : Z :=
  if (d <=? n)%Z then Z.log2 (n / d)
  else (- Z.log2_up ((d + n - 1) / n))%Z.

(** The double nearest to [n / d], for [n > 0] and [d > 0]: 53
    significant bits, exponents from -1022 on (below that the spacing
    stays 2^-1074); [None] when the rounded value reaches 2^1024. *)
Definition round_pos (n d : Z) : option Q :=
  let e := Z.max (exponent n d) (-1022) in
  let s := (52 - e)%Z in
  let r :=
    if (0 <=? s)%Z then Qmake (nearest (n * 2 ^ s) d) (Z.to_pos (2 ^ s))
    else inject_Z (nearest n (d * 2 ^ (- s)) * 2 ^ (- s)) in
  if Qle_bool (inject_Z (2 ^ 1024)) r then None else Some (Qred r).

(** The double nearest to a rational. *)
Definition round (q : Q) : option Q :=
  match Qnum (Qred q) with
  | Z0 => Some 0%Q
  | Zpos n => round_pos (Zpos n) (QDen (Qred q))
  | Zneg n => option_map Qopp (round_pos (Zpos n) (QDen (Qred q)))
  end.

(** [a * b], [a + b] and [a / b] on finite doubles, [b] not zero in
    the last. *)
Definition mul (a b : Q) : option Q := round (a * b)%Q.
Definition add (a b : Q) : option Q := round (a + b)%Q.
Definition div (a b : Q) : option Q := round (a / b)%Q.

(** [Math.floor] of a finite double: a double again. *)
Definition floor (a : Q) : Q := inject_Z (Qfloor a).

(** A value that is not finite stays so through the operations the
    program applies to it. *)
Definition bind {A} (x : option Q) (k : Q -> option A) : option A :=
  match x with
  | Some a => k a
  | None => None
  end.

End Double.

Module Num.

Fixpoint ltrim (s : string) : string :=
  match s with
  | EmptyString => EmptyString
  | String c s' => if Regex.space c then ltrim s' else s
  end.

Fixpoint rtrim (s : string) : string :=
  match s with
  | EmptyString => EmptyString
  | String c s' =>
      match rtrim s' with
      | EmptyString => if Regex.space c then EmptyString else String c EmptyString
      | r => String c r
      end
  end.

(** [s.trim()] *)
Definition trim (s : string) : string := rtrim (ltrim s).

(** [s.split(sep)] for a one-character separator. *)
Fixpoint split (sep : ascii) (s : string) : list string :=
  match s with
  | EmptyString => [EmptyString]
  | String c s' =>
      if Ascii.eqb c sep then EmptyString :: split sep s'
      else
        match split sep s' with
        | h :: t => String c h :: t
        | [] => [String c EmptyString]
        end
  end.

Definition digits (s : string) : option N :=
  option_map N.of_uint (DecimalString.NilEmpty.uint_of_string s).

(** Unsigned decimal text without exponent: [digits], [digits.],
    [.digits] or [digits.digits]; its exact value. *)
Definition unsigned (s : string) : option Q :=
  match split "." s with
  | [i] =>
      if i =? "" then None
      else option_map (fun n => inject_Z (Z.of_N n)) (digits i)
  | [i; f] =>
      if (i =? "") && (f =? "") then None
      else
        match digits i, digits f with
        | Some a, Some b =>
            Some (inject_Z (Z.of_N a)
                  + inject_Z (Z.of_N b) / inject_Z (10 ^ Z.of_nat (length f)))%Q
        | _, _ => None
        end
  | _ => None
  end.

(** The [SignedInteger] of an exponent part. *)
Definition integer (s : string) : option Z :=
  match s with
  | String "-" d =>
      if d =? "" then None else option_map (fun n => (- Z.of_N n)%Z) (digits d)
  | String "+" d => if d =? "" then None else option_map Z.of_N (digits d)
  | d => if d =? "" then None else option_map Z.of_N (digits d)
  end.

(** The text before the first [e] or [E], and the text after it when
    there is one. *)
Fixpoint exponent_part (s : string) : string * option string :=
  match s with
  | EmptyString => (EmptyString, None)
  | String c s' =>
      if Ascii.eqb c "e" || Ascii.eqb c "E" then (EmptyString, Some s')
      else let (m, e) := exponent_part s' in (String c m, e)
  end.

Definition power10 (k : Z) : Q :=
  if (0 <=? k)%Z then inject_Z (10 ^ k) else Qmake 1 (Z.to_pos (10 ^ (- k))).

(** The mathematical value of an unsigned decimal literal with an
    optional exponent part; the literal [Infinity] has none. *)
Definition literal (s : string) : option Q :=
  match exponent_part s with
  | (m, None) => unsigned m
  | (m, Some e) =>
      match unsigned m, integer e with
      | Some q, Some k => Some (q * power10 k)%Q
      | _, _ => None
      end
  end.

(** The digits of a literal written in base 2, 8 or 16. *)
Fixpoint radix_value (base acc : N) (s : string) : option N :=
  match s with
  | EmptyString => Some acc
  | String c s' =>
      match hexval c with
      | Some v => if (v <? base)%N then radix_value base (acc * base + v)%N s'
                  else None
      | None => None
      end
  end.

(** [0x...], [0o...] and [0b...], the prefix in either case. *)
Definition radix_literal (s : string) : option N :=
  match s with
  | String "0" (String c body) =>
      let base :=
        if Ascii.eqb c "x" || Ascii.eqb c "X" then Some 16%N
        else if Ascii.eqb c "o" || Ascii.eqb c "O" then Some 8%N
        else if Ascii.eqb c "b" || Ascii.eqb c "B" then Some 2%N
        else None in
      match base with
      | Some b => if body =? "" then None else radix_value b 0 body
      | None => None
      end
  | _ => None
  end.

(** The conversion a string undergoes in arithmetic ([s * 3600],
    [Math.floor(s)]): white space around a numeral; the empty text is
    0; a numeral is a literal in base 2, 8 or 16, or an optionally
    signed decimal literal; its value is rounded to a double.  [None]
    is [NaN] for any other text, and the infinite values of
    [Infinity] and of literals that are too large. *)
Definition toNumber (s : string) : option Q :=
  match trim s with
  | EmptyString => Some 0%Q
  | body =>
      match radix_literal body with
      | Some n => Double.round (inject_Z (Z.of_N n))
      | None =>
          match body with
          | String "-" u => option_map Qopp (Double.bind (literal u) Double.round)
          | String "+" u => Double.bind (literal u) Double.round
          | u => Double.bind (literal u) Double.round
          end
      end
  end.

(** An array element that may be [undefined]. *)
Definition ofElement (e : option string) : option Q :=
  match e with
  | Some s => toNumber s
  | None => None
  end.

(** [Math.trunc], used for the remainder [a % b] of non-integers. *)
Definition trunc (q : Q) : Z :=
  if Qle_bool 0 q then Qfloor q else Qceiling q.

Definition rem (a : Q) (b : Z) : Q :=
  (a - inject_Z b * inject_Z (trunc (a / inject_Z b)))%Q.

End Num.

(** ** Progress *)

(** [currentTimemarkToPercent]: [None] when the result is not a finite
    number.  [total] is the [durationRaw] of the metadata, a double
    with an integer value.  Every product, sum and quotient is rounded
    as the doubles of JavaScript are. *)
Definition currentTimemarkToPercent (timemark : string) (total : Z) : option Z :=
  let timemark := Num.split ":" timemark in
  match Num.ofElement (nth_error timemark 0),
        Num.ofElement (nth_error timemark 1),
        Num.ofElement (nth_error timemark 2) with
  | Some t0, Some t1, Some t2 =>
      if (total =? 0)%Z then None
      else
        Double.bind (Double.mul t0 3600) (fun hours =>
        Double.bind (Double.mul t1 60) (fun minutes =>
        Double.bind (Double.add hours minutes) (fun sum =>
        Double.bind (Double.add sum (Double.floor t2)) (fun seconds =>
        Double.bind (Double.mul seconds 100) (fun scaled =>
        Double.bind (Double.div scaled (inject_Z total)) (fun percent =>
        Some (Qfloor percent)))))))
  | _, _, _ => None
  end.

(** ** The environment the program runs in *)

Record Tags : Type := {
  major_brand : option string;
  tag_artist : option string;
  tag_title : option string;
  tag_date : option string
}.

(** [result.format] of ffprobe.  [tags] is [undefined] for a file in
    which ffprobe finds no tag at all.  The duration is a number; the
    text [N/A] that ffprobe prints for an unknown duration is not
    covered. *)
Record Format : Type := {
  tags : option Tags;
  format_duration : Q
}.

Inductive file_state : Type :=
| CannotOpen (r : rejection)
| CannotRead (r : rejection)
| Content (bytes : list N).

(** [program]: the parsed command line. *)
Record Options : Type := {
  activationBytes : option string;   (* [false] when not given *)
  device : option string;
  loop : bool;
  output : option string;
  path : option string
}.

(** What one ffmpeg run does: the command line it reports, the
    timemarks of its progress events, and how it ends. *)
Record run : Type := {
  cmd : option string;      (* [None]: the process never started *)
  timemarks : list string;
  failure : option rejection
}.

Record Env : Type := {
  platform : string;                                   (* os.platform() *)
  program : Options;
  pkg_name : string;                                   (* package.json *)
  RCRACK_PATH : string;
  regeditList : option (string -> outcome (list (list N)));
      (* absent when regedit could not be loaded; otherwise the binary
         values under the key, in enumeration order *)
  array_inherited : string -> option string;
      (* members an array inherits, by name *)
  fs : string -> file_state;
  readFile : string -> outcome string;
  ffprobe : string -> outcome Format;
  ffmpeg : job -> run;
  rcrack : string -> outcome string;
  glob : string -> outcome (list string);
  sanitize : string -> string;
  path_dirname : string -> string;
  path_resolve : string -> string;
  path_stem : string -> string;     (* path.basename(p, path.extname(p)) *)
  path_format : string -> string -> string -> string   (* dir, name, ext *)
}.

Definition AudibleDevicesKey : string :=
  "HKLM\SOFTWARE\WOW6432Node\Audible\SWGIDMAP".

(** Truthiness of an option value that is a string when given. *)
Definition given (o : option string) : bool :=
  match o with
  | Some s => negb (s =? "")
  | None => false
  end.

Definition value_of (o : option string) : jsval :=
  match o with
  | Some s => VStr s
  | None => VFalse
  end.

(** [devices[key]] on an array of strings.  A key that is the canonical
    decimal text of an index selects an element. *)
Definition array_index (key : string) : option nat :=
  match DecimalString.NilEmpty.uint_of_string key with
  | Some d =>
      let n := N.of_uint d in
      if DecimalString.NilZero.string_of_uint (N.to_uint n) =? key
      then Some (N.to_nat n) else None
  | None => None
  end.

(** [Promise.all] of two promises: both run; the first rejection
    wins. *)
Definition all2 {A B} (p : Promise A) (q : Promise B) : Promise (A * B) :=
  ((trace p ++ trace q)%list,
   match result p, result q with
   | Resolved a, Resolved b => Resolved (a, b)
   | Rejected r, _ => Rejected r
   | _, Rejected r => Rejected r
   end).

(** Bluebird's [Promise.reduce]: strictly sequential, stops at the
    first rejection. *)
Fixpoint Promise_reduce {A B} (l : list A) (f : B -> A -> Promise B) (init : B)
  : Promise B :=
  match l with
  | [] => resolve init
  | x :: rest => acc <- f init x ;; Promise_reduce rest f acc
  end.

Record Metadata : Type := {
  filetype : string;
  artist : string;
  title : string;
  date : string;
  duration : string;
  durationRaw : Z;
  checksum : string
}.

Record Download : Type := {
  url : string;
  dl_title : string
}.

(** [Buffer.alloc(n)] *)
Definition alloc (n : nat) : list N := repeat 0%N n.

(** [fs.read(fd, buffer, 0, len, pos)]: the bytes the file has from
    [pos] on, at most [len] of them, overwrite the start of the buffer. *)
Definition read_into (buffer content : list N) (len pos : nat) : list N :=
  let got := firstn len (skipn pos content) in
  (got ++ skipn (List.length got) buffer)%list.

(** [null.pop()] *)
Definition TypeError_pop : rejection :=
  JsError "Cannot read property 'pop' of null".

(** The error of [result.format.tags.major_brand] when [tags] is
    [undefined]; the wording is the engine's. *)
Definition TypeError_major_brand : rejection :=
  JsError "Cannot read property 'major_brand' of undefined".

Definition pop (m : option string) : Promise string :=
  match m with
  | Some g => resolve g
  | None => reject TypeError_pop
  end.

Definition download_url (productId custId codec : string) : string :=
  "https://cds.audible.de/download?product_id=" ++ productId
  ++ "&cust_id=" ++ custId ++ "&codec=" ++ codec.

Section Program.

Variable E : Env.

Definition setupWinston : Promise unit :=
  emit (Log debug ("RCRACK_PATH: " ++ RCRACK_PATH E)).

Definition array_get (devices : list string) (key : option string) : jsval :=
  let k := match key with Some k => k | None => "undefined" end in
  match array_index k with
  | Some i =>
      match nth_error devices i with
      | Some d => VStr d
      | None => VUndefined
      end
  | None =>
      if k =? "length" then VNum (N.of_nat (List.length devices))
      else
        match array_inherited E k with
        | Some t => VNative t
        | None => VUndefined
        end
  end.

Definition fetchActivationBytesFromDevices : Promise (list string) :=
  match regeditList E with
  | None =>
      reject (JsError ("Optional dependency `regedit` is not installed. Try reinstalling "
                       ++ pkg_name E ++ " without ignoring `optionalDependencies`."))
  | Some regedit =>
      values <- (emit (Registry AudibleDevicesKey) ;;; settle (regedit AudibleDevicesKey)) ;;
      let entries := map extractBytes values in
      let entries :=
        filter (fun n => negb (Js.toUpperCase n =? "FFFFFFFF")) entries in
      if Nat.ltb 0 (List.length entries) then resolve entries
      else reject (JsError "Could not find any Audible Activation Bytes!")
  end.

(** The selection made once the device list is known; shared by all
    revisions of [fetchActivationBytes]. *)
Definition pick (devices : list string) : Promise jsval :=
  let bytes :=
    match hd_error devices with
    | Some d => if truthy (VStr d) then VStr d else VStr ""
    | None => VStr ""
    end in
  let bytes :=
    if given (activationBytes (program E)) then value_of (activationBytes (program E))
    else bytes in
  let bytes :=
    if truthy (array_get devices (device (program E)))
    then array_get devices (device (program E)) else bytes in
  if given (device (program E)) && negb (truthy (array_get devices (device (program E))))
  then
    reject (JsError ("Device Nr. " ++ text_of (value_of (device (program E)))
                     ++ " not found! Please use the 'list' command to get your devices."))
  else resolve bytes.

Definition fetchActivationBytes : Promise jsval :=
  if negb (platform E =? "win32") || given (activationBytes (program E)) then
    resolve (value_of (activationBytes (program E)))
  else
    devices <- fetchActivationBytesFromDevices ;;
    pick devices.

Definition fetchChecksum (file : string) : Promise (list N) :=
  let buffer := alloc 20 in
  catch_
    (emit (OpenRead file) ;;;
     match fs E file with
     | CannotOpen r => reject r
     | CannotRead r => reject r
     | Content bytes => resolve (read_into buffer bytes (List.length buffer) 653)
     end)
    (fun err =>
       emit (Log error (message err)) ;;;
       emit (LogStack debug err) ;;;
       resolve buffer).

Definition tag (t : option string) (f : string -> string) : string :=
  match t with
  | Some s => if given t then f s else ""
  | None => ""
  end.

Definition fetchMetadata (input : string) : Promise Metadata :=
  rc <- all2 (emit (Probe input) ;;; settle (ffprobe E input))
             (fetchChecksum input) ;;
  let '(result, checksum) := rc in
  match tags result with
  | None => reject TypeError_major_brand
  | Some tags =>
      let d := format_duration result in
      let metadata := {|
        filetype := tag (major_brand tags)
                        (fun s => Js.toLowerCase (Num.trim s));
        artist := tag (tag_artist tags) Num.trim;
        title := tag (tag_title tags) Num.trim;
        date := tag (tag_date tags) Num.trim;
        duration :=
          Js.toString10 (Qfloor (d / 3600)%Q) ++ "h"
          ++ Js.toString10 (Qfloor (Num.rem d 3600 / 60)%Q) ++ "m"
          ++ Js.toString10 (Qfloor (Num.rem (Num.rem d 3600) 60)) ++ "s";
        durationRaw := Qfloor d;
        checksum := Js.toLowerCase (bytesToHex checksum)
      |} in
      emit (ConsoleLog (artist metadata ++ " - " ++ title metadata
                        ++ " [" ++ date metadata ++ "] (Duration: "
                        ++ duration metadata ++ ")")) ;;;
      if filetype metadata =? "aax" then resolve metadata
      else reject (JsError "Not a valid AAX File!")
  end.

Definition currentProgress (label : string) (duration : Z) (r : run)
  : list event :=
  map (fun t => Progress label (currentTimemarkToPercent t duration))
      (timemarks r).

Definition started (r : run) (on_start : string -> list event) : list event :=
  match cmd r with
  | Some c => on_start c
  | None => []
  end.

Definition finished (r : run) (on_end : list event) : Promise unit :=
  match failure r with
  | None => (on_end, Resolved tt)
  | Some err => ([ConsoleLog ""], Rejected err)
  end.

Definition extractCoverImage (input output : string) : Promise unit :=
  let r := ffmpeg E (CoverJob input output) in
  emit (Run (CoverJob input output)) ;;;
  (started r (fun c => [StdoutWrite "Extracting Cover Image ... "; Log debug c]),
   Resolved tt) ;;;
  (map (Log silly) (timemarks r), Resolved tt) ;;;
  finished r [ConsoleLog "100%"].

Definition convertAudiobook (input output : string) (activationBytes : jsval)
           (duration : Z) : Promise unit :=
  let r := ffmpeg E (DecodeJob input output activationBytes) in
  emit (Run (DecodeJob input output activationBytes)) ;;;
  (started r (fun c => [Log debug c]), Resolved tt) ;;;
  (currentProgress ("Converting Audiobook (using " ++ text_of activationBytes
                    ++ " for decryption) ... ") duration r, Resolved tt) ;;;
  finished r [ConsoleLog ""].

Definition addLoopedImage (input output image : string) (duration : Z)
  : Promise unit :=
  let r := ffmpeg E (LoopJob input image output) in
  emit (Run (LoopJob input image output)) ;;;
  (started r (fun c => [Log debug c]), Resolved tt) ;;;
  (currentProgress "Adding looped cover image to Audiobook ... " duration r,
   Resolved tt) ;;;
  finished r [ConsoleLog ""].

Definition extractDownloadURL (adhFile : string) : Promise Download :=
  content <- (emit (ReadFile adhFile) ;;; settle (readFile E adhFile)) ;;
  custId <- pop (Regex.search "cust_id="
                   [Regex.Plus Regex.word_dash; Regex.One Regex.not_amp] content) ;;
  productId <- pop (Regex.search "product_id="
                   [Regex.Plus Regex.word_dash; Regex.One Regex.not_amp] content) ;;
  codec <- pop (Regex.search "codec="
                   [Regex.Plus Regex.word_dash; Regex.One Regex.not_amp] content) ;;
  title <- pop (Regex.search "title=" [Regex.Plus Regex.not_amp] content) ;;
  resolve {| url := download_url productId custId codec; dl_title := title |}.

Definition lookupChecksum (checksum : string) : Promise unit :=
  emit (ConsoleLog ("Looking up activation bytes for checksum: " ++ checksum)) ;;;
  emit (ConsoleLog "This might take a moment ...") ;;;
  output <- (emit (Spawn checksum) ;;; settle (rcrack E checksum)) ;;
  emit (Log info output) ;;;
  match Regex.search "hex:" (repeat (Regex.One Regex.hexdigit) 8) output with
  | None => reject (JsError "Activation Bytes where not found!")
  | Some m => emit (ConsoleLog ("Activation Bytes found: " ++ m))
  end.

Definition converter (inputFile : string) : Promise unit :=
  emit (Log silly inputFile) ;;;
  metadata <- fetchMetadata inputFile ;;
  let duration := durationRaw metadata in
  let outputDirectory :=
    match path (program E) with
    | Some p => if given (path (program E)) then path_resolve E p
                else path_dirname E inputFile
    | None => path_dirname E inputFile
    end in
  let outputFilename :=
    match output (program E) with
    | Some o => if given (output (program E)) then sanitize E (path_stem E o)
                else sanitize E (artist metadata ++ " - " ++ title metadata
                                 ++ " [" ++ date metadata ++ "]")
    | None => sanitize E (artist metadata ++ " - " ++ title metadata
                          ++ " [" ++ date metadata ++ "]")
    end in
  let coverImage := path_format E outputDirectory outputFilename ".png" in
  let outputFile := path_format E outputDirectory outputFilename ".m4a" in
  let loopedFile := path_format E outputDirectory outputFilename ".m4v" in
  emit (Log silly coverImage) ;;;
  emit (Log silly outputFile) ;;;
  emit (Log silly loopedFile) ;;;
  bytes <- fetchActivationBytes ;;
  (if negb (truthy bytes) then
     reject (JsError ("Please provide activation bytes with -a <bytes>"
                      ++ (if platform E =? "win32"
                          then " or select a device using -d <number>" else "")))
   else convertAudiobook inputFile outputFile bytes duration) ;;;
  extractCoverImage inputFile coverImage ;;;
  (if loop (program E)
   then addLoopedImage outputFile loopedFile coverImage duration
   else resolve tt).

Definition globPromise (pattern : string) : Promise (list string) :=
  emit (Glob pattern) ;;; settle (glob E pattern).

(** The final line of a batch. *)
Definition report (total : N) : string :=
  "Finished converting "
  ++ (if (1 <? total)%N then Js.toString10 (Z.of_N total) else "one")
  ++ " Audiobook" ++ (if (1 <? total)%N then "s" else "") ++ "!".

(** The reduction over the expanded file list. *)
Definition batch (files : list string) : Promise N :=
  Promise_reduce files
    (fun total file =>
       converter file ;;;
       emit (ConsoleLog "") ;;;
       resolve (total + 1)%N)
    0%N.

(** The promise chain that [main] builds. *)
Definition main_chain (inputFile : string) : Promise unit :=
  setupWinston ;;;
  catch_
    (files <- globPromise inputFile ;;
     total <- batch files ;;
     emit (ConsoleLog (report total)))
    (fun err =>
       emit (Log error (message err)) ;;;
       emit (LogStack debug err)).

(** [main] returns nothing; what it does is the events. *)
Definition main (inputFile : string) : list event :=
  trace (main_chain inputFile).

End Program.

(** ** Earlier revisions

    The sources hold three revisions of [main.js].  The definitions
    above follow the latest one.  Two functions differ in the earlier
    ones. *)

(** The first revision: no short cut for an explicit secret on
    Windows. *)
Module Rev1.

Definition fetchActivationBytes (E : Env) : Promise jsval :=
  if negb (platform E =? "win32") then
    resolve (value_of (activationBytes (program E)))
  else
    devices <- fetchActivationBytesFromDevices E ;;
    pick E devices.

End Rev1.

(** The second revision: the title pattern is [title=([\w\s-]+[^&])]. *)
Module Rev2.

Definition extractDownloadURL (E : Env) (adhFile : string) : Promise Download :=
  content <- (emit (ReadFile adhFile) ;;; settle (readFile E adhFile)) ;;
  custId <- pop (Regex.search "cust_id="
                   [Regex.Plus Regex.word_dash; Regex.One Regex.not_amp] content) ;;
  productId <- pop (Regex.search "product_id="
                   [Regex.Plus Regex.word_dash; Regex.One Regex.not_amp] content) ;;
  codec <- pop (Regex.search "codec="
                   [Regex.Plus Regex.word_dash; Regex.One Regex.not_amp] content) ;;
  title <- pop (Regex.search "title="
                   [Regex.Plus Regex.word_space_dash; Regex.One Regex.not_amp] content) ;;
  resolve {| url := download_url productId custId codec; dl_title := title |}.

End Rev2.

(** ** Decidable checks used in the proofs *)

Definition reads_as (c : ascii) (v : N) : bool :=
  match hexval c with
  | Some a => N.eqb a v
  | None => false
  end.

Definition byte_ok (d : N) : bool :=
  match toHex d with
  | String h (String l EmptyString) =>
      reads_as h (d / 16) && reads_as l (d mod 16)
      && negb (Js.is_lower h) && negb (Js.is_lower l)
  | _ => false
  end.

Fixpoint all (p : ascii -> bool) (s : string) : bool :=
  match s with
  | EmptyString => true
  | String c s' => p c && all p s'
  end.

(** A text contains [hex:] followed by the eight hexadecimal digits
    [h]. *)
Definition occurs_hex (output h : string) : Prop :=
  exists pre post,
    output = pre ++ "hex:" ++ h ++ post
    /\ String.length h = 8 /\ all Regex.hexdigit h = true.

(** Digits and the decimal point. *)
Definition plain (c : ascii) : bool := Js.is_digit c || Ascii.eqb c ".".

(** A timemark [H:MM:SS] or [H:MM:SS.ff], written from its digits. *)
Definition seconds_text (s : Decimal.uint) (f : option Decimal.uint) : string :=
  DecimalString.NilEmpty.string_of_uint s
  ++ match f with
     | Some f => String "." (DecimalString.NilEmpty.string_of_uint f)
     | None => ""
     end.

Definition hms (h m s : Decimal.uint) (f : option Decimal.uint) : string :=
  DecimalString.NilEmpty.string_of_uint h ++ ":"
  ++ DecimalString.NilEmpty.string_of_uint m ++ ":" ++ seconds_text s f.

(** The number a sequence of decimal digits denotes. *)
Definition number (d : Decimal.uint) : Z := Z.of_N (N.of_uint d).

(** How many digits follow the decimal point of a timemark. *)
Definition fraction_digits (f : option Decimal.uint) : Z :=
  match f with
  | Some f => Z.of_nat (Decimal.nb_digits f)
  | None => 0%Z
  end.

(** The files probed, in order: the first thing [converter] does with a
    file it attempts. *)
Fixpoint probes (tr : list event) : list string :=
  match tr with
  | [] => []
  | Probe f :: tr' => f :: probes tr'
  | _ :: tr' => probes tr'
  end.

(** A promise that probes no file. *)
Definition quiet {A} (p : Promise A) : Prop := probes (trace p) = [].

(** The events of a run of files that all convert. *)
Definition converted (E : Env) (files : list string) : list event :=
  flat_map (fun g => trace (converter E g) ++ [ConsoleLog ""])%list files.

(** ** Concrete environments *)

Module Sample.

Definition aax_tags : Tags := {|
  major_brand := Some "aax ";
  tag_artist := Some "Author";
  tag_title := Some "Book";
  tag_date := Some "2016"
|}.

Definition aax : Format := {|
  tags := Some aax_tags;
  format_duration := 3800.5%Q
|}.

Definition smooth : run := {|
  cmd := Some "ffmpeg";
  timemarks := ["00:31:40.00"; "01:02:03.00"];
  failure := None
|}.

Definition no_options : Options := {|
  activationBytes := None; device := None; loop := false;
  output := None; path := None
|}.

Definition explicit (secret : string) (dev : option string) : Options := {|
  activationBytes := Some secret; device := dev; loop := false;
  output := None; path := None
|}.

Definition from_device (dev : option string) : Options := {|
  activationBytes := None; device := dev; loop := false;
  output := None; path := None
|}.

(** An environment over a given platform, command line, registry
    content, file store, prober and glob expansion. *)
Definition env (plat : string) (o : Options) (registry : list (list N))
           (store : string -> file_state) (probe : string -> outcome Format)
           (expansion : list string) (text : string) : Env := {|
  platform := plat;
  program := o;
  pkg_name := "audible-converter";
  RCRACK_PATH := "tools/rcrack/linux/rcrack";
  regeditList := Some (fun _ => Resolved registry);
  array_inherited := fun _ => None;
  fs := store;
  readFile := fun _ => Resolved text;
  ffprobe := probe;
  ffmpeg := fun _ => smooth;
  rcrack := fun _ => Resolved text;
  glob := fun _ => Resolved expansion;
  sanitize := fun s => s;
  path_dirname := fun _ => ".";
  path_resolve := fun p => p;
  path_stem := fun p => p;
  path_format := fun d n e => d ++ "/" ++ n ++ e
|}.

Definition two_devices : list (list N) :=
  [[218; 0; 235; 28]; [120; 86; 52; 18]]%N.

Definition with_sentinel : list (list N) :=
  [[255; 255; 255; 255]; [120; 86; 52; 18]]%N.

Definition no_file : string -> file_state :=
  fun _ => CannotOpen (JsError "ENOENT: no such file or directory").

Definition all_good : string -> outcome Format :=
  fun _ => Resolved aax.

(** Windows, [-a CAFEBABE -d 1], two registered devices. *)
Definition secret_and_device : Env :=
  env "win32" (explicit "CAFEBABE" (Some "1")) two_devices no_file all_good
      ["book.aax"] "".

(** Windows, [-a CAFEBABE -d 7], two registered devices. *)
Definition secret_and_absent_device : Env :=
  env "win32" (explicit "CAFEBABE" (Some "7")) two_devices no_file all_good
      ["book.aax"] "".

(** Windows, [-d 7], two registered devices. *)
Definition absent_device : Env :=
  env "win32" (from_device (Some "7")) two_devices no_file all_good
      ["book.aax"] "".

(** Windows, [-a FFFFFFFF], a registry that holds the sentinel. *)
Definition sentinel_given : Env :=
  env "win32" (explicit "FFFFFFFF" None) with_sentinel no_file all_good
      ["book.aax"] "".

(** Windows, no option, a registry that holds the sentinel. *)
Definition sentinel_in_registry : Env :=
  env "win32" no_options with_sentinel no_file all_good ["book.aax"] "".

(** Linux, [-a CAFEBABE]; the pattern expands to three files, the
    second of which ffprobe cannot read. *)
Definition second_unreadable : string -> outcome Format :=
  fun file =>
    if file =? "b.aax" then Rejected (JsError "ffprobe exited with code 1")
    else Resolved aax.

Definition three_files : Env :=
  env "linux" (explicit "CAFEBABE" None) [] no_file second_unreadable
      ["a.aax"; "b.aax"; "c.aax"] "".

(** Linux, [-a CAFEBABE]; the pattern matches no file. *)
Definition no_files : Env :=
  env "linux" (explicit "CAFEBABE" None) [] no_file all_good [] "".

(** Linux, [-a CAFEBABE]; the pattern matches one good file. *)
Definition one_file : Env :=
  env "linux" (explicit "CAFEBABE" None) [] no_file all_good ["a.aax"] "".

Definition license_text : string :=
  "cust_id=AAA&product_id=BBB&codec=C1&title=My+Book".

Definition license : Env :=
  env "linux" no_options [] no_file all_good [] license_text.

(** The cracker ran and found nothing: its report holds [hex:] only
    with too few digits after it. *)
Definition not_in_tables : string :=
  "statistics: plaintext found: 0 of 1; result: <not found> hex:<notfound> hex:1CEB".

Definition cracker_failed : Env :=
  env "linux" no_options [] no_file all_good [] not_in_tables.

End Sample.

(** ** Further observations and environments

    What follows serves the properties of the parts of the program
    that lie around the functions above. *)

(** The events of one kind, in order: [pick] says which events count
    and what is kept of them. *)
Fixpoint select {X} (pick : event -> option X) (tr : list event) : list X :=
  match tr with
  | [] => []
  | e :: tr' =>
      match pick e with
      | Some x => x :: select pick tr'
      | None => select pick tr'
      end
  end.

Definition is_run (e : event) : option job :=
  match e with Run j => Some j | _ => None end.

Definition is_registry (e : event) : option string :=
  match e with Registry k => Some k | _ => None end.

Definition is_console (e : event) : option string :=
  match e with ConsoleLog l => Some l | _ => None end.

Definition is_progress (e : event) : option (option Z) :=
  match e with Progress _ p => Some p | _ => None end.

Definition is_spawn (e : event) : option string :=
  match e with Spawn c => Some c | _ => None end.

(** The ffmpeg jobs started, in order. *)
Definition runs : list event -> list job := select is_run.

(** The registry keys listed, in order. *)
Definition registry_reads : list event -> list string := select is_registry.

(** The lines written with [console.log], in order. *)
Definition console : list event -> list string := select is_console.

(** The percentages of the progress lines, in order. *)
Definition percentages : list event -> list (option Z) := select is_progress.

(** The checksums rcrack was started with, in order. *)
Definition spawns : list event -> list string := select is_spawn.

(** A promise without events of the kind [pick]. *)
Definition lacks {X A} (pick : event -> option X) (p : Promise A) : Prop :=
  select pick (trace p) = [].

Definition byte_ok_lower (d : N) : bool :=
  match Js.toLowerCase (toHex d) with
  | String h (String l EmptyString) =>
      reads_as h (d / 16) && reads_as l (d mod 16)
      && negb (Js.is_upper h) && negb (Js.is_upper l)
      && Regex.hexdigit h && Regex.hexdigit l
  | _ => false
  end.

(** The record [fetchMetadata] builds from the tags and the duration
    ffprobe reported and from what [fetchChecksum] delivered. *)
Definition metadata_of (t : Tags) (d : Q) (buffer : list N) : Metadata :=
  {| filetype := tag (major_brand t)
                     (fun s => Js.toLowerCase (Num.trim s));
     artist := tag (tag_artist t) Num.trim;
     title := tag (tag_title t) Num.trim;
     date := tag (tag_date t) Num.trim;
     duration :=
       Js.toString10 (Qfloor (d / 3600)%Q) ++ "h"
       ++ Js.toString10 (Qfloor (Num.rem d 3600 / 60)%Q) ++ "m"
       ++ Js.toString10 (Qfloor (Num.rem (Num.rem d 3600) 60)) ++ "s";
     durationRaw := Qfloor d;
     checksum := Js.toLowerCase (bytesToHex buffer) |}.

(** Environments that differ from a given one in one field. *)
Module Vary.

Definition ffmpeg_of (E : Env) (f : job -> run) : Env := {|
  platform := platform E; program := program E; pkg_name := pkg_name E;
  RCRACK_PATH := RCRACK_PATH E; regeditList := regeditList E;
  array_inherited := array_inherited E; fs := fs E; readFile := readFile E;
  ffprobe := ffprobe E; ffmpeg := f; rcrack := rcrack E; glob := glob E;
  sanitize := sanitize E; path_dirname := path_dirname E;
  path_resolve := path_resolve E; path_stem := path_stem E;
  path_format := path_format E
|}.

Definition regedit_of (E : Env)
           (r : option (string -> outcome (list (list N)))) : Env := {|
  platform := platform E; program := program E; pkg_name := pkg_name E;
  RCRACK_PATH := RCRACK_PATH E; regeditList := r;
  array_inherited := array_inherited E; fs := fs E; readFile := readFile E;
  ffprobe := ffprobe E; ffmpeg := ffmpeg E; rcrack := rcrack E; glob := glob E;
  sanitize := sanitize E; path_dirname := path_dirname E;
  path_resolve := path_resolve E; path_stem := path_stem E;
  path_format := path_format E
|}.

Definition program_of (E : Env) (o : Options) : Env := {|
  platform := platform E; program := o; pkg_name := pkg_name E;
  RCRACK_PATH := RCRACK_PATH E; regeditList := regeditList E;
  array_inherited := array_inherited E; fs := fs E; readFile := readFile E;
  ffprobe := ffprobe E; ffmpeg := ffmpeg E; rcrack := rcrack E; glob := glob E;
  sanitize := sanitize E; path_dirname := path_dirname E;
  path_resolve := path_resolve E; path_stem := path_stem E;
  path_format := path_format E
|}.

Definition glob_of (E : Env) (g : string -> outcome (list string)) : Env := {|
  platform := platform E; program := program E; pkg_name := pkg_name E;
  RCRACK_PATH := RCRACK_PATH E; regeditList := regeditList E;
  array_inherited := array_inherited E; fs := fs E; readFile := readFile E;
  ffprobe := ffprobe E; ffmpeg := ffmpeg E; rcrack := rcrack E; glob := g;
  sanitize := sanitize E; path_dirname := path_dirname E;
  path_resolve := path_resolve E; path_stem := path_stem E;
  path_format := path_format E
|}.

Definition rcrack_of (E : Env) (c : string -> outcome string) : Env := {|
  platform := platform E; program := program E; pkg_name := pkg_name E;
  RCRACK_PATH := RCRACK_PATH E; regeditList := regeditList E;
  array_inherited := array_inherited E; fs := fs E; readFile := readFile E;
  ffprobe := ffprobe E; ffmpeg := ffmpeg E; rcrack := c; glob := glob E;
  sanitize := sanitize E; path_dirname := path_dirname E;
  path_resolve := path_resolve E; path_stem := path_stem E;
  path_format := path_format E
|}.

(** ffmpeg fails in the jobs that [bad] selects. *)
Definition failing (bad : job -> bool) : job -> run :=
  fun j =>
    if bad j then
      {| cmd := Some "ffmpeg"; timemarks := ["00:00:05.00"];
         failure := Some (JsError "ffmpeg exited with code 1") |}
    else Sample.smooth.

Definition is_decode (j : job) : bool :=
  match j with DecodeJob _ _ _ => true | _ => false end.

Definition is_cover (j : job) : bool :=
  match j with CoverJob _ _ => true | _ => false end.

Definition is_loop (j : job) : bool :=
  match j with LoopJob _ _ _ => true | _ => false end.

(** A file of 700 bytes that counts upwards from its start. *)
Definition counting : list N := map (fun n => N.of_nat n mod 256)%N (seq 0 700).

End Vary.

(** The names [converter] derives for one input file. *)
Definition outputDirectory (E : Env) (inputFile : string) : string :=
  match path (program E) with
  | Some p => if given (path (program E)) then path_resolve E p
              else path_dirname E inputFile
  | None => path_dirname E inputFile
  end.

Definition outputFilename (E : Env) (metadata : Metadata) : string :=
  match output (program E) with
  | Some o => if given (output (program E)) then sanitize E (path_stem E o)
              else sanitize E (artist metadata ++ " - " ++ title metadata
                               ++ " [" ++ date metadata ++ "]")
  | None => sanitize E (artist metadata ++ " - " ++ title metadata
                        ++ " [" ++ date metadata ++ "]")
  end.

Definition artifact (E : Env) (inputFile : string) (metadata : Metadata)
           (ext : string) : string :=
  path_format E (outputDirectory E inputFile) (outputFilename E metadata) ext.

(** The error [converter] throws when the resolver gave nothing. *)
Definition please_provide (E : Env) : rejection :=
  JsError ("Please provide activation bytes with -a <bytes>"
           ++ (if platform E =? "win32"
               then " or select a device using -d <number>" else "")).

(** The three jobs of one file, in the order [converter] chains them. *)
Definition decode_job (E : Env) (inputFile : string) (metadata : Metadata)
           (bytes : jsval) : job :=
  DecodeJob inputFile (artifact E inputFile metadata ".m4a") bytes.

Definition cover_job (E : Env) (inputFile : string) (metadata : Metadata) : job :=
  CoverJob inputFile (artifact E inputFile metadata ".png").

Definition loop_job (E : Env) (inputFile : string) (metadata : Metadata) : job :=
  LoopJob (artifact E inputFile metadata ".m4a")
          (artifact E inputFile metadata ".png")
          (artifact E inputFile metadata ".m4v").

(** The part of [converter] that follows the resolution of the secret. *)
Definition stages (E : Env) (inputFile : string) (metadata : Metadata)
           (bytes : jsval) : Promise unit :=
  convertAudiobook E inputFile (artifact E inputFile metadata ".m4a") bytes
                   (durationRaw metadata) ;;;
  extractCoverImage E inputFile (artifact E inputFile metadata ".png") ;;;
  (if loop (program E)
   then addLoopedImage E (artifact E inputFile metadata ".m4a")
                       (artifact E inputFile metadata ".m4v")
                       (artifact E inputFile metadata ".png")
                       (durationRaw metadata)
   else resolve tt).

(** The jobs one file should go through when nothing fails. *)
Definition planned (E : Env) (inputFile : string) (metadata : Metadata)
           (bytes : jsval) : list job :=
  decode_job E inputFile metadata bytes :: cover_job E inputFile metadata
  :: (if loop (program E) then [loop_job E inputFile metadata] else []).

(** A job that ffmpeg ends without error. *)
Definition succeeds (E : Env) (j : job) : bool :=
  match failure (ffmpeg E j) with
  | None => true
  | Some _ => false
  end.

(** The planned jobs up to and including the first that fails. *)
Fixpoint until_failure (E : Env) (jobs : list job) : list job :=
  match jobs with
  | [] => []
  | j :: rest => j :: (if succeeds E j then until_failure E rest else [])
  end.

(** The error of the first planned job that fails. *)
Fixpoint first_failure (E : Env) (jobs : list job) : option rejection :=
  match jobs with
  | [] => None
  | j :: rest =>
      match failure (ffmpeg E j) with
      | Some err => Some err
      | None => first_failure E rest
      end
  end.

(** A license text holds the field [key] with the value [id]: the value
    follows the key, has at least two characters and no [&]. *)
Definition field_of (content key id : string) : Prop :=
  (exists pre post, content = pre ++ key ++ id ++ post)
  /\ 2 <= String.length id
  /\ all Regex.not_amp id = true.

(** An occurrence of [hex:] and eight digits before which no other one
    starts. *)
Definition leftmost_hex (output h : string) : Prop :=
  exists pre post,
    output = pre ++ "hex:" ++ h ++ post
    /\ String.length h = 8 /\ all Regex.hexdigit h = true
    /\ forall pre' h' post',
        output = pre' ++ "hex:" ++ h' ++ post' ->
        String.length h' = 8 -> all Regex.hexdigit h' = true ->
        String.length pre <= String.length pre'.

(** ** The commands and the downloader

    The sub-commands [list], [lookup], [checksum] and [download] of the
    latest revision write to [console.error], fetch over HTTPS and
    create a file: actions beyond the events of the conversion. *)

Inductive action : Type :=
| Core (e : event)
| ConsoleError (line : string)          (* console.error *)
| HttpsGet (url : string)               (* https.get *)
| CreateWriteStream (output : string).  (* fs.createWriteStream *)

(** A promise chain over actions. *)
Definition Task (A : Type) : Type := (list action * outcome A)%type.

Definition lift {A} (p : Promise A) : Task A := (map Core (trace p), result p).

Definition andThen {A B} (t : Task A) (k : A -> Task B) : Task B :=
  match t with
  | (tr, Resolved a) => let (tr', o) := k a in ((tr ++ tr')%list, o)
  | (tr, Rejected r) => (tr, Rejected r)
  end.

Definition orElse {A} (t : Task A) (h : rejection -> Task A) : Task A :=
  match t with
  | (tr, Resolved a) => (tr, Resolved a)
  | (tr, Rejected r) => let (tr', o) := h r in ((tr ++ tr')%list, o)
  end.

(** The handler every command ends with:
    [logger.log('error', err.message); logger.log('debug', err.stack)]. *)
Definition logged (err : rejection) : Task unit :=
  lift (emit (Log error (message err)) ;;; emit (LogStack debug err)).

(** A promise chain that may stay pending for ever: [None] when it is
    never settled. *)
Definition Pending (A : Type) : Type := (list action * option (outcome A))%type.

Definition settled {A} (t : Task A) : Pending A := (fst t, Some (snd t)).

Definition andThenP {A B} (t : Pending A) (k : A -> Pending B) : Pending B :=
  match t with
  | (tr, Some (Resolved a)) => let (tr', o) := k a in ((tr ++ tr')%list, o)
  | (tr, Some (Rejected r)) => (tr, Some (Rejected r))
  | (tr, None) => (tr, None)
  end.

Definition orElseP {A} (t : Pending A) (h : rejection -> Pending A) : Pending A :=
  match t with
  | (tr, Some (Rejected r)) => let (tr', o) := h r in ((tr ++ tr')%list, o)
  | other => other
  end.

(** How the transfer of a body ends. *)
Inductive transfer_end : Type :=
| Finish                        (* the write stream emits 'finish' *)
| WriteError (err : rejection)  (* the write stream emits 'error' *)
| Stall.                        (* it emits neither *)

(** What follows a request that is answered: the status, the
    [content-length] header when there is one (decimal digits), the
    lengths of the chunks that arrive before the transfer ends, and how
    it ends.  Byte counts are below 2^53, where adding them as doubles
    is exact.  What the streams still do after a write error is not
    covered. *)
Record response : Type := {
  statusCode : N;
  content_length : option N;
  chunks : list N;
  ending : transfer_end
}.

(** What a call of [https.get] leads to. *)
Inductive request : Type :=
| Thrown (err : rejection)      (* the call itself throws *)
| Failed                        (* 'error' on the request, before any response *)
| Answered (r : response).      (* the callback runs with a response *)

(** Zeros in front of [s], up to [k] characters. *)
Definition pad (k : nat) (s : string) : string :=
  String.concat "" (repeat "0" (k - String.length s)) ++ s.

(** [x.toFixed(k)] for a double that is not negative and below 10^21:
    rounded to [k] decimals, the half upwards. *)
Definition toFixed (k : nat) (x : Q) : string :=
  let n := Qfloor (x * inject_Z (10 ^ Z.of_nat k) + (1 # 2))%Q in
  match k with
  | O => Js.toString10 n
  | _ => Js.toString10 (n / 10 ^ Z.of_nat k) ++ "."
         ++ pad k (Js.toString10 (n mod 10 ^ Z.of_nat k))
  end.

(** [(n / 1048576).toFixed(2)] *)
Definition megabytes (n : N) : string :=
  match Double.div (inject_Z (Z.of_N n)) 1048576 with
  | Some q => toFixed 2 q
  | None => "Infinity"
  end.

(** [((receivedBytes * 100) / totalBytes).toFixed(0)]; without the
    header the total is [undefined] and the quotient [NaN]. *)
Definition percent_text (receivedBytes : N) (totalBytes : option N) : string :=
  match totalBytes with
  | None => "NaN"
  | Some 0%N => if (receivedBytes =? 0)%N then "NaN" else "Infinity"
  | Some t =>
      match Double.bind (Double.mul (inject_Z (Z.of_N receivedBytes)) 100)
                        (fun scaled => Double.div scaled (inject_Z (Z.of_N t))) with
      | Some q => toFixed 0 q
      | None => "Infinity"
      end
  end.

Definition total_text (totalBytes : option N) : string :=
  match totalBytes with
  | None => "NaN"
  | Some t => megabytes t
  end.

Definition CR : string := String (ascii_of_nat 13) "".
Definition LF : string := String (ascii_of_nat 10) "".

Definition progress_line (output : string) (receivedBytes : N)
           (totalBytes : option N) : string :=
  "Downloading '" ++ output ++ "' ... " ++ percent_text receivedBytes totalBytes
  ++ "% | " ++ megabytes receivedBytes ++ " / " ++ total_text totalBytes
  ++ " MB" ++ CR.

(** The ['data'] handler, chunk after chunk. *)
Fixpoint on_data (output : string) (totalBytes : option N) (receivedBytes : N)
         (chunks : list N) : list action :=
  match chunks with
  | [] => []
  | chunk :: rest =>
      let receivedBytes := (receivedBytes + chunk)%N in
      Core (StdoutWrite (progress_line output receivedBytes totalBytes))
      :: on_data output totalBytes receivedBytes rest
  end.

(** [download] of the latest revision.  An error thrown by [https.get]
    inside the executor rejects the promise.  When the request fails
    before any response the callback never runs and the promise stays
    pending: no listener for the ['error'] of the request is
    registered. *)
Definition download (https : string -> request) (url output : string)
  : Pending unit :=
  match https url with
  | Thrown err => ([HttpsGet url], Some (Rejected err))
  | Failed => ([HttpsGet url], None)
  | Answered response =>
      if negb (statusCode response =? 200)%N then
        ([HttpsGet url], Some (Rejected (JsError "Download error!")))
      else
        let progress :=
          HttpsGet url :: CreateWriteStream output
          :: on_data output (content_length response) 0%N (chunks response) in
        match ending response with
        | Finish =>
            ((progress ++ [Core (ConsoleLog "")])%list, Some (Resolved tt))
        | WriteError err =>
            ((progress ++ [Core (ConsoleLog "")])%list, Some (Rejected err))
        | Stall => (progress, None)
        end
  end.

(** [_.each(result, (v, k) => console.log(`Device ${k}: ${v}`))] from
    index [k] on. *)
Fixpoint each_device (k : nat) (devices : list string) : list event :=
  match devices with
  | [] => []
  | v :: rest =>
      ConsoleLog ("Device " ++ Js.toString10 (Z.of_nat k) ++ ": " ++ v)
      :: each_device (S k) rest
  end.

Section Commands.

Variable E : Env.

(** The [list] command. *)
Definition list_command : list action :=
  if negb (platform E =? "win32") then
    [ConsoleError "This command is only available on Windows"]
  else
    fst (andThen (lift (setupWinston E)) (fun _ =>
         orElse
           (lift (result <- fetchActivationBytesFromDevices E ;;
                  emit (ConsoleLog ("Activation bytes of registered devices:" ++ LF)) ;;;
                  (each_device 0 result, Resolved tt)))
           logged)).

(** The [lookup] command. *)
Definition lookup_command (fileOrChecksum : string) : list action :=
  if negb (platform E =? "win32") && negb (platform E =? "linux") then
    [ConsoleError "This command is only available on Windows and Linux"]
  else
    fst (andThen (lift (setupWinston E)) (fun _ =>
         match Regex.search "" (repeat (Regex.One Regex.hexdigit) 20)
                            fileOrChecksum with
         | Some _ => orElse (lift (lookupChecksum E fileOrChecksum)) logged
         | None =>
             orElse
               (lift (metadata <- fetchMetadata E fileOrChecksum ;;
                      lookupChecksum E (checksum metadata)))
               logged
         end)).

(** The [checksum] command. *)
Definition checksum_command (inputFile : string) : list action :=
  fst (andThen (lift (setupWinston E)) (fun _ =>
       orElse
         (lift (metadata <- fetchMetadata E inputFile ;;
                emit (ConsoleLog ("Checksum for " ++ inputFile ++ " is "
                                  ++ checksum metadata))))
         logged)).

(** The [download] command. *)
Definition download_command (https : string -> request)
           (inputFile : string) : list action :=
  fst (andThenP (settled (lift (setupWinston E))) (fun _ =>
       orElseP
         (andThenP (settled (lift (extractDownloadURL E inputFile))) (fun result =>
          andThenP (download https (url result)
                             (sanitize E (dl_title result) ++ ".aax")) (fun _ =>
          settled (lift (emit (ConsoleLog "Download complete!"))))))
         (fun err => settled (logged err)))).

End Commands.

(** The actions of one kind, in order. *)
Fixpoint choose {X} (pick : action -> option X) (tr : list action) : list X :=
  match tr with
  | [] => []
  | a :: tr' =>
      match pick a with
      | Some x => x :: choose pick tr'
      | None => choose pick tr'
      end
  end.

Definition written (a : action) : option string :=
  match a with Core (StdoutWrite t) => Some t | _ => None end.

Definition printed (a : action) : option string :=
  match a with Core (ConsoleLog l) => Some l | _ => None end.

Definition created (a : action) : option string :=
  match a with CreateWriteStream o => Some o | _ => None end.

Definition fetched (a : action) : option string :=
  match a with HttpsGet u => Some u | _ => None end.

Definition probed (a : action) : option string :=
  match a with Core (Probe f) => Some f | _ => None end.

Definition spawned (a : action) : option string :=
  match a with Core (Spawn c) => Some c | _ => None end.

Definition listed (a : action) : option string :=
  match a with Core (Registry k) => Some k | _ => None end.

Definition errors_logged (a : action) : option string :=
  match a with Core (Log error m) => Some m | _ => None end.

(** A text holds [n] hexadecimal digits in a row. *)
Definition hex_run (n : nat) (s : string) : Prop :=
  exists pre h post,
    s = pre ++ h ++ post /\ String.length h = n /\ all Regex.hexdigit h = true.

(** A platform on which [lookup] is available. *)
Definition can_lookup (E : Env) : Prop :=
  platform E = "win32" \/ platform E = "linux".

(** The bytes of a body, from the lengths of its chunks. *)
Definition body_length (chunks : list N) : N := fold_right N.add 0%N chunks.

(** The name [download] is given for a parsed license. *)
Definition download_name (E : Env) (d : Download) : string :=
  sanitize E (dl_title d) ++ ".aax".

(** ** The library's IEEE 754 division, for comparison

    [SpecFloat.SFdiv] at precision 53 and maximal exponent 1024 is the
    division of doubles; applied to two integers it yields the double
    nearest to their quotient. *)

Definition of_spec (x : SpecFloat.spec_float) : option Q :=
  match x with
  | SpecFloat.S754_zero _ => Some 0%Q
  | SpecFloat.S754_finite s m e =>
      let v := if (0 <=? e)%Z then inject_Z (Z.pos m * 2 ^ e)
               else Qmake (Z.pos m) (Z.to_pos (2 ^ (- e))) in
      Some (Qred (if s then Qopp v else v))
  | _ => None
  end.

Definition library_quotient (n d : positive) : option Q :=
  of_spec (SpecFloat.SFdiv 53 1024 (SpecFloat.S754_finite false n 0)
                           (SpecFloat.S754_finite false d 0)).

Definition same_number (a b : option Q) : bool :=
  match a, b with
  | Some x, Some y => Qeq_bool x y
  | None, None => true
  | _, _ => false
  end.

(** Pairs of positive numbers of all sizes up to 64 bits, from a linear
    congruential sequence. *)
Fixpoint sequence (k : nat) (x : Z) : list Z :=
  match k with
  | O => []
  | S k =>
      let y := ((x * 6364136223846793005 + 1442695040888963407) mod 2 ^ 64)%Z in
      (1 + y / 2 ^ Z.of_nat (k mod 60))%Z :: sequence k y
  end.

Fixpoint paired (l : list Z) : list (positive * positive) :=
  match l with
  | a :: b :: r => (Z.to_pos a, Z.to_pos b) :: paired r
  | _ => []
  end.

(** [round] and the library agree on [n^i / d^j]. *)
Definition agree (i j : positive) (p : positive * positive) : bool :=
  same_number (Double.round (Z.pos (fst p ^ i) # snd p ^ j))
              (library_quotient (fst p ^ i) (snd p ^ j)).

(** * Properties *)

(** ** Sanity checks *)

Example toHex_10 : toHex 10 = "0A".
Proof. reflexivity. Qed.

Example toHex_255 : toHex 255 = "FF".
Proof. reflexivity. Qed.

Example toHex_511 : toHex 511 = "FF".
Proof. reflexivity. Qed.

Example extractBytes_example :
  extractBytes [218; 0; 235; 28; 7]%N = "1CEB00DA".
Proof. reflexivity. Qed.

(** Rounding: one tenth; ties go to the even significand; the largest
    and the smallest magnitudes. *)
Example round_tenth :
  Double.round (1 # 10) = Some (3602879701896397 # 36028797018963968)%Q.
Proof. vm_compute. reflexivity. Qed.

Example round_ties_to_even :
  Double.round (inject_Z (2 ^ 53 + 1)) = Some (inject_Z (2 ^ 53))
  /\ Double.round (inject_Z (2 ^ 53 + 3)) = Some (inject_Z (2 ^ 53 + 4)).
Proof.
  repeat match goal with |- _ /\ _ => split end; vm_compute; reflexivity.
Qed.

Example round_limits :
  Double.round (inject_Z (2 ^ 1024 - 2 ^ 970)) = None
  /\ option_map Qfloor (Double.round (inject_Z (2 ^ 1024 - 2 ^ 970 - 1)))
     = Some (2 ^ 1024 - 2 ^ 971)%Z
  /\ Double.round (1 # 2 ^ 1075) = Some 0%Q
  /\ Double.round (3 # 2 ^ 1075) = Some (1 # 2 ^ 1073)%Q.
Proof.
  repeat match goal with |- _ /\ _ => split end; vm_compute; reflexivity.
Qed.

(** [round] gives what the library's division of doubles gives: on
    quotients of ordinary size, on tiny ones (down to the subnormal
    range and to zero) and on huge ones (up to the overflow). *)
Example round_agrees_with_library :
  forallb (agree 1 1) (paired (sequence 120 7)) = true
  /\ forallb (agree 1 20) (paired (sequence 60 11)) = true
  /\ forallb (agree 18 1) (paired (sequence 60 13)) = true
  /\ library_quotient 59999999999999999 (10 ^ 15) = Some 60%Q
  /\ Double.round (59999999999999999 # 10 ^ 15) = Some 60%Q.
Proof.
  repeat match goal with |- _ /\ _ => split end; vm_compute; reflexivity.
Qed.

(** Numerals as the arithmetic of the program reads them. *)
Example toNumber_forms :
  Num.toNumber " 12 " = Some 12%Q
  /\ Num.toNumber "" = Some 0%Q
  /\ Num.toNumber "1e1" = Some 10%Q
  /\ Num.toNumber "0x10" = Some 16%Q
  /\ Num.toNumber "-.5" = Some (- (1 # 2))%Q
  /\ Num.toNumber "59.999999999999999" = Some 60%Q
  /\ Num.toNumber "1e400" = None
  /\ Num.toNumber "N/A" = None.
Proof.
  repeat match goal with |- _ /\ _ => split end; vm_compute; reflexivity.
Qed.

(** The percentage where the rounding of doubles shows: sixteen
    nines after the point read as 60 seconds, and 1.13 hours are a
    little less than 4068 seconds. *)
Example percent_rounds_like_doubles :
  currentTimemarkToPercent "0:00:59.999999999999999" 60 = Some 100%Z
  /\ currentTimemarkToPercent "0:00:59.99999999999999" 60 = Some 98%Z
  /\ currentTimemarkToPercent "1.13:00:00" 3600 = Some 112%Z.
Proof.
  repeat match goal with |- _ /\ _ => split end; vm_compute; reflexivity.
Qed.

(** Running a promise chain whose steps are known. *)
Ltac run_chain :=
  cbn [then_ catch_ all2 emit settle resolve reject trace result fst snd List.app].

(** ** Promise chains *)

Section Chains.

Lemma trace_then {A B} (p : Promise A) (k : A -> Promise B) :
  trace (then_ p k)
  = (trace p ++ match result p with
                | Resolved a => trace (k a)
                | Rejected _ => []
                end)%list.
Proof.
  destruct p as [tr [a|r]]; cbn.
  - now destruct (k a).
  - now rewrite app_nil_r.
Qed.

Lemma result_then {A B} (p : Promise A) (k : A -> Promise B) :
  result (then_ p k)
  = match result p with
    | Resolved a => result (k a)
    | Rejected r => Rejected r
    end.
Proof. destruct p as [tr [a|r]]; cbn; [now destruct (k a)|reflexivity]. Qed.

Lemma promise_eta {A} (p : Promise A) : p = (trace p, result p).
Proof. now destruct p. Qed.

Lemma probes_app a b : probes (a ++ b) = (probes a ++ probes b)%list.
Proof.
  induction a as [|e a IH]; [reflexivity|].
  destruct e; cbn; rewrite IH; reflexivity.
Qed.

Lemma quiet_then {A B} (p : Promise A) (k : A -> Promise B) :
  quiet p -> (forall a, quiet (k a)) -> quiet (then_ p k).
Proof.
  unfold quiet. intros Hp Hk. rewrite trace_then, probes_app, Hp.
  destruct (result p); [apply Hk|reflexivity].
Qed.

Lemma quiet_catch {A} (p : Promise A) (h : rejection -> Promise A) :
  quiet p -> (forall r, quiet (h r)) -> quiet (catch_ p h).
Proof.
  unfold quiet. intros Hp Hh. destruct p as [tr [a|r]]; cbn in *; [exact Hp|].
  specialize (Hh r). destruct (h r) as [tr' o]. cbn in *.
  now rewrite probes_app, Hp, Hh.
Qed.

Lemma quiet_events {A} (l : list event) (o : outcome A) :
  Forall (fun e => match e with Probe _ => False | _ => True end) l ->
  quiet (l, o).
Proof.
  unfold quiet. cbn. induction 1 as [|e l He Hl IH]; [reflexivity|].
  destruct e; cbn; auto. contradiction.
Qed.

Lemma quiet_map {A B} (g : B -> event) (l : list B) (o : outcome A) :
  (forall b, match g b with Probe _ => False | _ => True end) ->
  quiet (map g l, o).
Proof.
  intros Hg. apply quiet_events. apply Forall_forall.
  intros e He. apply in_map_iff in He. destruct He as (b & <- & _). apply Hg.
Qed.

End Chains.

Ltac quiet_step :=
  match goal with
  | |- quiet (then_ _ _) => apply quiet_then; [|intros]
  | |- quiet (catch_ _ _) => apply quiet_catch; [|intros]
  | |- quiet (emit _) => reflexivity
  | |- quiet (resolve _) => reflexivity
  | |- quiet (reject _) => reflexivity
  | |- quiet (settle _) => reflexivity
  | |- quiet (if ?b then _ else _) => destruct b
  | |- quiet (match ?x with _ => _ end) => destruct x
  end.

(** ** Hex rendering: lemmas *)

Section HexLemmas.

Lemma reads_as_spec c v : reads_as c v = true -> hexval c = Some v.
Proof.
  unfold reads_as. destruct (hexval c); [|discriminate].
  intros H. apply N.eqb_eq in H. now subst.
Qed.

Lemma byte_ok_below (n : nat) :
  forallb byte_ok (map N.of_nat (seq 0 n)) = true ->
  forall d, (d < N.of_nat n)%N -> byte_ok d = true.
Proof.
  intros H d Hd.
  rewrite forallb_forall in H.
  apply H. apply in_map_iff.
  exists (N.to_nat d). split; [lia|].
  apply in_seq. lia.
Qed.

Lemma byte_ok_all d : is_byte d -> byte_ok d = true.
Proof.
  intros Hd. apply (byte_ok_below 256).
  - vm_compute. reflexivity.
  - exact Hd.
Qed.

(** Every byte renders as exactly two characters that read back as the
    byte, and neither is a lowercase letter. *)
Lemma toHex_byte d :
  is_byte d ->
  exists h l,
    toHex d = String h (String l EmptyString)
    /\ hexval h = Some (d / 16)%N /\ hexval l = Some (d mod 16)%N
    /\ Js.is_lower h = false /\ Js.is_lower l = false.
Proof.
  intros Hd. pose proof (byte_ok_all d Hd) as H.
  unfold byte_ok in H.
  destruct (toHex d) as [|h [|l [|]]]; try discriminate.
  repeat (apply andb_true_iff in H; destruct H as [H ?]).
  exists h, l. repeat split; auto using reads_as_spec.
  - now apply negb_true_iff.
  - now apply negb_true_iff.
Qed.

Lemma append_empty_r s : s ++ "" = s.
Proof. induction s; cbn; congruence. Qed.

Lemma bytesToHex_cons d l : bytesToHex (d :: l) = toHex d ++ bytesToHex l.
Proof.
  unfold bytesToHex, Js.join. cbn [map String.concat].
  destruct (map toHex l) eqn:E.
  - cbn. now rewrite append_empty_r.
  - reflexivity.
Qed.

Lemma hexToBytes_bytesToHex l :
  Forall is_byte l -> hexToBytes (bytesToHex l) = Some l.
Proof.
  induction 1 as [|d l Hd Hl IH].
  - reflexivity.
  - rewrite bytesToHex_cons.
    destruct (toHex_byte d Hd) as (h & c & -> & Hh & Hc & _).
    cbn [append hexToBytes]. rewrite Hh, Hc, IH.
    do 2 f_equal. pose proof (N.div_mod d 16). lia.
Qed.

Lemma toUpperCase_app a b :
  Js.toUpperCase (a ++ b) = Js.toUpperCase a ++ Js.toUpperCase b.
Proof. induction a; cbn; congruence. Qed.

Lemma upper_char_fixed c : Js.is_lower c = false -> Js.upper_char c = c.
Proof. unfold Js.upper_char. now intros ->. Qed.

Lemma bytesToHex_upper l :
  Forall is_byte l -> Js.toUpperCase (bytesToHex l) = bytesToHex l.
Proof.
  induction 1 as [|d l Hd Hl IH].
  - reflexivity.
  - rewrite bytesToHex_cons, toUpperCase_app, IH. f_equal.
    destruct (toHex_byte d Hd) as (h & c & -> & _ & _ & Hh & Hc).
    cbn. now rewrite !upper_char_fixed.
Qed.

Lemma bytesToHex_length l :
  Forall is_byte l -> String.length (bytesToHex l) = 2 * List.length l.
Proof.
  induction 1 as [|d l Hd Hl IH].
  - reflexivity.
  - rewrite bytesToHex_cons.
    destruct (toHex_byte d Hd) as (h & c & -> & _).
    cbn [append String.length List.length]. rewrite IH. lia.
Qed.

Lemma upper_char_idem c : Js.upper_char (Js.upper_char c) = Js.upper_char c.
Proof. destruct c as [[] [] [] [] [] [] [] []]; reflexivity. Qed.

Lemma toUpperCase_idem s : Js.toUpperCase (Js.toUpperCase s) = Js.toUpperCase s.
Proof. induction s; cbn; [reflexivity|]. now rewrite upper_char_idem, IHs. Qed.

(** Whatever the numbers, the rendering has no lowercase letter. *)
Lemma bytesToHex_upper_any l : Js.toUpperCase (bytesToHex l) = bytesToHex l.
Proof.
  induction l as [|d l IH]; [reflexivity|].
  rewrite bytesToHex_cons, toUpperCase_app, IH. f_equal.
  unfold toHex. apply toUpperCase_idem.
Qed.

End HexLemmas.

(** C9 (as amended).  For a byte array of at least four bytes,
    [extractBytes] yields eight characters without lowercase letters
    that decode to the first four bytes in reverse order; [bytesToHex]
    of the first four bytes decodes to those bytes in their original
    order. *)
Theorem extractBytes_decodes_reversed (byteArray : list N) :
  4 <= List.length byteArray ->
  Forall is_byte byteArray ->
  hexToBytes (extractBytes byteArray) = Some (rev (firstn 4 byteArray))
  /\ hexToBytes (bytesToHex (firstn 4 byteArray)) = Some (firstn 4 byteArray)
  /\ Js.toUpperCase (extractBytes byteArray) = extractBytes byteArray
  /\ String.length (extractBytes byteArray) = 8.
Proof.
  intros Hlen Hall.
  assert (H4 : Forall is_byte (firstn 4 byteArray)).
  { apply Forall_forall. intros x Hx.
    rewrite Forall_forall in Hall. apply Hall.
    rewrite <- (firstn_skipn 4 byteArray). apply in_or_app. now left. }
  assert (Hr : Forall is_byte (rev (firstn 4 byteArray))).
  { apply Forall_forall. intros x Hx. apply in_rev in Hx.
    rewrite Forall_forall in H4. now apply H4. }
  unfold extractBytes. repeat split.
  - now apply hexToBytes_bytesToHex.
  - now apply hexToBytes_bytesToHex.
  - now apply bytesToHex_upper.
  - rewrite bytesToHex_length by assumption.
    rewrite length_rev, firstn_length_le by assumption. reflexivity.
Qed.

Lemma extractBytes_decodes_reversed_witness :
  hexToBytes (extractBytes [218; 0; 235; 28; 7]%N) = Some [28; 235; 0; 218]%N
  /\ hexToBytes (bytesToHex [218; 0; 235; 28]%N) = Some [218; 0; 235; 28]%N
  /\ Js.toUpperCase (extractBytes [218; 0; 235; 28; 7]%N)
     = extractBytes [218; 0; 235; 28; 7]%N
  /\ String.length (extractBytes [218; 0; 235; 28; 7]%N) = 8.
Proof.
  apply (extractBytes_decodes_reversed [218; 0; 235; 28; 7]%N).
  - simpl. lia.
  - repeat constructor.
Defined.

(** C9 as stated fails: decoding what [extractBytes] renders does not
    give back the first four bytes in their original order. *)
Lemma extractBytes_not_identity :
  hexToBytes (extractBytes [1; 2; 3; 4]%N) <> Some (firstn 4 [1; 2; 3; 4]%N).
Proof. vm_compute. discriminate. Qed.

(** ** The checksum reader *)

Lemma alloc_length n : List.length (alloc n) = n.
Proof. apply repeat_length. Qed.

Lemma read_into_length buffer content len pos :
  len <= List.length buffer ->
  List.length (read_into buffer content len pos) = List.length buffer.
Proof.
  intros H. unfold read_into.
  rewrite length_app, length_skipn.
  pose proof (firstn_le_length len (skipn pos content)). lia.
Qed.

Lemma read_into_past_end buffer content len pos :
  List.length content <= pos ->
  read_into buffer content len pos = buffer.
Proof.
  intros H. unfold read_into.
  rewrite skipn_all2 by assumption.
  now rewrite firstn_nil.
Qed.

Lemma skipn_repeat {A} (x : A) n m : skipn n (repeat x m) = repeat x (m - n).
Proof.
  revert m. induction n as [|n IH]; intros [|m]; cbn; auto.
Qed.

(** C5 (as amended).  [fetchChecksum] never rejects and always yields
    20 bytes.  They are all zero, with the error logged, when the file
    cannot be opened or read, and all zero when the file has at most
    653 bytes; otherwise they are the bytes the file has from offset
    653 on, at most 20 of them, followed by zeros.  Nothing is logged
    for a file that can be read, however short. *)
Theorem fetchChecksum_never_rejects (E : Env) (file : string) :
  exists buffer,
    result (fetchChecksum E file) = Resolved buffer
    /\ List.length buffer = 20
    /\ match fs E file with
       | CannotOpen r | CannotRead r =>
           buffer = alloc 20
           /\ In (Log error (message r)) (trace (fetchChecksum E file))
       | Content bytes =>
           buffer = (firstn 20 (skipn 653 bytes)
                     ++ repeat 0%N (20 - List.length (firstn 20 (skipn 653 bytes))))%list
           /\ (List.length bytes <= 653 -> buffer = alloc 20)
           /\ trace (fetchChecksum E file) = [OpenRead file]
       end.
Proof.
  unfold fetchChecksum.
  destruct (fs E file) as [r|r|bytes]; cbn.
  - exists (alloc 20). repeat split; auto.
  - exists (alloc 20). repeat split; auto.
  - exists (read_into (alloc 20) bytes 20 653). repeat split.
    + now rewrite read_into_length.
    + unfold read_into, alloc. now rewrite skipn_repeat.
    + intros Hlen. now apply read_into_past_end.
Qed.

(** C5 as stated fails: a file of 654 bytes is shorter than 673 bytes,
    and the checksum read from it is not all zero. *)
Lemma fetchChecksum_short_file_not_zero :
  let store := fun _ : string => Content (repeat 0%N 653 ++ [1%N])%list in
  let E := Sample.env "linux" Sample.no_options [] store Sample.all_good [] "" in
  List.length (repeat 0%N 653 ++ [1%N])%list < 673
  /\ result (fetchChecksum E "book.aax")
     = Resolved (1 :: repeat 0 19)%N
  /\ result (fetchChecksum E "book.aax") <> Resolved (alloc 20)
  /\ trace (fetchChecksum E "book.aax") = [OpenRead "book.aax"].
Proof.
  cbv zeta. repeat split.
  - rewrite length_app, repeat_length. simpl. lia.
  - vm_compute. discriminate.
Qed.

(** ** Regular expressions: what [search] finds *)

Section RegexLemmas.

Lemma length_append a b : String.length (a ++ b) = String.length a + String.length b.
Proof. induction a; cbn; auto. Qed.

Lemma append_assoc a b c : (a ++ b) ++ c = a ++ (b ++ c).
Proof. induction a; cbn; congruence. Qed.

Lemma substring_prefix m r : substring 0 (String.length m) (m ++ r) = m.
Proof.
  induction m as [|c m IH]; cbn.
  - now destruct r.
  - now rewrite IH.
Qed.

Lemma match_lit t s r :
  Regex.match_atoms (Regex.lit t) s = Some r <-> s = t ++ r.
Proof.
  revert s. induction t as [|c t IH]; intros s; cbn.
  - split; congruence.
  - destruct s as [|d s]; cbn.
    + split; discriminate.
    + destruct (Ascii.eqb_spec c d) as [->|Hne].
      * fold (Regex.lit t). rewrite IH. split; congruence.
      * split; [discriminate|]. intros H. injection H as H _. congruence.
Qed.

Lemma match_class_n p n s r :
  Regex.match_atoms (repeat (Regex.One p) n) s = Some r <->
  exists m, s = m ++ r /\ String.length m = n /\ all p m = true.
Proof.
  revert s. induction n as [|n IH]; intros s; cbn.
  - split.
    + intros H. injection H as <-. now exists "".
    + intros (m & -> & Hm & _). destruct m; [reflexivity|discriminate].
  - destruct s as [|c s].
    + split; [discriminate|].
      intros (m & Hs & Hm & _). destruct m; discriminate.
    + destruct (p c) eqn:Hc.
      * rewrite IH. split.
        -- intros (m & -> & Hm & Hall). exists (String c m). cbn.
           rewrite Hc, Hall. auto.
        -- intros (m & Hs & Hm & Hall). destruct m as [|c' m]; [discriminate|].
           cbn in Hs, Hm, Hall. injection Hs as <- ->.
           apply andb_true_iff in Hall. exists m. intuition.
      * split; [discriminate|].
        intros (m & Hs & Hm & Hall). destruct m as [|c' m]; [discriminate|].
        cbn in Hs, Hall. injection Hs as <- _.
        rewrite Hc in Hall. discriminate.
Qed.

(** The pattern [hex:([a-fA-F0-9]{8})] at the start of a text. *)
Lemma match_here_hex s g :
  Regex.match_here "hex:" (repeat (Regex.One Regex.hexdigit) 8) s = Some g <->
  exists post, s = "hex:" ++ g ++ post
               /\ String.length g = 8 /\ all Regex.hexdigit g = true.
Proof.
  unfold Regex.match_here.
  destruct (Regex.match_atoms (Regex.lit "hex:") s) as [r|] eqn:Hl.
  - apply match_lit in Hl. subst s.
    destruct (Regex.match_atoms (repeat (Regex.One Regex.hexdigit) 8) r)
      as [r'|] eqn:Hg.
    + apply match_class_n in Hg. destruct Hg as (m & -> & Hm & Hall).
      rewrite length_append, Nat.add_sub, substring_prefix.
      split.
      * intros H. injection H as <-. now exists r'.
      * intros (post & Hs & Hg' & _). f_equal.
        cbn in Hs. injection Hs as Hs.
        clear Hall. revert g Hg' Hs Hm. generalize 8. clear.
        induction m as [|c m IH]; intros n g Hg Hs Hm.
        -- subst n. destruct g; [reflexivity|discriminate].
        -- destruct g as [|d g]; [subst n; discriminate|].
           cbn in *. injection Hs as -> Hs. f_equal.
           apply (IH (pred n)); auto; lia.
    + split; [discriminate|].
      intros (post & Hs & Hg' & Hall). exfalso.
      cbn in Hs. injection Hs as ->.
      assert (Hsome : Regex.match_atoms (repeat (Regex.One Regex.hexdigit) 8)
                        (g ++ post) = Some post).
      { apply match_class_n. now exists g. }
      congruence.
  - split; [discriminate|].
    intros (post & -> & _). exfalso.
    assert (Hsome : Regex.match_atoms (Regex.lit "hex:") ("hex:" ++ g ++ post)
                    = Some (g ++ post)).
    { now apply match_lit. }
    congruence.
Qed.

Lemma search_none prefix group s :
  Regex.search prefix group s = None <->
  forall pre rest, s = pre ++ rest -> Regex.match_here prefix group rest = None.
Proof.
  induction s as [|c s IH]; cbn.
  - destruct (Regex.match_here prefix group "") eqn:H0.
    + split; [discriminate|]. intros H. specialize (H "" "" eq_refl). congruence.
    + split; [|reflexivity]. intros _ pre rest Hs.
      destruct pre; [|discriminate]. cbn in Hs. now subst.
  - destruct (Regex.match_here prefix group (String c s)) eqn:H0.
    + split; [discriminate|]. intros H.
      specialize (H "" (String c s) eq_refl). congruence.
    + rewrite IH. split.
      * intros H pre rest Hs. destruct pre as [|d pre].
        -- cbn in Hs. now subst.
        -- cbn in Hs. injection Hs as _ Hs. now apply (H pre).
      * intros H pre rest Hs. apply (H (String c pre)). cbn. now f_equal.
Qed.

Lemma search_some prefix group s g :
  Regex.search prefix group s = Some g ->
  exists pre rest, s = pre ++ rest /\ Regex.match_here prefix group rest = Some g.
Proof.
  induction s as [|c s IH]; cbn.
  - destruct (Regex.match_here prefix group "") eqn:H0; [|discriminate].
    intros H. injection H as <-. now exists "", "".
  - destruct (Regex.match_here prefix group (String c s)) eqn:H0.
    + intros H. injection H as <-. now exists "", (String c s).
    + intros H. destruct (IH H) as (pre & rest & -> & Hm).
      now exists (String c pre), rest.
Qed.

End RegexLemmas.

Lemma search_hex_none output :
  Regex.search "hex:" (repeat (Regex.One Regex.hexdigit) 8) output = None ->
  forall h, ~ occurs_hex output h.
Proof.
  intros Hs h (pre & post & -> & Hl & Ha).
  rewrite search_none in Hs.
  specialize (Hs pre ("hex:" ++ h ++ post) eq_refl).
  assert (Hsome : Regex.match_here "hex:" (repeat (Regex.One Regex.hexdigit) 8)
                    ("hex:" ++ h ++ post) = Some h).
  { apply match_here_hex. now exists post. }
  congruence.
Qed.

Lemma search_hex_some output m :
  Regex.search "hex:" (repeat (Regex.One Regex.hexdigit) 8) output = Some m ->
  occurs_hex output m.
Proof.
  intros Hs.
  destruct (search_some _ _ _ _ Hs) as (pre & rest & -> & Hh).
  apply match_here_hex in Hh. destruct Hh as (post & -> & Hl & Ha).
  now exists pre, post.
Qed.

(** C8.  When the cracker wrote [output] to its standard output,
    [lookupChecksum] looks for [hex:] followed by eight hexadecimal
    digits in it: without such an occurrence it rejects with the error
    "Activation Bytes where not found!"; with one it resolves and
    prints the digits of an occurrence. *)
Theorem lookupChecksum_not_found (E : Env) (checksum output : string) :
  rcrack E checksum = Resolved output ->
  ((forall h, ~ occurs_hex output h) ->
   result (lookupChecksum E checksum)
   = Rejected (JsError "Activation Bytes where not found!"))
  /\ (forall h, occurs_hex output h ->
      exists h', occurs_hex output h'
        /\ result (lookupChecksum E checksum) = Resolved tt
        /\ In (ConsoleLog ("Activation Bytes found: " ++ h'))
              (trace (lookupChecksum E checksum))).
Proof.
  intros Hrc. unfold lookupChecksum. rewrite Hrc. run_chain.
  destruct (Regex.search "hex:" (repeat (Regex.One Regex.hexdigit) 8) output)
    as [m|] eqn:Hs; run_chain.
  - pose proof (search_hex_some _ _ Hs) as Hm.
    split.
    + intros Hno. now destruct (Hno m).
    + intros _ _. exists m. split; [exact Hm|]. split; [reflexivity|].
      cbn. tauto.
  - split; [reflexivity|].
    intros h Hh. now destruct (search_hex_none _ Hs h).
Qed.

Lemma lookupChecksum_not_found_witness :
  rcrack Sample.cracker_failed "9d0a8a7b5a0c6e1f2b3c" = Resolved Sample.not_in_tables
  /\ result (lookupChecksum Sample.cracker_failed "9d0a8a7b5a0c6e1f2b3c")
     = Rejected (JsError "Activation Bytes where not found!").
Proof.
  split; [reflexivity|].
  apply (lookupChecksum_not_found Sample.cracker_failed
           "9d0a8a7b5a0c6e1f2b3c" Sample.not_in_tables).
  - reflexivity.
  - apply search_hex_none. vm_compute. reflexivity.
Defined.

Example lookupChecksum_found :
  result (lookupChecksum
            (Sample.env "linux" Sample.no_options [] Sample.no_file
                        Sample.all_good [] "plaintext of 9d0a is  hex:1cEb00dA99")
            "9d0a8a7b5a0c6e1f2b3c") = Resolved tt
  /\ In (ConsoleLog "Activation Bytes found: 1cEb00dA")
        (trace (lookupChecksum
            (Sample.env "linux" Sample.no_options [] Sample.no_file
                        Sample.all_good [] "plaintext of 9d0a is  hex:1cEb00dA99")
            "9d0a8a7b5a0c6e1f2b3c")).
Proof. split; [reflexivity|]. cbn. tauto. Qed.


(** ** The license parser *)

(** C3 (as amended).  On the license text
    [cust_id=AAA&product_id=BBB&codec=C1&title=My+Book] the four
    patterns capture [AAA], [BBB], [C1] and [My+Book], each ending at
    the [&] that follows it or at the end of the text;
    [extractDownloadURL] builds the download address from the first
    three and returns the title as it stands in the file, [My+Book]. *)
Theorem extractDownloadURL_license (E : Env) (adhFile : string) :
  readFile E adhFile = Resolved Sample.license_text ->
  Regex.search "cust_id=" [Regex.Plus Regex.word_dash; Regex.One Regex.not_amp]
               Sample.license_text = Some "AAA"
  /\ Regex.search "product_id=" [Regex.Plus Regex.word_dash; Regex.One Regex.not_amp]
                  Sample.license_text = Some "BBB"
  /\ Regex.search "codec=" [Regex.Plus Regex.word_dash; Regex.One Regex.not_amp]
                  Sample.license_text = Some "C1"
  /\ Regex.search "title=" [Regex.Plus Regex.not_amp]
                  Sample.license_text = Some "My+Book"
  /\ extractDownloadURL E adhFile
     = ([ReadFile adhFile],
        Resolved {| url := "https://cds.audible.de/download?product_id=BBB&cust_id=AAA&codec=C1";
                    dl_title := "My+Book" |}).
Proof.
  intros Hread.
  repeat split; try reflexivity.
  unfold extractDownloadURL. rewrite Hread. reflexivity.
Qed.

(** The title pattern of the second revision stops after the first
    character that is neither a word character, white space nor a
    dash; the other fields are the same. *)
Example Rev2_extractDownloadURL_license :
  Rev2.extractDownloadURL Sample.license "book.adh"
  = ([ReadFile "book.adh"],
     Resolved {| url := "https://cds.audible.de/download?product_id=BBB&cust_id=AAA&codec=C1";
                 dl_title := "My+" |}).
Proof. reflexivity. Qed.

Lemma extractDownloadURL_license_witness :
  readFile Sample.license "book.adh" = Resolved Sample.license_text
  /\ extractDownloadURL Sample.license "book.adh"
     = ([ReadFile "book.adh"],
        Resolved {| url := "https://cds.audible.de/download?product_id=BBB&cust_id=AAA&codec=C1";
                    dl_title := "My+Book" |}).
Proof.
  split; [reflexivity|].
  apply (extractDownloadURL_license Sample.license "book.adh"). reflexivity.
Defined.

(** C3 as stated fails: the title that comes out of the license text is
    not [My Book], in either revision. *)
Lemma extractDownloadURL_title_not_decoded :
  result (extractDownloadURL Sample.license "book.adh")
  <> Resolved {| url := "https://cds.audible.de/download?product_id=BBB&cust_id=AAA&codec=C1";
                 dl_title := "My Book" |}
  /\ result (Rev2.extractDownloadURL Sample.license "book.adh")
     <> Resolved {| url := "https://cds.audible.de/download?product_id=BBB&cust_id=AAA&codec=C1";
                    dl_title := "My Book" |}.
Proof. split; vm_compute; discriminate. Qed.

(** A license text without a [codec=] field: [null.pop()] throws, the
    promise rejects. *)
Example extractDownloadURL_missing_field :
  result (extractDownloadURL
            (Sample.env "linux" Sample.no_options [] Sample.no_file
                        Sample.all_good [] "cust_id=AAA&product_id=BBB&title=T")
            "book.adh") = Rejected TypeError_pop.
Proof. reflexivity. Qed.

(** ** The resolver *)

Section Resolver.

Variable E : Env.

Lemma given_some o : given o = true -> exists s, o = Some s /\ s <> "".
Proof.
  destruct o as [s|]; cbn; [|discriminate].
  intros H. exists s. split; [reflexivity|].
  intros ->. discriminate.
Qed.

(** The latest revision returns an explicit secret at once. *)
Lemma fetchActivationBytes_explicit secret :
  activationBytes (program E) = Some secret ->
  secret <> "" ->
  fetchActivationBytes E = resolve (VStr secret).
Proof.
  intros Ha Hne. unfold fetchActivationBytes. rewrite Ha. cbn.
  destruct (String.eqb_spec secret ""); [contradiction|].
  cbn. now rewrite orb_true_r.
Qed.

Lemma enumerated_not_sentinel devices :
  result (fetchActivationBytesFromDevices E) = Resolved devices ->
  forall d, In d devices -> Js.toUpperCase d <> "FFFFFFFF".
Proof.
  unfold fetchActivationBytesFromDevices.
  destruct (regeditList E) as [regedit|]; [|discriminate].
  run_chain. destruct (regedit AudibleDevicesKey) as [values|r]; [|discriminate].
  run_chain.
  destruct (Nat.ltb 0 _); [|discriminate].
  cbn. intros H. injection H as <-.
  intros d Hd. apply filter_In in Hd. destruct Hd as [_ Hd].
  apply negb_true_iff in Hd. now apply String.eqb_neq in Hd.
Qed.

Lemma array_get_string devices key d :
  array_get E devices key = VStr d -> In d devices.
Proof.
  unfold array_get.
  destruct (array_index _) as [i|].
  - destruct (nth_error devices i) eqn:Hn; [|discriminate].
    intros H. injection H as <-. eapply nth_error_In; eauto.
  - destruct (_ =? "length"); [discriminate|].
    destruct (array_inherited E _); discriminate.
Qed.

(** What [pick] can resolve with: the explicit secret, an enumerated
    device, the empty string, or a non-string member of the array. *)
Lemma pick_string devices s :
  result (pick E devices) = Resolved (VStr s) ->
  activationBytes (program E) = Some s \/ In s devices \/ s = "".
Proof.
  unfold pick.
  destruct (given (device (program E)) && _); [discriminate|].
  cbn. destruct (truthy (array_get E devices (device (program E)))).
  - intros H. injection H as H. right. left. eapply array_get_string; eauto.
  - destruct (given (activationBytes (program E))) eqn:Hg.
    + destruct (activationBytes (program E)); [|discriminate].
      cbn. intros H. injection H as <-. now left.
    + destruct devices as [|d devices]; cbn.
      * intros H. injection H as <-. now right; right.
      * destruct (negb (d =? "")); intros H; injection H as <-.
        -- right. left. now left.
        -- now right; right.
Qed.

Lemma enumeration regedit values :
  regeditList E = Some regedit ->
  regedit AudibleDevicesKey = Resolved values ->
  result (fetchActivationBytesFromDevices E)
  = match filter (fun n => negb (n =? "FFFFFFFF")) (map extractBytes values) with
    | [] => Rejected (JsError "Could not find any Audible Activation Bytes!")
    | d :: l => Resolved (d :: l)
    end.
Proof.
  intros Hr Hv. unfold fetchActivationBytesFromDevices. rewrite Hr.
  run_chain. rewrite Hv. run_chain.
  assert (Hf : filter (fun n => negb (Js.toUpperCase n =? "FFFFFFFF"))
                      (map extractBytes values)
               = filter (fun n => negb (n =? "FFFFFFFF")) (map extractBytes values)).
  { apply filter_ext_in. intros n Hn. apply in_map_iff in Hn.
    destruct Hn as (v & <- & _). unfold extractBytes.
    now rewrite bytesToHex_upper_any. }
  rewrite Hf.
  destruct (filter (fun n => negb (n =? "FFFFFFFF")) (map extractBytes values));
    reflexivity.
Qed.

End Resolver.

(** C4: the first revision at its failing input.  On Windows, with the
    explicit secret [CAFEBABE], device number 1 requested and two
    registered devices, [fetchActivationBytes] of the first revision
    resolves with the secret of device 1, not with the explicit one;
    the latest revision resolves with the explicit secret. *)
Theorem Rev1_explicit_secret_overridden :
  Rev1.fetchActivationBytes Sample.secret_and_device
  = ([Registry AudibleDevicesKey], Resolved (VStr "12345678"))
  /\ activationBytes (program Sample.secret_and_device) = Some "CAFEBABE"
  /\ result (fetchActivationBytesFromDevices Sample.secret_and_device)
     = Resolved ["1CEB00DA"; "12345678"]
  /\ fetchActivationBytes Sample.secret_and_device = resolve (VStr "CAFEBABE").
Proof. repeat split. Qed.

(** C4 on the latest revision: whatever the platform, the registry and
    the requested device, an explicit secret is what the resolver
    returns, and no other source is consulted. *)
Lemma explicit_secret_wins (E : Env) (secret : string) :
  activationBytes (program E) = Some secret ->
  secret <> "" ->
  result (fetchActivationBytes E) = Resolved (VStr secret)
  /\ trace (fetchActivationBytes E) = [].
Proof.
  intros Ha Hne. now rewrite (fetchActivationBytes_explicit E secret Ha Hne).
Qed.

(** C6 (as amended).  The enumerated device list is the rendering of
    the registry values without the entries equal to [FFFFFFFF]; no
    enumerated device is [FFFFFFFF], in either case of the letters; and
    the resolver, in the latest and in the first revision, resolves
    with such a value only when it is the explicit secret the user
    gave. *)
Theorem sentinel_discarded (E : Env) :
  (forall regedit values,
      regeditList E = Some regedit ->
      regedit AudibleDevicesKey = Resolved values ->
      let kept := filter (fun n => negb (n =? "FFFFFFFF")) (map extractBytes values) in
      ~ In "FFFFFFFF" kept
      /\ result (fetchActivationBytesFromDevices E)
         = match kept with
           | [] => Rejected (JsError "Could not find any Audible Activation Bytes!")
           | d :: l => Resolved (d :: l)
           end)
  /\ (forall devices,
         result (fetchActivationBytesFromDevices E) = Resolved devices ->
         forall d, In d devices -> Js.toUpperCase d <> "FFFFFFFF")
  /\ (forall s,
         result (fetchActivationBytes E) = Resolved (VStr s) ->
         Js.toUpperCase s = "FFFFFFFF" ->
         activationBytes (program E) = Some s)
  /\ (forall s,
         result (Rev1.fetchActivationBytes E) = Resolved (VStr s) ->
         Js.toUpperCase s = "FFFFFFFF" ->
         activationBytes (program E) = Some s).
Proof.
  assert (Hpick : forall devices s,
             result (fetchActivationBytesFromDevices E) = Resolved devices ->
             result (pick E devices) = Resolved (VStr s) ->
             Js.toUpperCase s = "FFFFFFFF" ->
             activationBytes (program E) = Some s).
  { intros devices s Hd Hp Hs.
    destruct (pick_string E devices _ Hp) as [H|[H|H]]; auto.
    - exfalso. now apply (enumerated_not_sentinel E devices Hd _ H).
    - subst s. discriminate. }
  assert (Hthen : forall s,
             result (devices <- fetchActivationBytesFromDevices E ;; pick E devices)
             = Resolved (VStr s) ->
             Js.toUpperCase s = "FFFFFFFF" ->
             activationBytes (program E) = Some s).
  { intros s. rewrite result_then.
    destruct (result (fetchActivationBytesFromDevices E)) as [devices|r] eqn:Hd;
      [|discriminate].
    now apply Hpick. }
  split; [|split; [|split]].
  - intros regedit values Hr Hv kept. split.
    + intros Hin. apply filter_In in Hin. destruct Hin as [_ Hin]. discriminate.
    + now apply (enumeration E regedit values).
  - intros devices Hd d Hin.
    now apply (enumerated_not_sentinel E devices Hd).
  - intros s. unfold fetchActivationBytes.
    destruct (negb (platform E =? "win32") || given (activationBytes (program E))).
    + cbn. destruct (activationBytes (program E)); cbn; congruence.
    + apply Hthen.
  - intros s. unfold Rev1.fetchActivationBytes.
    destruct (negb (platform E =? "win32")).
    + cbn. destruct (activationBytes (program E)); cbn; congruence.
    + apply Hthen.
Qed.

Lemma sentinel_discarded_witness :
  result (fetchActivationBytesFromDevices Sample.sentinel_in_registry)
  = Resolved ["12345678"]
  /\ ~ In "FFFFFFFF" ["12345678"]
  /\ result (fetchActivationBytes Sample.sentinel_in_registry)
     = Resolved (VStr "12345678").
Proof.
  pose proof (sentinel_discarded Sample.sentinel_in_registry) as (H1 & _).
  destruct (H1 (fun _ => Resolved Sample.with_sentinel) Sample.with_sentinel
               eq_refl eq_refl) as [Ha Hb].
  split; [exact Hb|]. split; [exact Ha|reflexivity].
Defined.

(** C6 as stated fails: with [-a FFFFFFFF] on the command line the
    resolver resolves with the sentinel, and the decoder is started
    with it, while the registry holds a sentinel entry. *)
Lemma sentinel_returned_when_given :
  In [255; 255; 255; 255]%N Sample.with_sentinel
  /\ result (fetchActivationBytes Sample.sentinel_given)
     = Resolved (VStr "FFFFFFFF")
  /\ In (Run (DecodeJob "book.aax" "./Author - Book [2016].m4a" (VStr "FFFFFFFF")))
        (trace (converter Sample.sentinel_given "book.aax")).
Proof.
  split; [now left|]. split; [reflexivity|].
  vm_compute. tauto.
Qed.

(** C7 (as amended).  On Windows, when no explicit secret was given,
    the registry was enumerated, and the requested device number is
    not below the number of enumerated devices, [fetchActivationBytes]
    rejects with the error "Device Nr. <number> not found! ..." that
    names the requested number. *)
Theorem device_not_found (E : Env) (devices : list string) (k : string) (i : nat) :
  platform E = "win32" ->
  given (activationBytes (program E)) = false ->
  result (fetchActivationBytesFromDevices E) = Resolved devices ->
  device (program E) = Some k ->
  array_index k = Some i ->
  List.length devices <= i ->
  result (fetchActivationBytes E)
  = Rejected (JsError ("Device Nr. " ++ k
                       ++ " not found! Please use the 'list' command to get your devices.")).
Proof.
  intros Hp Ha Hd Hk Hi Hlen.
  unfold fetchActivationBytes. rewrite Hp, Ha.
  change (negb ("win32" =? "win32") || false) with false. cbv iota.
  destruct (fetchActivationBytesFromDevices E) as [tr o]. cbn in Hd. subst o.
  run_chain.
  assert (Hget : array_get E devices (Some k) = VUndefined).
  { unfold array_get. rewrite Hi.
    assert (Hn : nth_error devices i = None) by (apply nth_error_None; lia).
    now rewrite Hn. }
  assert (Hgiven : given (Some k) = true).
  { cbn. destruct (String.eqb_spec k ""); [|reflexivity].
    subst k. discriminate. }
  unfold pick. rewrite Hk, Hget, Hgiven. reflexivity.
Qed.

Lemma device_not_found_witness :
  result (fetchActivationBytes Sample.absent_device)
  = Rejected (JsError "Device Nr. 7 not found! Please use the 'list' command to get your devices.").
Proof.
  apply (device_not_found Sample.absent_device ["1CEB00DA"; "12345678"] "7" 7);
    try reflexivity.
  simpl. lia.
Defined.

(** C7 as stated fails: device number 7 is requested and absent from
    the two enumerated devices, yet with an explicit secret on the
    command line the resolver resolves with that secret. *)
Lemma absent_device_ignored_with_secret :
  device (program Sample.secret_and_absent_device) = Some "7"
  /\ result (fetchActivationBytesFromDevices Sample.secret_and_absent_device)
     = Resolved ["1CEB00DA"; "12345678"]
  /\ array_get Sample.secret_and_absent_device ["1CEB00DA"; "12345678"] (Some "7")
     = VUndefined
  /\ fetchActivationBytes Sample.secret_and_absent_device
     = resolve (VStr "CAFEBABE").
Proof. repeat split. Qed.

(** ** Rounding to doubles *)

Section DoubleFacts.

Local Open Scope Z_scope.

Lemma exponent_lower n d :
  0 < n -> 0 < d ->
  (0 <= Double.exponent n d -> d * 2 ^ Double.exponent n d <= n)
  /\ (Double.exponent n d < 0 -> d <= n * 2 ^ (- Double.exponent n d)).
Proof.
  intros Hn Hd. unfold Double.exponent.
  destruct (Z.leb_spec d n) as [Hle|Hlt].
  - assert (Hq : 0 < n / d) by (apply Z.div_str_pos; lia).
    pose proof (Z.log2_spec (n / d) Hq) as [Hl _].
    pose proof (Z.log2_nonneg (n / d)) as H0.
    pose proof (Z.mul_div_le n d Hd) as Hm.
    split; [intros _; nia|intros; lia].
  - set (c := (d + n - 1) / n).
    assert (Hc : 1 < c).
    { assert (2 <= c) by (unfold c; apply Z.div_le_lower_bound; lia). lia. }
    pose proof (Z.log2_up_spec c Hc) as [_ Hu].
    pose proof (Z.log2_up_pos c Hc) as Hp.
    assert (Hnc : d <= n * c).
    { unfold c. pose proof (Z.mod_pos_bound (d + n - 1) n Hn) as Hb.
      pose proof (Z.div_mod (d + n - 1) n ltac:(lia)) as He. nia. }
    split; [intros; lia|intros _]. rewrite Z.opp_involutive. nia.
Qed.

Lemma nearest_lower a b : 0 <= a -> 0 < b -> a / b <= Double.nearest a b.
Proof.
  intros Ha Hb. unfold Double.nearest.
  destruct (2 * (a mod b) ?= b); [destruct (Z.even (a / b))| |]; lia.
Qed.

Lemma nearest_below a b M :
  0 <= a -> 0 < b -> 2 * a + b < 2 * b * M -> Double.nearest a b < M.
Proof.
  intros Ha Hb H. unfold Double.nearest.
  pose proof (Z.div_mod a b ltac:(lia)) as He.
  pose proof (Z.mod_pos_bound a b Hb) as Hr.
  destruct (Z.compare_spec (2 * (a mod b)) b) as [Hc|Hc|Hc];
    [destruct (Z.even (a / b))| |]; nia.
Qed.

Lemma nearest_multiple k b : 0 < b -> Double.nearest (k * b) b = k.
Proof.
  intros Hb. unfold Double.nearest.
  rewrite Z.div_mul, Z.mod_mul by lia.
  destruct (Z.compare_spec (2 * 0) b); lia.
Qed.

Lemma to_pos_pow2 s : 0 <= s -> Z.pos (Z.to_pos (2 ^ s)) = 2 ^ s.
Proof. intros Hs. apply Z2Pos.id. apply Z.pow_pos_nonneg; lia. Qed.

(** Below 2^53 the exponent is at most 52 and the unit in the last
    place at most 1. *)
Lemma exponent_small n d :
  0 < n < 2 ^ 53 -> 0 < d ->
  let s := 52 - Z.max (Double.exponent n d) (-1022) in
  0 <= s /\ (Double.exponent n d = Z.max (Double.exponent n d) (-1022) -> d < 2 ^ (s + 1)).
Proof.
  intros [Hn Hb] Hd s.
  destruct (exponent_lower n d Hn Hd) as [H1 H2].
  assert (He : Double.exponent n d <= 52).
  { destruct (Z.le_gt_cases (Double.exponent n d) 52) as [|Hgt]; [assumption|].
    exfalso. specialize (H1 ltac:(lia)).
    assert (2 ^ 53 <= 2 ^ Double.exponent n d) by (apply Z.pow_le_mono_r; lia).
    nia. }
  split; [unfold s; lia|].
  intros Hmax. unfold s. rewrite <- Hmax.
  replace (52 - Double.exponent n d + 1) with (53 - Double.exponent n d) by lia.
  destruct (Z.le_gt_cases 0 (Double.exponent n d)) as [Hpos|Hneg].
  - specialize (H1 Hpos).
    assert (Hp : 2 ^ 53 = 2 ^ Double.exponent n d * 2 ^ (53 - Double.exponent n d)).
    { rewrite <- Z.pow_add_r by lia. f_equal; lia. }
    assert (0 < 2 ^ Double.exponent n d) by (apply Z.pow_pos_nonneg; lia).
    assert (0 < 2 ^ (53 - Double.exponent n d)) by (apply Z.pow_pos_nonneg; lia).
    nia.
  - specialize (H2 Hneg).
    assert (Hp : 2 ^ (53 - Double.exponent n d) = 2 ^ 53 * 2 ^ (- Double.exponent n d)).
    { rewrite <- Z.pow_add_r by lia. f_equal; lia. }
    assert (0 < 2 ^ (- Double.exponent n d)) by (apply Z.pow_pos_nonneg; lia).
    nia.
Qed.

(** The heart of the matter: rounding [n / d] with [n] below 2^53 never
    reaches the next integer. *)
Lemma round_pos_floor n d :
  0 < n < 2 ^ 53 -> 0 < d ->
  exists r, Double.round_pos n d = Some r /\ Qfloor r = n / d.
Proof.
  intros Hn Hd.
  destruct (exponent_small n d Hn Hd) as [Hs Hsmall]. cbv zeta in Hs, Hsmall.
  unfold Double.round_pos.
  set (e := Z.max (Double.exponent n d) (-1022)) in *.
  set (s := 52 - e) in *. cbv zeta.
  destruct (Z.leb_spec 0 s) as [_|]; [|lia].
  set (m := Double.nearest (n * 2 ^ s) d).
  assert (Hpow : 0 < 2 ^ s) by (apply Z.pow_pos_nonneg; lia).
  set (k := n / d).
  assert (Hk : d * k <= n < d * (k + 1)).
  { unfold k. pose proof (Z.div_mod n d ltac:(lia)).
    pose proof (Z.mod_pos_bound n d Hd). nia. }
  assert (Hk0 : 0 <= k) by (unfold k; apply Z.div_pos; lia).
  assert (Hlow : k * 2 ^ s <= m).
  { unfold m. etransitivity; [|apply nearest_lower; nia].
    apply Z.div_le_lower_bound; nia. }
  assert (Hup : m < (k + 1) * 2 ^ s).
  { unfold m. apply nearest_below; [nia|lia|].
    assert (Hgap : 1 <= d * (k + 1) - n) by lia.
    assert (Hd2 : d < 2 * 2 ^ s * (d * (k + 1) - n)).
    { destruct (Z.eq_dec (Double.exponent n d) e) as [Heq|Hne].
      - specialize (Hsmall Heq). rewrite Z.pow_add_r in Hsmall by lia.
        change (2 ^ 1) with 2 in Hsmall. nia.
      - (* the exponent is below -1022 *)
        assert (He : e = -1022) by (unfold e in *; lia).
        assert (Hex : Double.exponent n d < -1022) by (unfold e in *; lia).
        destruct (exponent_lower n d (proj1 Hn) Hd) as [_ H2].
        assert (Hup' : n * 2 ^ (- Double.exponent n d) < d * 2).
        { unfold Double.exponent in *.
          destruct (Z.leb_spec d n) as [Hle|Hlt].
          - pose proof (Z.log2_nonneg (n / d)). lia.
          - set (c := (d + n - 1) / n) in *.
            assert (Hc : 1 < c).
            { assert (2 <= c) by (unfold c; apply Z.div_le_lower_bound; lia). lia. }
            pose proof (Z.log2_up_spec c Hc) as [Hl _].
            rewrite Z.opp_involutive.
            assert (Hcd : n * c < d + n).
            { unfold c. pose proof (Z.mul_div_le (d + n - 1) n (proj1 Hn)). lia. }
            assert (Hpp : 2 ^ Z.log2_up c = 2 * 2 ^ Z.pred (Z.log2_up c)).
            { rewrite <- Z.pow_succ_r; [f_equal; lia|].
              pose proof (Z.log2_up_pos c Hc). lia. }
            nia. }
        assert (H4 : 4 <= 2 ^ (- Double.exponent n d)).
        { change 4 with (2 ^ 2). apply Z.pow_le_mono_r; lia. }
        assert (Hkz : k = 0).
        { unfold k. apply Z.div_small. nia. }
        rewrite Hkz. nia. }
    nia. }
  assert (Hr : Qfloor (Qred (m # Z.to_pos (2 ^ s))) = k).
  { rewrite (Qfloor_comp _ _ (Qred_correct _)). unfold Qfloor.
    rewrite to_pos_pow2 by lia. symmetry. apply Z.div_unique with (r := m - k * 2 ^ s); nia. }
  assert (Hof : Qle_bool (inject_Z (2 ^ 1024)) (m # Z.to_pos (2 ^ s)) = false).
  { apply not_true_iff_false. intros Hq. apply Qle_bool_imp_le in Hq.
    unfold Qle in Hq. cbn [Qnum Qden inject_Z] in Hq.
    rewrite to_pos_pow2 in Hq by lia.
    assert (k + 1 <= 2 ^ 53).
    { assert (k <= n) by (unfold k; apply Z.div_le_upper_bound; nia). lia. }
    assert (2 ^ 53 < 2 ^ 1024) by (apply Z.pow_lt_mono_r; lia).
    nia. }
  rewrite Hof. eexists. split; [reflexivity|exact Hr].
Qed.

Lemma Qred_inject_Z z : Qred (inject_Z z) = inject_Z z.
Proof.
  unfold Qred, inject_Z.
  pose proof (Z.ggcd_correct_divisors z 1) as Hd.
  pose proof (Z.ggcd_gcd z 1) as Hg. rewrite Z.gcd_1_r in Hg.
  destruct (Z.ggcd z 1) as [g [aa bb]]. cbn [fst snd] in *. subst g.
  destruct Hd as [Hn Hb].
  replace aa with z by lia. replace bb with 1 by lia. reflexivity.
Qed.

Lemma round_pos_int n :
  0 < n < 2 ^ 53 -> Double.round_pos n 1 = Some (inject_Z n).
Proof.
  intros Hn.
  destruct (exponent_small n 1 Hn ltac:(lia)) as [Hs _]. cbv zeta in Hs.
  unfold Double.round_pos.
  set (e := Z.max (Double.exponent n 1) (-1022)) in *.
  set (s := 52 - e) in *. cbv zeta.
  destruct (Z.leb_spec 0 s) as [_|]; [|lia].
  assert (Hpow : 0 < 2 ^ s) by (apply Z.pow_pos_nonneg; lia).
  assert (Hnear : Double.nearest (n * 2 ^ s) 1 = n * 2 ^ s).
  { unfold Double.nearest. now rewrite Z.div_1_r, Z.mod_1_r. }
  rewrite Hnear.
  assert (Heq : (n * 2 ^ s # Z.to_pos (2 ^ s) == inject_Z n)%Q).
  { unfold Qeq. cbn [Qnum Qden inject_Z]. rewrite to_pos_pow2 by lia. lia. }
  assert (Hof : Qle_bool (inject_Z (2 ^ 1024)) (n * 2 ^ s # Z.to_pos (2 ^ s)) = false).
  { apply not_true_iff_false. intros Hq. apply Qle_bool_imp_le in Hq.
    rewrite Heq in Hq. rewrite <- Zle_Qle in Hq.
    assert (2 ^ 53 < 2 ^ 1024) by (apply Z.pow_lt_mono_r; lia). lia. }
  rewrite Hof. f_equal.
  rewrite (Qred_complete _ _ Heq). apply Qred_inject_Z.
Qed.

Lemma round_comp (q q' : Q) : (q == q')%Q -> Double.round q = Double.round q'.
Proof. intros H. unfold Double.round. now rewrite (Qred_complete _ _ H). Qed.

Lemma round_int z : 0 <= z < 2 ^ 53 -> Double.round (inject_Z z) = Some (inject_Z z).
Proof.
  intros Hz. unfold Double.round.
  rewrite Qred_inject_Z. cbn [Qnum Qden inject_Z].
  destruct z as [|p|p]; [reflexivity| |lia].
  apply round_pos_int; lia.
Qed.

Lemma round_eq (q : Q) z :
  (q == inject_Z z)%Q -> 0 <= z < 2 ^ 53 -> Double.round q = Some (inject_Z z).
Proof. intros Hq Hz. rewrite (round_comp _ _ Hq). now apply round_int. Qed.

Lemma Qred_parts (q : Q) :
  exists g, 0 < g /\ Qnum q = g * Qnum (Qred q) /\ QDen q = g * QDen (Qred q).
Proof.
  destruct q as [n d]. unfold Qred.
  pose proof (Z.ggcd_correct_divisors n (Z.pos d)) as Hd.
  pose proof (Z.ggcd_gcd n (Z.pos d)) as Hg.
  destruct (Z.ggcd n (Z.pos d)) as [g [aa bb]]. cbn [fst snd] in *.
  destruct Hd as [Hn Hdd].
  assert (Hgp : 0 < g).
  { rewrite Hg. pose proof (Z.gcd_nonneg n (Z.pos d)).
    destruct (Z.eq_dec (Z.gcd n (Z.pos d)) 0) as [H0|]; [|lia].
    apply Z.gcd_eq_0_r in H0. lia. }
  exists g. cbn [Qnum Qden]. split; [exact Hgp|]. split; [exact Hn|].
  rewrite Z2Pos.id; [exact Hdd|]. nia.
Qed.

Lemma round_floor (q : Q) (N : Z) (D : positive) :
  (q == N # D)%Q -> 0 <= N < 2 ^ 53 ->
  exists r, Double.round q = Some r /\ Qfloor r = N / Z.pos D.
Proof.
  intros Hq HN. rewrite (round_comp _ _ Hq).
  destruct (Qred_parts (N # D)) as (g & Hg & Hn & Hd). cbn [Qnum Qden] in Hn, Hd.
  assert (Hfl : Qfloor (Qred (N # D)) = N / Z.pos D).
  { now rewrite (Qfloor_comp _ _ (Qred_correct _)). }
  unfold Double.round.
  destruct (Qnum (Qred (N # D))) as [|p|p] eqn:Hp.
  - exists 0%Q. split; [reflexivity|].
    assert (HN0 : N = 0) by lia. rewrite HN0. reflexivity.
  - destruct (round_pos_floor (Z.pos p) (QDen (Qred (N # D)))) as (r & Hr & Hf).
    + nia.
    + reflexivity.
    + exists r. split; [exact Hr|]. rewrite Hf, <- Hfl. unfold Qfloor.
      destruct (Qred (N # D)) as [a b]. cbn [Qnum Qden] in *. now subst a.
  - nia.
Qed.

End DoubleFacts.

(** ** Progress: reading a timemark *)

Section Timemark.

Local Abbreviation str := DecimalString.NilEmpty.string_of_uint.

Lemma all_app p a b : all p (a ++ b) = all p a && all p b.
Proof. induction a; cbn; [reflexivity|]. now rewrite IHa, andb_assoc. Qed.

Lemma all_impl (p q : ascii -> bool) s :
  (forall c, p c = true -> q c = true) -> all p s = true -> all q s = true.
Proof.
  intros Hpq. induction s as [|c s IH]; cbn; [reflexivity|].
  intros H. apply andb_true_iff in H. destruct H as [Hc Hs].
  now rewrite (Hpq c Hc), IH.
Qed.

Lemma str_digits d : all Js.is_digit (str d) = true.
Proof. induction d; cbn; auto. Qed.

Lemma str_length d : String.length (str d) = Decimal.nb_digits d.
Proof. induction d; cbn; auto. Qed.

Lemma str_nonempty d : d <> Decimal.Nil -> exists c s, str d = String c s /\ Js.is_digit c = true.
Proof. destruct d; intros H; try contradiction; cbn; eauto. Qed.

Lemma digit_not_colon c : Js.is_digit c = true -> negb (Ascii.eqb c ":") = true.
Proof. destruct c as [[] [] [] [] [] [] [] []]; vm_compute; congruence. Qed.

Lemma digit_not_dot c : Js.is_digit c = true -> negb (Ascii.eqb c ".") = true.
Proof. destruct c as [[] [] [] [] [] [] [] []]; vm_compute; congruence. Qed.

Lemma digit_plain c : Js.is_digit c = true -> plain c = true.
Proof. unfold plain. now intros ->. Qed.

Lemma plain_not_colon c : plain c = true -> negb (Ascii.eqb c ":") = true.
Proof. destruct c as [[] [] [] [] [] [] [] []]; vm_compute; congruence. Qed.

Lemma plain_not_space c : plain c = true -> negb (Regex.space c) = true.
Proof. destruct c as [[] [] [] [] [] [] [] []]; vm_compute; congruence. Qed.

Lemma split_whole sep s :
  all (fun c => negb (Ascii.eqb c sep)) s = true -> Num.split sep s = [s].
Proof.
  induction s as [|c s IH]; cbn; [reflexivity|].
  intros H. apply andb_true_iff in H. destruct H as [Hc Hs].
  apply negb_true_iff in Hc. now rewrite Hc, IH.
Qed.

Lemma split_app sep a rest :
  all (fun c => negb (Ascii.eqb c sep)) a = true ->
  Num.split sep (a ++ String sep rest) = a :: Num.split sep rest.
Proof.
  induction a as [|c a IH]; cbn.
  - intros _. now rewrite Ascii.eqb_refl.
  - intros H. apply andb_true_iff in H. destruct H as [Hc Hs].
    apply negb_true_iff in Hc. now rewrite Hc, IH.
Qed.

Lemma rtrim_id s : all (fun c => negb (Regex.space c)) s = true -> Num.rtrim s = s.
Proof.
  induction s as [|c s IH]; cbn; [reflexivity|].
  intros H. apply andb_true_iff in H. destruct H as [Hc Hs].
  rewrite (IH Hs). apply negb_true_iff in Hc. rewrite Hc. now destruct s.
Qed.

Lemma trim_id s : all (fun c => negb (Regex.space c)) s = true -> Num.trim s = s.
Proof.
  intros H. unfold Num.trim.
  assert (Hl : Num.ltrim s = s).
  { destruct s as [|c s]; [reflexivity|]. cbn in *.
    apply andb_true_iff in H. destruct H as [Hc _].
    apply negb_true_iff in Hc. now rewrite Hc. }
  rewrite Hl. now apply rtrim_id.
Qed.

Lemma plain_not_exponent c :
  plain c = true -> Ascii.eqb c "e" || Ascii.eqb c "E" = false.
Proof. destruct c as [[] [] [] [] [] [] [] []]; vm_compute; congruence. Qed.

Lemma plain_not_radix c :
  plain c = true ->
  Ascii.eqb c "x" || Ascii.eqb c "X" = false
  /\ Ascii.eqb c "o" || Ascii.eqb c "O" = false
  /\ Ascii.eqb c "b" || Ascii.eqb c "B" = false.
Proof. destruct c as [[] [] [] [] [] [] [] []]; vm_compute; intuition congruence. Qed.

Lemma exponent_part_plain s :
  all plain s = true -> Num.exponent_part s = (s, None).
Proof.
  induction s as [|c s IH]; cbn; [reflexivity|].
  intros H. apply andb_true_iff in H. destruct H as [Hc Hs].
  now rewrite (plain_not_exponent c Hc), (IH Hs).
Qed.

Lemma literal_plain s : all plain s = true -> Num.literal s = Num.unsigned s.
Proof. intros H. unfold Num.literal. now rewrite (exponent_part_plain s H). Qed.

Lemma radix_literal_plain c s :
  all plain s = true -> Num.radix_literal (String c s) = None.
Proof.
  intros Hs. unfold Num.radix_literal.
  destruct (Ascii.eqb_spec c "0") as [->|Hc].
  - destruct s as [|c' s]; [reflexivity|].
    cbn in Hs. apply andb_true_iff in Hs. destruct Hs as [Hc' _].
    destruct (plain_not_radix c' Hc') as (-> & -> & ->). reflexivity.
  - destruct c as [[] [] [] [] [] [] [] []]; try reflexivity. now elim Hc.
Qed.

(** Text that starts with a digit and holds digits and dots only is
    read as an unsigned decimal, rounded. *)
Lemma toNumber_plain c s :
  Js.is_digit c = true -> all plain s = true ->
  Num.toNumber (String c s)
  = Double.bind (Num.unsigned (String c s)) Double.round.
Proof.
  intros Hc Hs. unfold Num.toNumber.
  rewrite trim_id.
  - rewrite (radix_literal_plain c s Hs).
    rewrite <- (literal_plain (String c s))
      by (cbn; now rewrite (digit_plain c Hc), Hs).
    destruct c as [[] [] [] [] [] [] [] []]; try discriminate; reflexivity.
  - cbn. rewrite (plain_not_space c (digit_plain c Hc)). cbn.
    apply (all_impl plain); [apply plain_not_space|exact Hs].
Qed.

Lemma digits_str d : Num.digits (str d) = Some (N.of_uint d).
Proof. unfold Num.digits. now rewrite DecimalString.NilEmpty.usu. Qed.

Lemma nonempty_eqb c s : (String c s =? "") = false.
Proof. reflexivity. Qed.

Lemma unsigned_int d :
  d <> Decimal.Nil ->
  Num.unsigned (str d) = Some (inject_Z (Z.of_N (N.of_uint d))).
Proof.
  intros Hd. unfold Num.unsigned.
  rewrite split_whole.
  - destruct (str_nonempty d Hd) as (c & s & Hs & _).
    rewrite digits_str. rewrite Hs. reflexivity.
  - apply (all_impl Js.is_digit); [apply digit_not_dot|apply str_digits].
Qed.

Lemma unsigned_frac d f :
  d <> Decimal.Nil ->
  Num.unsigned (str d ++ String "." (str f))
  = Some (inject_Z (Z.of_N (N.of_uint d))
          + inject_Z (Z.of_N (N.of_uint f))
            / inject_Z (10 ^ Z.of_nat (Decimal.nb_digits f)))%Q.
Proof.
  intros Hd. unfold Num.unsigned.
  rewrite split_app, split_whole.
  - destruct (str_nonempty d Hd) as (c & s & Hs & _).
    rewrite !digits_str, str_length. rewrite Hs. reflexivity.
  - apply (all_impl Js.is_digit); [apply digit_not_dot|apply str_digits].
  - apply (all_impl Js.is_digit); [apply digit_not_dot|apply str_digits].
Qed.

Lemma of_lu_bound l :
  (DecimalPos.Unsigned.of_lu l < 10 ^ N.of_nat (Decimal.nb_digits l))%N.
Proof.
  induction l; cbn [DecimalPos.Unsigned.of_lu Decimal.nb_digits];
    rewrite ?Nat2N.inj_succ, ?N.pow_succ_r'; cbn [N.of_nat N.pow]; lia.
Qed.

Lemma of_uint_bound d : (N.of_uint d < 10 ^ N.of_nat (Decimal.nb_digits d))%N.
Proof.
  unfold N.of_uint. rewrite DecimalPos.Unsigned.of_uint_alt.
  rewrite <- (DecimalFacts.nb_digits_rev d). apply of_lu_bound.
Qed.

Lemma number_bound d : (0 <= number d < 10 ^ Z.of_nat (Decimal.nb_digits d))%Z.
Proof.
  unfold number. pose proof (of_uint_bound d) as Hb.
  split; [lia|].
  apply N2Z.inj_lt in Hb. rewrite N2Z.inj_pow in Hb.
  now rewrite nat_N_Z in Hb.
Qed.

Lemma number_nonneg d : (0 <= number d)%Z.
Proof. unfold number. lia. Qed.

Lemma str_plain d : all plain (str d) = true.
Proof. apply (all_impl Js.is_digit); [apply digit_plain|apply str_digits]. Qed.

(** Digits that denote a number below 2^53 are read exactly. *)
Lemma toNumber_int d :
  d <> Decimal.Nil -> (number d < 2 ^ 53)%Z ->
  Num.toNumber (str d) = Some (inject_Z (number d)).
Proof.
  intros Hd Hb. destruct (str_nonempty d Hd) as (c & s & Hs & Hc).
  pose proof (str_plain d) as Hp. rewrite Hs in Hp. cbn in Hp.
  apply andb_true_iff in Hp. destruct Hp as [_ Hp].
  rewrite Hs, (toNumber_plain c s Hc Hp), <- Hs.
  rewrite (unsigned_int d Hd). cbn [Double.bind].
  apply round_int. pose proof (number_nonneg d). unfold number in *. lia.
Qed.

Lemma toNumber_frac d f :
  d <> Decimal.Nil ->
  Num.toNumber (str d ++ String "." (str f))
  = Double.round
      (inject_Z (number d)
       + inject_Z (number f) / inject_Z (10 ^ Z.of_nat (Decimal.nb_digits f)))%Q.
Proof.
  intros Hd. destruct (str_nonempty d Hd) as (c & s & Hs & Hc).
  assert (Hp : all plain (s ++ String "." (str f)) = true).
  { rewrite all_app. cbn. rewrite str_plain.
    pose proof (str_plain d) as Hp. rewrite Hs in Hp. cbn in Hp.
    apply andb_true_iff in Hp. destruct Hp as [_ Hp]. now rewrite Hp. }
  rewrite Hs. cbn [append].
  rewrite (toNumber_plain c _ Hc Hp).
  change (String c (s ++ String "." (str f))) with (String c s ++ String "." (str f)).
  rewrite <- Hs. now rewrite (unsigned_frac d f Hd).
Qed.

Lemma inject_Z_pos_neq0 z : (0 < z)%Z -> ~ (inject_Z z == 0)%Q.
Proof. intros Hz H. unfold Qeq in H. cbn in H. lia. Qed.

Lemma Qdiv_as_fraction (a b : Z) :
  (0 < b)%Z -> (inject_Z a / inject_Z b == a # Z.to_pos b)%Q.
Proof.
  intros Hb. destruct b as [|p|p]; try lia.
  unfold Qeq, Qdiv, Qmult, Qinv, inject_Z. cbn. lia.
Qed.

(** The seconds field: its rounding never reaches the next whole
    second as long as its digits, read as one integer, stay below
    2^53. *)
Lemma seconds_floor s f :
  s <> Decimal.Nil ->
  ((number s + 1) * 10 ^ fraction_digits f <= 2 ^ 53)%Z ->
  exists q, Num.toNumber (seconds_text s f) = Some q /\ Qfloor q = number s.
Proof.
  intros Hs Hb. pose proof (number_nonneg s) as H0.
  destruct f as [f|]; unfold seconds_text; cbn [fraction_digits] in Hb.
  - rewrite (toNumber_frac s f Hs).
    set (k := Z.of_nat (Decimal.nb_digits f)) in *.
    pose proof (number_bound f) as Hf. fold k in Hf.
    assert (Hk : (0 < 10 ^ k)%Z) by (apply Z.pow_pos_nonneg; lia).
    destruct (round_floor
                (inject_Z (number s) + inject_Z (number f) / inject_Z (10 ^ k))%Q
                (number s * 10 ^ k + number f) (Z.to_pos (10 ^ k)))
      as (q & Hq & Hfl).
    + rewrite <- Qdiv_as_fraction by exact Hk.
      rewrite inject_Z_plus, inject_Z_mult. field.
      now apply inject_Z_pos_neq0.
    + nia.
    + exists q. split; [exact Hq|]. rewrite Hfl, Z2Pos.id by exact Hk.
      rewrite Z.div_add_l by lia. rewrite Z.div_small by lia. lia.
  - rewrite append_empty_r, (toNumber_int s Hs) by lia.
    eexists. split; [reflexivity|]. apply Qfloor_Z.
Qed.

Lemma seconds_no_colon s f :
  all (fun c => negb (Ascii.eqb c ":")) (seconds_text s f) = true.
Proof.
  apply (all_impl plain); [apply plain_not_colon|].
  unfold seconds_text. rewrite all_app, str_plain.
  destruct f; cbn; [apply str_plain|reflexivity].
Qed.

(** The percentage of a timemark [H:MM:SS] whose numbers are small
    enough for the double arithmetic to be exact up to the last
    division, whose rounding cannot reach the next integer. *)
Lemma percent_of_hms h m s f total :
  h <> Decimal.Nil -> m <> Decimal.Nil -> s <> Decimal.Nil ->
  (0 < total)%Z ->
  ((number h * 3600 + number m * 60 + number s) * 100 < 2 ^ 53)%Z ->
  ((number s + 1) * 10 ^ fraction_digits f <= 2 ^ 53)%Z ->
  currentTimemarkToPercent (hms h m s f) total
  = Some ((number h * 3600 + number m * 60 + number s) * 100 / total)%Z.
Proof.
  intros Hh Hm Hs Ht Hb Hf.
  pose proof (number_nonneg h) as H0. pose proof (number_nonneg m) as M0.
  pose proof (number_nonneg s) as S0.
  unfold currentTimemarkToPercent, hms. cbn [append].
  rewrite split_app
    by (apply (all_impl Js.is_digit); [apply digit_not_colon|apply str_digits]).
  rewrite split_app
    by (apply (all_impl Js.is_digit); [apply digit_not_colon|apply str_digits]).
  rewrite split_whole by apply seconds_no_colon.
  cbn [nth_error Num.ofElement].
  rewrite (toNumber_int h Hh), (toNumber_int m Hm) by lia.
  destruct (seconds_floor s f Hs Hf) as (q & -> & Hq).
  destruct (Z.eqb_spec total 0) as [->|_]; [lia|].
  unfold Double.mul, Double.add, Double.div, Double.floor.
  rewrite (round_eq (inject_Z (number h) * 3600)%Q (number h * 3600))
    by (try lia; repeat (rewrite inject_Z_plus || rewrite inject_Z_mult); ring).
  cbn [Double.bind].
  rewrite (round_eq (inject_Z (number m) * 60)%Q (number m * 60))
    by (try lia; repeat (rewrite inject_Z_plus || rewrite inject_Z_mult); ring).
  cbn [Double.bind].
  rewrite (round_eq (inject_Z (number h * 3600) + inject_Z (number m * 60))%Q
                    (number h * 3600 + number m * 60))
    by (try lia; repeat (rewrite inject_Z_plus || rewrite inject_Z_mult); ring).
  cbn [Double.bind]. rewrite Hq.
  rewrite (round_eq (inject_Z (number h * 3600 + number m * 60)
                     + inject_Z (number s))%Q
                    (number h * 3600 + number m * 60 + number s))
    by (try lia; repeat (rewrite inject_Z_plus || rewrite inject_Z_mult); ring).
  cbn [Double.bind].
  rewrite (round_eq (inject_Z (number h * 3600 + number m * 60 + number s) * 100)%Q
                    ((number h * 3600 + number m * 60 + number s) * 100))
    by (try lia; repeat (rewrite inject_Z_plus || rewrite inject_Z_mult); ring).
  cbn [Double.bind].
  destruct (round_floor
              (inject_Z ((number h * 3600 + number m * 60 + number s) * 100)
               / inject_Z total)%Q
              ((number h * 3600 + number m * 60 + number s) * 100)
              (Z.to_pos total))
    as (r & Hr & Hfl).
  - now apply Qdiv_as_fraction.
  - lia.
  - rewrite Hr. cbn [Double.bind]. rewrite Hfl, Z2Pos.id by exact Ht. reflexivity.
Qed.

End Timemark.

(** C2 (as amended).  For a timemark [H:MM:SS], with or without a
    fraction after the seconds, and a positive total duration,
    [currentTimemarkToPercent] is
    [floor((H*3600 + MM*60 + floor(SS)) * 100 / total)], as long as the
    numbers stay in the range where the rounding of doubles cannot
    reach an integer: the elapsed seconds times 100 below 2^53, and
    the seconds field with its [k] fraction digits such that
    [(SS + 1) * 10^k] is at most 2^53.  For ["1:02:03"] and 3800
    seconds the percentage is 97. *)
Theorem currentTimemarkToPercent_hms :
  (forall (h m s : Decimal.uint) (f : option Decimal.uint) (total : Z),
      h <> Decimal.Nil -> m <> Decimal.Nil -> s <> Decimal.Nil ->
      (0 < total)%Z ->
      ((number h * 3600 + number m * 60 + number s) * 100 < 2 ^ 53)%Z ->
      ((number s + 1) * 10 ^ fraction_digits f <= 2 ^ 53)%Z ->
      currentTimemarkToPercent (hms h m s f) total
      = Some ((number h * 3600 + number m * 60 + number s) * 100 / total)%Z)
  /\ currentTimemarkToPercent "1:02:03" 3800 = Some 97%Z.
Proof.
  split; [|vm_compute; reflexivity].
  intros h m s f total Hh Hm Hs Ht Hb Hf.
  now apply percent_of_hms.
Qed.

Lemma currentTimemarkToPercent_hms_witness :
  currentTimemarkToPercent "0:31:40.50" 3800 = Some 50%Z.
Proof.
  apply (proj1 currentTimemarkToPercent_hms
           (Decimal.D0 Decimal.Nil)
           (Decimal.D3 (Decimal.D1 Decimal.Nil))
           (Decimal.D4 (Decimal.D0 Decimal.Nil))
           (Some (Decimal.D5 (Decimal.D0 Decimal.Nil)))
           3800%Z); try discriminate; try reflexivity.
Defined.

(** C2 as stated fails at its own example: ["1:02:03"] of 3800 seconds
    is 97 percent, not 98. *)
Lemma currentTimemarkToPercent_example_not_98 :
  currentTimemarkToPercent "1:02:03" 3800 <> Some 98%Z
  /\ ((1 * 3600 + 2 * 60 + 3) * 100 / 3800 = 97)%Z.
Proof. split; [vm_compute; discriminate|reflexivity]. Qed.

(** ** The batch *)

Section Batch.

Variable E : Env.

Lemma quiet_fetchChecksum file : quiet (fetchChecksum E file).
Proof. unfold fetchChecksum. repeat quiet_step. Qed.

Lemma quiet_fetchActivationBytes : quiet (fetchActivationBytes E).
Proof.
  unfold fetchActivationBytes, fetchActivationBytesFromDevices, pick.
  repeat quiet_step.
Qed.

Lemma quiet_finished r l :
  Forall (fun e => match e with Probe _ => False | _ => True end) l ->
  quiet (finished r l).
Proof.
  intros Hl. unfold finished. destruct (failure r).
  - reflexivity.
  - now apply quiet_events.
Qed.

Lemma quiet_started r (on_start : string -> list event) :
  (forall c, Forall (fun e => match e with Probe _ => False | _ => True end)
                    (on_start c)) ->
  quiet (started r on_start, Resolved tt).
Proof.
  intros H. apply quiet_events. unfold started. destruct (cmd r); auto.
Qed.

Lemma quiet_convertAudiobook input output bytes duration :
  quiet (convertAudiobook E input output bytes duration).
Proof.
  unfold convertAudiobook. repeat quiet_step.
  - apply quiet_started. intros c. repeat constructor.
  - unfold currentProgress. now apply quiet_map.
  - apply quiet_finished. repeat constructor.
Qed.

Lemma quiet_extractCoverImage input output :
  quiet (extractCoverImage E input output).
Proof.
  unfold extractCoverImage. repeat quiet_step.
  - apply quiet_started. intros c. repeat constructor.
  - now apply quiet_map.
  - apply quiet_finished. repeat constructor.
Qed.

Lemma quiet_addLoopedImage input output image duration :
  quiet (addLoopedImage E input output image duration).
Proof.
  unfold addLoopedImage. repeat quiet_step.
  - apply quiet_started. intros c. repeat constructor.
  - unfold currentProgress. now apply quiet_map.
  - apply quiet_finished. repeat constructor.
Qed.

Lemma probes_fetchMetadata input :
  probes (trace (fetchMetadata E input)) = [input].
Proof.
  unfold fetchMetadata. rewrite trace_then, probes_app.
  unfold all2 at 1. cbn [trace fst]. rewrite probes_app.
  rewrite (quiet_fetchChecksum input).
  rewrite trace_then. cbn [emit trace result fst snd probes List.app].
  replace (probes (trace (settle (ffprobe E input)))) with (@nil string)
    by reflexivity.
  cbn [List.app]. 
  destruct (result (all2 _ _)) as [[fmt sum]|r]; [|reflexivity].
  assert (Hq : forall (p : Promise Metadata), quiet p -> ([input] ++ probes (trace p))%list = [input]).
  { intros p Hp. now rewrite Hp. }
  apply Hq. repeat quiet_step.
Qed.

Lemma probes_converter file : probes (trace (converter E file)) = [file].
Proof.
  unfold converter. rewrite trace_then, probes_app. cbn [emit trace result fst snd probes List.app].
  rewrite trace_then, probes_app, probes_fetchMetadata.
  destruct (result (fetchMetadata E file)) as [metadata|r]; [|reflexivity].
  assert (Hq : forall (p : Promise unit), quiet p -> ([file] ++ probes (trace p))%list = [file]).
  { intros p Hp. now rewrite Hp. }
  apply Hq. cbv zeta.
  repeat
    match goal with
    | |- quiet (fetchActivationBytes _) => apply quiet_fetchActivationBytes
    | |- quiet (convertAudiobook _ _ _ _ _) => apply quiet_convertAudiobook
    | |- quiet (extractCoverImage _ _ _) => apply quiet_extractCoverImage
    | |- quiet (addLoopedImage _ _ _ _ _) => apply quiet_addLoopedImage
    | |- _ => quiet_step
    end.
Qed.

End Batch.

Section Main.

Variable E : Env.

Lemma step_ok total file :
  result (converter E file) = Resolved tt ->
  (converter E file ;;; emit (ConsoleLog "") ;;; resolve (total + 1)%N)
  = ((trace (converter E file) ++ [ConsoleLog ""])%list, Resolved (total + 1)%N).
Proof.
  destruct (converter E file) as [tr o]. cbn. intros ->. reflexivity.
Qed.

Lemma step_fail total file r :
  result (converter E file) = Rejected r ->
  (converter E file ;;; emit (ConsoleLog "") ;;; resolve (total + 1)%N)
  = (trace (converter E file), Rejected r).
Proof.
  destruct (converter E file) as [tr o]. cbn. intros ->. reflexivity.
Qed.

Lemma reduce_ok files init :
  (forall g, In g files -> result (converter E g) = Resolved tt) ->
  Promise_reduce files
    (fun total file =>
       converter E file ;;; emit (ConsoleLog "") ;;; resolve (total + 1)%N) init
  = (converted E files, Resolved (init + N.of_nat (List.length files))%N).
Proof.
  revert init. induction files as [|g files IH]; intros init Hok.
  - cbn. now rewrite N.add_0_r.
  - cbn [Promise_reduce]. rewrite step_ok by (apply Hok; now left).
    cbn [then_]. rewrite IH by (intros; apply Hok; now right).
    cbn [converted flat_map List.length]. do 2 f_equal. lia.
Qed.

Lemma reduce_fail pre f post init r :
  (forall g, In g pre -> result (converter E g) = Resolved tt) ->
  result (converter E f) = Rejected r ->
  Promise_reduce (pre ++ f :: post)
    (fun total file =>
       converter E file ;;; emit (ConsoleLog "") ;;; resolve (total + 1)%N) init
  = ((converted E pre ++ trace (converter E f))%list, Rejected r).
Proof.
  revert init. induction pre as [|g pre IH]; intros init Hok Hf.
  - cbn [List.app Promise_reduce]. rewrite (step_fail _ _ r Hf). reflexivity.
  - cbn [List.app Promise_reduce]. rewrite step_ok by (apply Hok; now left).
    cbn [then_]. rewrite IH by (auto; intros; apply Hok; now right).
    cbn [converted flat_map]. now rewrite <- !app_assoc.
Qed.

Lemma probes_converted files : probes (converted E files) = files.
Proof.
  induction files as [|g files IH]; [reflexivity|].
  cbn [converted flat_map]. rewrite !probes_app, probes_converter.
  fold (converted E files). now rewrite IH.
Qed.

Lemma report_small total :
  (total <= 1)%N -> report total = "Finished converting one Audiobook!".
Proof.
  intros H. unfold report.
  destruct (N.ltb_spec 1 total); [lia|reflexivity].
Qed.

Lemma report_large total :
  (1 < total)%N ->
  report total
  = "Finished converting " ++ Js.toString10 (Z.of_N total) ++ " Audiobooks!".
Proof.
  intros H. unfold report.
  destruct (N.ltb_spec 1 total); [reflexivity|lia].
Qed.

(** What [main] does once the pattern is expanded, by outcome of the
    reduction. *)
Lemma main_resolved inputFile files total :
  glob E inputFile = Resolved files ->
  result (batch E files) = Resolved total ->
  main E inputFile
  = (trace (setupWinston E) ++ [Glob inputFile] ++ trace (batch E files)
     ++ [ConsoleLog (report total)])%list.
Proof.
  intros Hg Hb. unfold main, main_chain, globPromise. rewrite Hg.
  run_chain. destruct (batch E files) as [tr o]. cbn in Hb. subst o.
  reflexivity.
Qed.

Lemma main_rejected inputFile files r :
  glob E inputFile = Resolved files ->
  result (batch E files) = Rejected r ->
  main E inputFile
  = (trace (setupWinston E) ++ [Glob inputFile] ++ trace (batch E files)
     ++ [Log error (message r); LogStack debug r])%list.
Proof.
  intros Hg Hb. unfold main, main_chain, globPromise. rewrite Hg.
  run_chain. destruct (batch E files) as [tr o]. cbn in Hb. subst o.
  reflexivity.
Qed.

End Main.

(** C1 (as amended).  The files are converted one at a time, in input
    order.  When the file at some position fails, no later file is
    attempted: the files probed are those before it and the failing one,
    the error is logged and no final count is reported.  When every
    file converts, all of them are probed and the final line reports
    their number. *)
Theorem main_stops_at_first_failure (E : Env) (inputFile : string) :
  (forall pre f post r,
      glob E inputFile = Resolved (pre ++ f :: post)%list ->
      (forall g, In g pre -> result (converter E g) = Resolved tt) ->
      result (converter E f) = Rejected r ->
      main E inputFile
      = (trace (setupWinston E) ++ [Glob inputFile] ++ converted E pre
         ++ trace (converter E f) ++ [Log error (message r); LogStack debug r])%list
      /\ probes (main E inputFile) = (pre ++ [f])%list)
  /\ (forall files,
         glob E inputFile = Resolved files ->
         (forall g, In g files -> result (converter E g) = Resolved tt) ->
         result (batch E files) = Resolved (N.of_nat (List.length files))
         /\ main E inputFile
            = (trace (setupWinston E) ++ [Glob inputFile] ++ converted E files
               ++ [ConsoleLog (report (N.of_nat (List.length files)))])%list
         /\ probes (main E inputFile) = files).
Proof.
  split.
  - intros pre f post r Hg Hok Hf.
    pose proof (reduce_fail E pre f post 0%N r Hok Hf) as Hb.
    fold (batch E (pre ++ f :: post)) in Hb.
    assert (Hm : main E inputFile
                 = (trace (setupWinston E) ++ [Glob inputFile] ++ converted E pre
                    ++ trace (converter E f)
                    ++ [Log error (message r); LogStack debug r])%list).
    { rewrite (main_rejected E inputFile _ r Hg) by now rewrite Hb.
      rewrite Hb. cbn [trace fst]. now rewrite <- !app_assoc. }
    split; [exact Hm|].
    rewrite Hm, !probes_app, probes_converted, probes_converter. cbn.
    rewrite ?app_nil_r. reflexivity.
  - intros files Hg Hok.
    pose proof (reduce_ok E files 0%N Hok) as Hb.
    fold (batch E files) in Hb. rewrite N.add_0_l in Hb.
    assert (Hm : main E inputFile
                 = (trace (setupWinston E) ++ [Glob inputFile] ++ converted E files
                    ++ [ConsoleLog (report (N.of_nat (List.length files)))])%list).
    { rewrite (main_resolved E inputFile files (N.of_nat (List.length files)) Hg)
        by now rewrite Hb.
      now rewrite Hb. }
    split; [now rewrite Hb|]. split; [exact Hm|].
    rewrite Hm, !probes_app, probes_converted. cbn.
    rewrite ?app_nil_r. reflexivity.
Qed.

Lemma main_stops_at_first_failure_witness :
  probes (main Sample.three_files "*.aax") = ["a.aax"; "b.aax"].
Proof.
  apply (proj1 (main_stops_at_first_failure Sample.three_files "*.aax")
               ["a.aax"] "b.aax" ["c.aax"] (JsError "ffprobe exited with code 1")).
  - reflexivity.
  - intros g [<-|[]]. vm_compute. reflexivity.
  - vm_compute. reflexivity.
Defined.

(** C1 as stated fails: of three files the second fails; the third,
    which would convert, is never attempted, and the run ends with the
    logged error instead of a count. *)
Lemma later_file_not_attempted :
  glob Sample.three_files "*.aax" = Resolved ["a.aax"; "b.aax"; "c.aax"]
  /\ result (converter Sample.three_files "b.aax")
     = Rejected (JsError "ffprobe exited with code 1")
  /\ result (converter Sample.three_files "c.aax") = Resolved tt
  /\ ~ In (Probe "c.aax") (main Sample.three_files "*.aax")
  /\ ~ In (ConsoleLog (report 1)) (main Sample.three_files "*.aax")
  /\ ~ In (ConsoleLog (report 2)) (main Sample.three_files "*.aax")
  /\ last (main Sample.three_files "*.aax") (Glob "")
     = LogStack debug (JsError "ffprobe exited with code 1").
Proof.
  repeat split; try (vm_compute; reflexivity);
    vm_compute; intros H;
    repeat (destruct H as [H|H]; [discriminate H|]); exact H.
Qed.

(** C10.  When the reduction completes with a count of at most one,
    zero included, the final line is "Finished converting one
    Audiobook!"; the number appears, with the plural, only when the
    count exceeds one.  A pattern that matches no file gives count
    zero and that same line. *)
Theorem report_renders_one (E : Env) (inputFile : string)
        (files : list string) (total : N) :
  glob E inputFile = Resolved files ->
  result (batch E files) = Resolved total ->
  main E inputFile
  = (trace (setupWinston E) ++ [Glob inputFile] ++ trace (batch E files)
     ++ [ConsoleLog (report total)])%list
  /\ ((total <= 1)%N -> report total = "Finished converting one Audiobook!")
  /\ ((1 < total)%N ->
      report total
      = "Finished converting " ++ Js.toString10 (Z.of_N total) ++ " Audiobooks!")
  /\ (files = [] ->
      total = 0%N
      /\ main E inputFile
         = (trace (setupWinston E)
            ++ [Glob inputFile; ConsoleLog "Finished converting one Audiobook!"])%list).
Proof.
  intros Hg Hb.
  pose proof (main_resolved E inputFile files total Hg Hb) as Hm.
  split; [exact Hm|]. split; [apply report_small|]. split; [apply report_large|].
  intros ->. cbn in Hb. injection Hb as <-. split; [reflexivity|].
  rewrite Hm. reflexivity.
Qed.

Lemma report_renders_one_witness :
  main Sample.no_files "*.aax"
  = [Log debug "RCRACK_PATH: tools/rcrack/linux/rcrack"; Glob "*.aax";
     ConsoleLog "Finished converting one Audiobook!"]
  /\ last (main Sample.one_file "*.aax") (Glob "")
     = ConsoleLog "Finished converting one Audiobook!".
Proof.
  split.
  - apply (report_renders_one Sample.no_files "*.aax" [] 0%N eq_refl eq_refl).
    reflexivity.
  - rewrite (proj1 (report_renders_one Sample.one_file "*.aax" ["a.aax"] 1%N
                      eq_refl eq_refl)).
    vm_compute. reflexivity.
Defined.

Example report_two : report 2 = "Finished converting 2 Audiobooks!".
Proof. reflexivity. Qed.

Example report_twelve : report 12 = "Finished converting 12 Audiobooks!".
Proof. reflexivity. Qed.

(** * Further properties *)

(** ** Hex rendering of arbitrary numbers *)

Section HexAny.

Lemma toUpperCase_length s : String.length (Js.toUpperCase s) = String.length s.
Proof. induction s; cbn; congruence. Qed.

Lemma toLowerCase_length s : String.length (Js.toLowerCase s) = String.length s.
Proof. induction s; cbn; congruence. Qed.

Lemma substring_length n m s :
  n + m <= String.length s -> String.length (substring n m s) = m.
Proof.
  revert n m. induction s as [|c s IH]; intros n m H; cbn in H.
  - assert (n = 0) by lia. assert (m = 0) by lia. subst. reflexivity.
  - destruct n as [|n]; cbn.
    + destruct m as [|m]; cbn; [reflexivity|]. rewrite IH; lia.
    + apply IH. lia.
Qed.

Lemma toString16_nonempty d : 1 <= String.length (Js.toString16 d).
Proof.
  unfold Js.toString16, HexadecimalString.NilZero.string_of_uint.
  destruct (N.to_hex_uint d); cbn; lia.
Qed.

Lemma toHex_length d : String.length (toHex d) = 2.
Proof.
  unfold toHex, Js.slice_last. rewrite toUpperCase_length.
  pose proof (toString16_nonempty d) as H.
  apply substring_length. cbn [append String.length]. lia.
Qed.

Lemma bytesToHex_length_any l :
  String.length (bytesToHex l) = 2 * List.length l.
Proof.
  induction l as [|d l IH]; [reflexivity|].
  rewrite bytesToHex_cons, length_append, toHex_length, IH.
  cbn [List.length]. lia.
Qed.

End HexAny.

(** X1.  Whatever numbers an array holds, also numbers above 255, its
    rendering has exactly two characters per element and no lowercase
    letter; the activation string of a registry value has twice as many
    characters as the value has bytes, and never more than eight. *)
Theorem bytesToHex_two_per_element (byteArray : list N) :
  String.length (bytesToHex byteArray) = 2 * List.length byteArray
  /\ Js.toUpperCase (bytesToHex byteArray) = bytesToHex byteArray
  /\ String.length (extractBytes byteArray) = 2 * Nat.min 4 (List.length byteArray)
  /\ String.length (extractBytes byteArray) <= 8.
Proof.
  pose proof bytesToHex_length_any as Hlen.
  assert (He : String.length (extractBytes byteArray)
               = 2 * Nat.min 4 (List.length byteArray)).
  { unfold extractBytes. now rewrite Hlen, length_rev, length_firstn. }
  repeat split.
  - apply Hlen.
  - apply bytesToHex_upper_any.
  - exact He.
  - rewrite He. lia.
Qed.

(** ** Events of one kind *)

Section Select.

Context {X : Type} (pick : event -> option X).

Lemma select_app a b : select pick (a ++ b) = (select pick a ++ select pick b)%list.
Proof.
  induction a as [|e a IH]; [reflexivity|].
  cbn. destruct (pick e); cbn; now rewrite IH.
Qed.

Lemma select_none l :
  Forall (fun e => pick e = None) l -> select pick l = [].
Proof.
  induction 1 as [|e l He Hl IH]; [reflexivity|]. cbn. now rewrite He.
Qed.

Lemma select_then {A B} (p : Promise A) (k : A -> Promise B) :
  select pick (trace (then_ p k))
  = (select pick (trace p)
     ++ match result p with
        | Resolved a => select pick (trace (k a))
        | Rejected _ => []
        end)%list.
Proof. rewrite trace_then, select_app. now destruct (result p). Qed.

Lemma lacks_then {A B} (p : Promise A) (k : A -> Promise B) :
  lacks pick p -> (forall a, lacks pick (k a)) -> lacks pick (then_ p k).
Proof.
  unfold lacks. intros Hp Hk. rewrite trace_then, select_app, Hp.
  destruct (result p); [apply Hk|reflexivity].
Qed.

Lemma lacks_catch {A} (p : Promise A) (h : rejection -> Promise A) :
  lacks pick p -> (forall r, lacks pick (h r)) -> lacks pick (catch_ p h).
Proof.
  unfold lacks. intros Hp Hh. destruct p as [tr [a|r]]; cbn in *; [exact Hp|].
  specialize (Hh r). destruct (h r) as [tr' o]. cbn in *.
  now rewrite select_app, Hp, Hh.
Qed.

Lemma lacks_emit e : pick e = None -> lacks pick (emit e).
Proof. intros H. unfold lacks. cbn. now rewrite H. Qed.

Lemma lacks_map {A B} (g : B -> event) (l : list B) (o : outcome A) :
  (forall b, pick (g b) = None) -> lacks pick (map g l, o).
Proof.
  intros Hg. unfold lacks. cbn. apply select_none. apply Forall_forall.
  intros e He. apply in_map_iff in He. destruct He as (b & <- & _). apply Hg.
Qed.

End Select.

Ltac lacks_step :=
  match goal with
  | |- select ?pk (trace ?p) = [] => change (lacks pk p)
  | |- lacks _ (then_ _ _) => apply lacks_then; [|intros]
  | |- lacks _ (catch_ _ _) => apply lacks_catch; [|intros]
  | |- lacks _ (emit _) => apply lacks_emit; reflexivity
  | |- lacks _ (resolve _) => reflexivity
  | |- lacks _ (reject _) => reflexivity
  | |- lacks _ (settle _) => reflexivity
  | |- lacks _ (if ?b then _ else _) => destruct b
  | |- lacks _ (match ?x with _ => _ end) => destruct x
  end.

(** ** The metadata record *)

Section MetadataLemmas.

Variable E : Env.

Lemma fetchChecksum_resolves file :
  exists buffer,
    result (fetchChecksum E file) = Resolved buffer /\ List.length buffer = 20.
Proof.
  unfold fetchChecksum. destruct (fs E file) as [r|r|bytes]; cbn.
  - now exists (alloc 20).
  - now exists (alloc 20).
  - exists (read_into (alloc 20) bytes 20 653). split; [reflexivity|].
    now rewrite read_into_length.
Qed.

Lemma in_skipn_in {A} n (l : list A) x : In x (skipn n l) -> In x l.
Proof.
  intros H. rewrite <- (firstn_skipn n l). apply in_or_app. now right.
Qed.

Lemma in_firstn_in {A} n (l : list A) x : In x (firstn n l) -> In x l.
Proof.
  intros H. rewrite <- (firstn_skipn n l). apply in_or_app. now left.
Qed.

Lemma fetchChecksum_bytes file buffer :
  (forall bytes, fs E file = Content bytes -> Forall is_byte bytes) ->
  result (fetchChecksum E file) = Resolved buffer ->
  Forall is_byte buffer.
Proof.
  intros Hb. unfold fetchChecksum.
  assert (Hz : Forall is_byte (alloc 20)) by (repeat constructor).
  destruct (fs E file) as [r|r|bytes]; cbn; intros H; injection H as <-; auto.
  specialize (Hb bytes eq_refl). unfold read_into.
  apply Forall_app. split.
  - apply Forall_forall. intros x Hx. rewrite Forall_forall in Hb. apply Hb.
    apply (in_skipn_in 653), (in_firstn_in 20), Hx.
  - apply Forall_forall. intros x Hx. rewrite Forall_forall in Hz. apply Hz.
    eapply in_skipn_in, Hx.
Qed.

(** What [fetchMetadata] resolves with, when it resolves. *)
Lemma fetchMetadata_resolved input md :
  result (fetchMetadata E input) = Resolved md ->
  exists fmt t buffer,
    ffprobe E input = Resolved fmt
    /\ tags fmt = Some t
    /\ result (fetchChecksum E input) = Resolved buffer
    /\ md = metadata_of t (format_duration fmt) buffer
    /\ filetype md = "aax".
Proof.
  unfold fetchMetadata. rewrite result_then.
  unfold all2 at 1. cbn [result snd].
  rewrite result_then. cbn [emit result snd settle].
  destruct (ffprobe E input) as [fmt|r]; [|discriminate].
  destruct (fetchChecksum_resolves input) as (buffer & Hb & _).
  rewrite Hb. destruct (tags fmt) as [t|] eqn:Ht; [|discriminate].
  rewrite result_then. cbn [emit result snd].
  fold (metadata_of t (format_duration fmt) buffer).
  destruct (filetype (metadata_of t (format_duration fmt) buffer) =? "aax") eqn:Hf;
    [|discriminate].
  cbn. intros H. injection H as <-.
  exists fmt, t, buffer. repeat split; try assumption. now apply String.eqb_eq.
Qed.

Lemma fetchMetadata_trace input :
  trace (fetchMetadata E input)
  = (Probe input :: trace (fetchChecksum E input)
     ++ match ffprobe E input, result (fetchChecksum E input) with
        | Resolved fmt, Resolved buffer =>
            match tags fmt with
            | Some t =>
                let md := metadata_of t (format_duration fmt) buffer in
                [ConsoleLog (artist md ++ " - " ++ title md ++ " [" ++ date md
                             ++ "] (Duration: " ++ duration md ++ ")")]
            | None => []
            end
        | _, _ => []
        end)%list.
Proof.
  unfold fetchMetadata. rewrite trace_then.
  unfold all2 at 1 2. cbn [trace result fst snd].
  rewrite trace_then, result_then. cbn [emit settle trace result fst snd List.app].
  f_equal. f_equal.
  destruct (ffprobe E input) as [fmt|r]; [|reflexivity].
  destruct (result (fetchChecksum E input)) as [buffer|r]; [|reflexivity].
  cbv beta iota zeta. destruct (tags fmt) as [t|]; [|reflexivity].
  rewrite trace_then. cbn [emit trace result fst snd].
  fold (metadata_of t (format_duration fmt) buffer).
  destruct (filetype (metadata_of t (format_duration fmt) buffer) =? "aax");
    reflexivity.
Qed.

Lemma byte_ok_lower_below (n : nat) :
  forallb byte_ok_lower (map N.of_nat (seq 0 n)) = true ->
  forall d, (d < N.of_nat n)%N -> byte_ok_lower d = true.
Proof.
  intros H d Hd. rewrite forallb_forall in H. apply H. apply in_map_iff.
  exists (N.to_nat d). split; [lia|]. apply in_seq. lia.
Qed.

Lemma toLowerCase_toHex d :
  is_byte d ->
  exists h l,
    Js.toLowerCase (toHex d) = String h (String l EmptyString)
    /\ hexval h = Some (d / 16)%N /\ hexval l = Some (d mod 16)%N
    /\ Js.is_upper h = false /\ Js.is_upper l = false
    /\ Regex.hexdigit h = true /\ Regex.hexdigit l = true.
Proof.
  intros Hd.
  assert (H : byte_ok_lower d = true).
  { apply (byte_ok_lower_below 256); [vm_compute; reflexivity|exact Hd]. }
  unfold byte_ok_lower in H.
  destruct (Js.toLowerCase (toHex d)) as [|h [|l [|]]]; try discriminate.
  repeat (apply andb_true_iff in H; destruct H as [H ?]).
  exists h, l. repeat split; auto using reads_as_spec; now apply negb_true_iff.
Qed.

Lemma toLowerCase_app a b :
  Js.toLowerCase (a ++ b) = Js.toLowerCase a ++ Js.toLowerCase b.
Proof. induction a; cbn; congruence. Qed.

Lemma lower_hex_decodes l :
  Forall is_byte l ->
  hexToBytes (Js.toLowerCase (bytesToHex l)) = Some l
  /\ all Regex.hexdigit (Js.toLowerCase (bytesToHex l)) = true
  /\ all (fun c => negb (Js.is_upper c)) (Js.toLowerCase (bytesToHex l)) = true.
Proof.
  induction 1 as [|d l Hd Hl (IH1 & IH2 & IH3)]; [now repeat split|].
  rewrite bytesToHex_cons, toLowerCase_app.
  destruct (toLowerCase_toHex d Hd) as (h & c & -> & Hh & Hc & Uh & Uc & Xh & Xc).
  cbn [append hexToBytes all]. rewrite Hh, Hc, IH1, IH2, IH3, Uh, Uc, Xh, Xc.
  repeat split. do 2 f_equal. pose proof (N.div_mod d 16). lia.
Qed.

End MetadataLemmas.

(** X2.  The checksum in a metadata record is always 40 characters
    long; when the file holds bytes, it consists of hexadecimal digits
    without uppercase letters and reads back, two digits per byte, as
    the 20 bytes [fetchChecksum] delivered for that file. *)
Theorem checksum_is_forty_hex_digits (E : Env) (input : string) (md : Metadata) :
  result (fetchMetadata E input) = Resolved md ->
  String.length (checksum md) = 40
  /\ ((forall bytes, fs E input = Content bytes -> Forall is_byte bytes) ->
      all Regex.hexdigit (checksum md) = true
      /\ all (fun c => negb (Js.is_upper c)) (checksum md) = true
      /\ exists buffer,
          result (fetchChecksum E input) = Resolved buffer
          /\ hexToBytes (checksum md) = Some buffer).
Proof.
  intros Hmd.
  destruct (fetchMetadata_resolved E input md Hmd)
    as (fmt & t & buffer & _ & _ & Hb & -> & _).
  cbn [checksum metadata_of]. split.
  - destruct (fetchChecksum_resolves E input) as (b & Hb' & Hl).
    rewrite Hb in Hb'. injection Hb' as <-.
    rewrite toLowerCase_length.
    rewrite bytesToHex_length_any, Hl. reflexivity.
  - intros Hbytes.
    pose proof (fetchChecksum_bytes E input buffer Hbytes Hb) as Hall.
    destruct (lower_hex_decodes buffer Hall) as (H1 & H2 & H3).
    repeat split; auto. now exists buffer.
Qed.

Lemma checksum_is_forty_hex_digits_witness :
  let E := Sample.env "linux" Sample.no_options []
                      (fun _ => Content Vary.counting) Sample.all_good [] "" in
  checksum (metadata_of Sample.aax_tags (format_duration Sample.aax) (firstn 20 (skipn 653 Vary.counting)))
  = "8d8e8f909192939495969798999a9b9c9d9e9fa0"
  /\ String.length
       (checksum (metadata_of Sample.aax_tags (format_duration Sample.aax) (firstn 20 (skipn 653 Vary.counting)))) = 40
  /\ hexToBytes
       (checksum (metadata_of Sample.aax_tags (format_duration Sample.aax) (firstn 20 (skipn 653 Vary.counting))))
     = Some (firstn 20 (skipn 653 Vary.counting)).
Proof.
  intros E.
  destruct (checksum_is_forty_hex_digits E "book.aax"
              (metadata_of Sample.aax_tags (format_duration Sample.aax) (firstn 20 (skipn 653 Vary.counting))))
    as [Hlen Hrest].
  - vm_compute. reflexivity.
  - split; [vm_compute; reflexivity|]. split; [exact Hlen|].
    destruct Hrest as (_ & _ & buffer & Hb & Hdec).
    + intros bytes Hc. injection Hc as <-.
      apply Forall_forall. intros x Hx. apply in_map_iff in Hx.
      destruct Hx as (n & <- & _). unfold is_byte. apply N.mod_lt. lia.
    + assert (Hbuf : buffer = firstn 20 (skipn 653 Vary.counting)).
      { assert (Hr : result (fetchChecksum E "book.aax")
                     = Resolved (firstn 20 (skipn 653 Vary.counting)))
          by (vm_compute; reflexivity).
        rewrite Hr in Hb. injection Hb as Hb. now symmetry. }
      rewrite Hdec. now f_equal.
Defined.

(** ** The per-file pipeline *)

Section Pipeline.

Variable E : Env.

Lemma then_ext {A B} (p : Promise A) (k k' : A -> Promise B) :
  (forall a, k a = k' a) -> then_ p k = then_ p k'.
Proof. intros H. destruct p as [tr [a|r]]; cbn; [now rewrite H|reflexivity]. Qed.

Lemma then_reject {A B} (r : rejection) (k : A -> Promise B) :
  then_ (reject r) k = reject r.
Proof. reflexivity. Qed.

(** [converter], with the names it derives written out. *)
Lemma converter_eq inputFile :
  converter E inputFile
  = (emit (Log silly inputFile) ;;;
     metadata <- fetchMetadata E inputFile ;;
     emit (Log silly (artifact E inputFile metadata ".png")) ;;;
     emit (Log silly (artifact E inputFile metadata ".m4a")) ;;;
     emit (Log silly (artifact E inputFile metadata ".m4v")) ;;;
     bytes <- fetchActivationBytes E ;;
     if truthy bytes then stages E inputFile metadata bytes
     else reject (please_provide E)).
Proof.
  unfold converter. apply then_ext. intros _. apply then_ext. intros metadata.
  cbv zeta. fold (outputDirectory E inputFile). fold (outputFilename E metadata).
  fold (artifact E inputFile metadata ".png").
  fold (artifact E inputFile metadata ".m4a").
  fold (artifact E inputFile metadata ".m4v").
  do 3 (apply then_ext; intros _). apply then_ext. intros bytes.
  destruct (truthy bytes); reflexivity.
Qed.

Lemma trace_finished r l :
  trace (finished r l) = match failure r with None => l | Some _ => [ConsoleLog ""] end.
Proof. unfold finished. now destruct (failure r). Qed.

Lemma result_finished r l :
  result (finished r l)
  = match failure r with None => Resolved tt | Some err => Rejected err end.
Proof. unfold finished. now destruct (failure r). Qed.

Lemma lacks_started {X} (pick : event -> option X) r (on_start : string -> list event) :
  (forall c, select pick (on_start c) = []) ->
  lacks pick (started r on_start, Resolved tt).
Proof. intros H. unfold lacks, started. cbn. destruct (cmd r); auto. Qed.

Lemma lacks_finished {X} (pick : event -> option X) r l :
  pick (ConsoleLog "") = None ->
  select pick l = [] -> lacks pick (finished r l).
Proof.
  intros Hc H. unfold lacks. rewrite trace_finished.
  destruct (failure r); [|exact H]. cbn. now rewrite Hc.
Qed.

Lemma lacks_fetchChecksum {X} (pick : event -> option X) file :
  (forall f, pick (OpenRead f) = None) ->
  (forall l m, pick (Log l m) = None) ->
  (forall l r, pick (LogStack l r) = None) ->
  lacks pick (fetchChecksum E file).
Proof.
  intros H1 H2 H3. unfold fetchChecksum, lacks.
  destruct (fs E file); cbn; rewrite ?H1, ?H2, ?H3; reflexivity.
Qed.

Lemma lacks_fetchMetadata {X} (pick : event -> option X) input :
  (forall f, pick (Probe f) = None) ->
  (forall f, pick (OpenRead f) = None) ->
  (forall l m, pick (Log l m) = None) ->
  (forall l r, pick (LogStack l r) = None) ->
  (forall l, pick (ConsoleLog l) = None) ->
  lacks pick (fetchMetadata E input).
Proof.
  intros H0 H1 H2 H3 H4. unfold lacks. rewrite fetchMetadata_trace.
  cbn [select]. rewrite H0, select_app.
  rewrite (lacks_fetchChecksum pick input H1 H2 H3). cbn [List.app].
  destruct (ffprobe E input) as [fmt|]; [|reflexivity].
  destruct (result (fetchChecksum E input)); [|reflexivity].
  destruct (tags fmt); [|reflexivity].
  cbn. now rewrite H4.
Qed.

Lemma runs_convertAudiobook input output bytes duration :
  runs (trace (convertAudiobook E input output bytes duration))
  = [DecodeJob input output bytes].
Proof.
  unfold convertAudiobook, runs. rewrite trace_then. cbn [emit trace result fst snd].
  cbn [List.app select is_run]. f_equal.
  repeat lacks_step.
  - now apply lacks_started.
  - unfold currentProgress. now apply lacks_map.
  - now apply lacks_finished.
Qed.

Lemma result_convertAudiobook input output bytes duration :
  result (convertAudiobook E input output bytes duration)
  = match failure (ffmpeg E (DecodeJob input output bytes)) with
    | None => Resolved tt
    | Some err => Rejected err
    end.
Proof.
  unfold convertAudiobook. rewrite !result_then. cbn [emit trace result fst snd].
  apply result_finished.
Qed.

Lemma runs_extractCoverImage input output :
  runs (trace (extractCoverImage E input output)) = [CoverJob input output].
Proof.
  unfold extractCoverImage, runs. rewrite trace_then. cbn [emit trace result fst snd].
  cbn [List.app select is_run]. f_equal.
  repeat lacks_step.
  - now apply lacks_started.
  - now apply lacks_map.
  - now apply lacks_finished.
Qed.

Lemma result_extractCoverImage input output :
  result (extractCoverImage E input output)
  = match failure (ffmpeg E (CoverJob input output)) with
    | None => Resolved tt
    | Some err => Rejected err
    end.
Proof.
  unfold extractCoverImage. rewrite !result_then. cbn [emit trace result fst snd].
  apply result_finished.
Qed.

Lemma runs_addLoopedImage input output image duration :
  runs (trace (addLoopedImage E input output image duration))
  = [LoopJob input image output].
Proof.
  unfold addLoopedImage, runs. rewrite trace_then. cbn [emit trace result fst snd].
  cbn [List.app select is_run]. f_equal.
  repeat lacks_step.
  - now apply lacks_started.
  - unfold currentProgress. now apply lacks_map.
  - now apply lacks_finished.
Qed.

Lemma result_addLoopedImage input output image duration :
  result (addLoopedImage E input output image duration)
  = match failure (ffmpeg E (LoopJob input image output)) with
    | None => Resolved tt
    | Some err => Rejected err
    end.
Proof.
  unfold addLoopedImage. rewrite !result_then. cbn [emit trace result fst snd].
  apply result_finished.
Qed.

Lemma runs_app a b : runs (a ++ b) = (runs a ++ runs b)%list.
Proof. apply select_app. Qed.

Lemma runs_stages inputFile metadata bytes :
  runs (trace (stages E inputFile metadata bytes))
  = until_failure E (planned E inputFile metadata bytes).
Proof.
  unfold stages, planned, succeeds, decode_job, cover_job, loop_job.
  rewrite trace_then, runs_app, runs_convertAudiobook, result_convertAudiobook.
  cbn [List.app until_failure]. unfold succeeds. f_equal.
  destruct (failure (ffmpeg E (DecodeJob _ _ _))); [reflexivity|].
  rewrite trace_then, runs_app, runs_extractCoverImage, result_extractCoverImage.
  cbn [List.app until_failure]. unfold succeeds. f_equal.
  destruct (failure (ffmpeg E (CoverJob _ _))); [reflexivity|].
  destruct (loop (program E)); [|reflexivity].
  rewrite runs_addLoopedImage. cbn [until_failure]. unfold succeeds.
  now destruct (failure (ffmpeg E (LoopJob _ _ _))).
Qed.

Lemma result_stages inputFile metadata bytes :
  result (stages E inputFile metadata bytes)
  = match first_failure E (planned E inputFile metadata bytes) with
    | None => Resolved tt
    | Some err => Rejected err
    end.
Proof.
  unfold stages, planned, decode_job, cover_job, loop_job.
  rewrite result_then, result_convertAudiobook.
  destruct (loop (program E)); cbn [first_failure];
    (destruct (failure (ffmpeg E (DecodeJob _ _ _))); [reflexivity|]);
    rewrite result_then, result_extractCoverImage;
    (destruct (failure (ffmpeg E (CoverJob _ _))); [reflexivity|]);
    [|reflexivity].
  rewrite result_addLoopedImage.
  now destruct (failure (ffmpeg E (LoopJob _ _ _))).
Qed.

End Pipeline.

Section Converter.

Variable E : Env.

Lemma trace_fetchActivationBytesFromDevices :
  trace (fetchActivationBytesFromDevices E)
  = match regeditList E with
    | None => []
    | Some _ => [Registry AudibleDevicesKey]
    end.
Proof.
  unfold fetchActivationBytesFromDevices.
  destruct (regeditList E) as [regedit|]; [|reflexivity].
  rewrite trace_then, result_then. cbn [emit settle trace result fst snd List.app].
  destruct (regedit AudibleDevicesKey) as [values|r]; [|reflexivity].
  now destruct (Nat.ltb 0 _).
Qed.

Lemma trace_pick devices : trace (pick E devices) = [].
Proof. unfold pick. now destruct (given (device (program E)) && _). Qed.

Lemma trace_fetchActivationBytes :
  trace (fetchActivationBytes E)
  = if negb (platform E =? "win32") || given (activationBytes (program E))
    then [] else trace (fetchActivationBytesFromDevices E).
Proof.
  unfold fetchActivationBytes.
  destruct (negb (platform E =? "win32") || given (activationBytes (program E)));
    [reflexivity|].
  rewrite trace_then.
  destruct (result (fetchActivationBytesFromDevices E));
    [rewrite trace_pick|]; now rewrite app_nil_r.
Qed.

Lemma lacks_fetchActivationBytes {X} (pick : event -> option X) :
  (forall k, pick (Registry k) = None) -> lacks pick (fetchActivationBytes E).
Proof.
  intros H. unfold lacks.
  rewrite trace_fetchActivationBytes, trace_fetchActivationBytesFromDevices.
  destruct (negb _ || _); [reflexivity|].
  destruct (regeditList E); [|reflexivity]. cbn. now rewrite H.
Qed.

(** How [converter] ends and which jobs it starts, by the outcomes of
    its parts. *)
Lemma converter_result inputFile :
  result (converter E inputFile)
  = match result (fetchMetadata E inputFile) with
    | Rejected r => Rejected r
    | Resolved metadata =>
        match result (fetchActivationBytes E) with
        | Rejected r => Rejected r
        | Resolved bytes =>
            if truthy bytes then
              match first_failure E (planned E inputFile metadata bytes) with
              | None => Resolved tt
              | Some err => Rejected err
              end
            else Rejected (please_provide E)
        end
    end.
Proof.
  rewrite converter_eq, !result_then. cbn [emit result snd].
  destruct (result (fetchMetadata E inputFile)) as [metadata|r]; [|reflexivity].
  repeat (rewrite result_then; cbn [emit result snd]).
  destruct (result (fetchActivationBytes E)) as [bytes|r]; [|reflexivity].
  destruct (truthy bytes); [apply result_stages|reflexivity].
Qed.

Lemma converter_select {X} (pick : event -> option X) inputFile :
  (forall f, pick (Probe f) = None) ->
  (forall f, pick (OpenRead f) = None) ->
  (forall l m, pick (Log l m) = None) ->
  (forall l r, pick (LogStack l r) = None) ->
  (forall l, pick (ConsoleLog l) = None) ->
  select pick (trace (converter E inputFile))
  = match result (fetchMetadata E inputFile) with
    | Rejected _ => []
    | Resolved metadata =>
        (select pick (trace (fetchActivationBytes E))
         ++ match result (fetchActivationBytes E) with
            | Rejected _ => []
            | Resolved bytes =>
                if truthy bytes
                then select pick (trace (stages E inputFile metadata bytes))
                else []
            end)%list
    end.
Proof.
  intros H0 H1 H2 H3 H4.
  pose proof (lacks_fetchMetadata E pick inputFile H0 H1 H2 H3 H4) as Hm.
  unfold lacks in Hm.
  rewrite converter_eq, !select_then. cbn [emit trace result fst snd select].
  rewrite H2, Hm. cbn [List.app].
  destruct (result (fetchMetadata E inputFile)) as [metadata|r]; [|reflexivity].
  rewrite !select_then. cbn [emit trace result fst snd select].
  rewrite !H2. cbn [List.app]. f_equal.
  destruct (result (fetchActivationBytes E)) as [bytes|r]; [|reflexivity].
  now destruct (truthy bytes).
Qed.

Lemma converter_runs inputFile :
  runs (trace (converter E inputFile))
  = match result (fetchMetadata E inputFile) with
    | Rejected _ => []
    | Resolved metadata =>
        match result (fetchActivationBytes E) with
        | Rejected _ => []
        | Resolved bytes =>
            if truthy bytes
            then until_failure E (planned E inputFile metadata bytes)
            else []
        end
    end.
Proof.
  unfold runs. rewrite converter_select by reflexivity.
  destruct (result (fetchMetadata E inputFile)) as [metadata|r]; [|reflexivity].
  pose proof (lacks_fetchActivationBytes is_run (fun _ => eq_refl)) as Hl.
  unfold lacks in Hl. rewrite Hl. cbn [List.app].
  destruct (result (fetchActivationBytes E)) as [bytes|r]; [|reflexivity].
  destruct (truthy bytes); [apply runs_stages|reflexivity].
Qed.

Lemma lacks_stages {X} (pick : event -> option X) inputFile metadata bytes :
  (forall j, pick (Run j) = None) ->
  (forall l m, pick (Log l m) = None) ->
  (forall l, pick (ConsoleLog l) = None) ->
  (forall t, pick (StdoutWrite t) = None) ->
  (forall l p, pick (Progress l p) = None) ->
  lacks pick (stages E inputFile metadata bytes).
Proof.
  intros H1 H2 H3 H4 H5.
  unfold stages, convertAudiobook, extractCoverImage, addLoopedImage.
  repeat
    match goal with
    | |- lacks _ (emit _) => apply lacks_emit; auto
    | |- lacks _ (started _ _, _) =>
        apply lacks_started; intros; cbn; rewrite ?H2, ?H4; reflexivity
    | |- lacks _ (currentProgress _ _ _, _) =>
        unfold currentProgress; apply lacks_map; auto
    | |- lacks _ (map _ _, _) => apply lacks_map; auto
    | |- lacks _ (finished _ _) =>
        apply lacks_finished; [auto|cbn; rewrite ?H3; reflexivity]
    | |- _ => lacks_step
    end.
Qed.

Lemma converter_registry_reads inputFile :
  registry_reads (trace (converter E inputFile))
  = match result (fetchMetadata E inputFile) with
    | Rejected _ => []
    | Resolved _ => registry_reads (trace (fetchActivationBytes E))
    end.
Proof.
  unfold registry_reads. rewrite converter_select by reflexivity.
  destruct (result (fetchMetadata E inputFile)) as [metadata|r]; [|reflexivity].
  rewrite <- (app_nil_r (select is_registry (trace (fetchActivationBytes E)))) at 2.
  f_equal.
  destruct (result (fetchActivationBytes E)) as [bytes|r]; [|reflexivity].
  destruct (truthy bytes); [|reflexivity].
  now apply lacks_stages.
Qed.

End Converter.

Section Failures.

Variable E : Env.

Lemma until_failure_all jobs :
  (forall j, In j jobs -> failure (ffmpeg E j) = None) ->
  until_failure E jobs = jobs /\ first_failure E jobs = None.
Proof.
  induction jobs as [|j jobs IH]; intros H; [now split|].
  cbn. unfold succeeds. rewrite (H j) by now left.
  destruct IH as [IH1 IH2]; [intros; apply H; now right|].
  now rewrite IH1, IH2.
Qed.

Lemma until_failure_split pre j post err :
  (forall g, In g pre -> failure (ffmpeg E g) = None) ->
  failure (ffmpeg E j) = Some err ->
  until_failure E (pre ++ j :: post) = (pre ++ [j])%list
  /\ first_failure E (pre ++ j :: post) = Some err.
Proof.
  intros Hpre Hj. induction pre as [|g pre IH]; cbn.
  - unfold succeeds. now rewrite Hj.
  - unfold succeeds. rewrite (Hpre g) by now left.
    destruct IH as [IH1 IH2]; [intros; apply Hpre; now right|].
    now rewrite IH1, IH2.
Qed.

Lemma fetchMetadata_not_aax input fmt t :
  ffprobe E input = Resolved fmt ->
  tags fmt = Some t ->
  tag (major_brand t) (fun s => Js.toLowerCase (Num.trim s)) <> "aax" ->
  result (fetchMetadata E input) = Rejected (JsError "Not a valid AAX File!").
Proof.
  intros Hp Ht Hb. unfold fetchMetadata. rewrite result_then.
  unfold all2 at 1. cbn [result snd].
  rewrite result_then. cbn [emit result snd settle]. rewrite Hp.
  destruct (fetchChecksum_resolves E input) as (buffer & Hc & _).
  rewrite Hc, Ht. rewrite result_then. cbn [emit result snd filetype].
  apply String.eqb_neq in Hb. now rewrite Hb.
Qed.

(** A file without tags: the record is never built and nothing is
    printed. *)
Lemma fetchMetadata_no_tags input fmt :
  ffprobe E input = Resolved fmt ->
  tags fmt = None ->
  result (fetchMetadata E input) = Rejected TypeError_major_brand
  /\ console (trace (fetchMetadata E input)) = [].
Proof.
  intros Hp Ht. split.
  - unfold fetchMetadata. rewrite result_then.
    unfold all2 at 1. cbn [result snd].
    rewrite result_then. cbn [emit result snd settle]. rewrite Hp.
    destruct (fetchChecksum_resolves E input) as (buffer & Hc & _).
    now rewrite Hc, Ht.
  - rewrite fetchMetadata_trace, Hp, Ht. unfold console.
    cbn [select is_console]. rewrite select_app.
    pose proof (lacks_fetchChecksum E is_console input
                  (fun _ => eq_refl) (fun _ _ => eq_refl) (fun _ _ => eq_refl)) as Hl.
    unfold lacks in Hl. rewrite Hl.
    now destruct (result (fetchChecksum E input)).
Qed.

Lemma converter_stops_at_metadata inputFile r :
  result (fetchMetadata E inputFile) = Rejected r ->
  trace (converter E inputFile)
  = Log silly inputFile :: trace (fetchMetadata E inputFile).
Proof.
  intros Hr. rewrite converter_eq, trace_then. cbn [emit trace result fst snd List.app].
  rewrite trace_then, Hr. now rewrite app_nil_r.
Qed.

End Failures.

(** X3.  Once the container is accepted and a secret is resolved,
    [converter] starts the decoding, then the cover extraction, then,
    if looping was asked for, the loop job, which reads the decoded
    audio and the extracted cover.  The first job that fails is the
    last one started and its error is the error of [converter]; when
    no job fails all of them run and [converter] resolves. *)
Theorem stages_stop_at_first_failure (E : Env) (inputFile : string)
        (metadata : Metadata) (bytes : jsval) :
  result (fetchMetadata E inputFile) = Resolved metadata ->
  result (fetchActivationBytes E) = Resolved bytes ->
  truthy bytes = true ->
  planned E inputFile metadata bytes
  = (DecodeJob inputFile (artifact E inputFile metadata ".m4a") bytes
     :: CoverJob inputFile (artifact E inputFile metadata ".png")
     :: (if loop (program E)
         then [LoopJob (artifact E inputFile metadata ".m4a")
                       (artifact E inputFile metadata ".png")
                       (artifact E inputFile metadata ".m4v")]
         else []))
  /\ (forall pre j post err,
         planned E inputFile metadata bytes = (pre ++ j :: post)%list ->
         (forall g, In g pre -> failure (ffmpeg E g) = None) ->
         failure (ffmpeg E j) = Some err ->
         runs (trace (converter E inputFile)) = (pre ++ [j])%list
         /\ result (converter E inputFile) = Rejected err)
  /\ ((forall j, In j (planned E inputFile metadata bytes) ->
                 failure (ffmpeg E j) = None) ->
      runs (trace (converter E inputFile)) = planned E inputFile metadata bytes
      /\ result (converter E inputFile) = Resolved tt).
Proof.
  intros Hm Hb Ht. split; [reflexivity|].
  rewrite converter_runs, converter_result, Hm, Hb, Ht. split.
  - intros pre j post err Hp Hpre Hj. rewrite Hp.
    destruct (until_failure_split E pre j post err Hpre Hj) as [-> ->]. now split.
  - intros Hall. destruct (until_failure_all E _ Hall) as [-> ->]. now split.
Qed.

Lemma stages_stop_at_first_failure_witness :
  let E := Vary.ffmpeg_of Sample.one_file (Vary.failing Vary.is_cover) in
  runs (trace (converter E "a.aax"))
  = [DecodeJob "a.aax" "./Author - Book [2016].m4a" (VStr "CAFEBABE");
     CoverJob "a.aax" "./Author - Book [2016].png"]
  /\ result (converter E "a.aax") = Rejected (JsError "ffmpeg exited with code 1").
Proof.
  intros E.
  apply (proj1 (proj2 (stages_stop_at_first_failure E "a.aax"
                         (metadata_of Sample.aax_tags (format_duration Sample.aax) (alloc 20)) (VStr "CAFEBABE")
                         eq_refl eq_refl eq_refl))
               [DecodeJob "a.aax" "./Author - Book [2016].m4a" (VStr "CAFEBABE")]
               (CoverJob "a.aax" "./Author - Book [2016].png") []
               (JsError "ffmpeg exited with code 1")).
  - reflexivity.
  - intros g [<-|[]]. reflexivity.
  - reflexivity.
Defined.

(** X4.  Every ffmpeg job [converter] starts belongs to a file whose
    container brand was accepted as [aax] and is one of the planned
    jobs for a resolved secret that is not empty or absent: nothing is
    decoded without a valid container and a secret. *)
Theorem jobs_need_container_and_secret (E : Env) (inputFile : string) (j : job) :
  In j (runs (trace (converter E inputFile))) ->
  exists metadata bytes,
    result (fetchMetadata E inputFile) = Resolved metadata
    /\ filetype metadata = "aax"
    /\ result (fetchActivationBytes E) = Resolved bytes
    /\ truthy bytes = true
    /\ In j (planned E inputFile metadata bytes).
Proof.
  rewrite converter_runs.
  destruct (result (fetchMetadata E inputFile)) as [metadata|r] eqn:Hm; [|intros []].
  destruct (result (fetchActivationBytes E)) as [bytes|r]; [|intros []].
  destruct (truthy bytes) eqn:Ht; [|intros []].
  intros Hj. exists metadata, bytes.
  destruct (fetchMetadata_resolved E inputFile metadata Hm)
    as (fmt & t & buffer & _ & _ & _ & _ & Hf).
  repeat split; auto.
  revert Hj. generalize (planned E inputFile metadata bytes).
  induction l as [|g l IH]; cbn; [tauto|].
  intros [->|Hj]; [now left|]. right.
  destruct (succeeds E g); [now apply IH|contradiction].
Qed.

Lemma jobs_need_container_and_secret_witness :
  exists metadata bytes,
    result (fetchMetadata Sample.one_file "a.aax") = Resolved metadata
    /\ filetype metadata = "aax"
    /\ result (fetchActivationBytes Sample.one_file) = Resolved bytes
    /\ truthy bytes = true
    /\ In (CoverJob "a.aax" "./Author - Book [2016].png")
          (planned Sample.one_file "a.aax" metadata bytes).
Proof.
  apply (jobs_need_container_and_secret Sample.one_file "a.aax").
  vm_compute. tauto.
Defined.



(** ** The resolver, continued *)

Section ResolverMore.

Variable E : Env.

Lemma enumerated_nonempty devices :
  result (fetchActivationBytesFromDevices E) = Resolved devices -> devices <> [].
Proof.
  unfold fetchActivationBytesFromDevices.
  destruct (regeditList E) as [regedit|]; [|discriminate].
  run_chain.
  destruct (regedit AudibleDevicesKey) as [values|r]; [|discriminate].
  run_chain.
  match goal with
  | |- context [Nat.ltb 0 (List.length ?kept)] => destruct kept as [|d l]
  end; cbn; [discriminate|].
  intros H. injection H as <-. discriminate.
Qed.

Lemma fetchActivationBytes_windows :
  platform E = "win32" ->
  given (activationBytes (program E)) = false ->
  result (fetchActivationBytes E)
  = match result (fetchActivationBytesFromDevices E) with
    | Resolved devices => result (pick E devices)
    | Rejected r => Rejected r
    end.
Proof.
  intros Hp Ha. unfold fetchActivationBytes. rewrite Hp, Ha.
  change (negb ("win32" =? "win32") || false) with false. cbv iota.
  apply result_then.
Qed.

Lemma selected_device devices k i d :
  platform E = "win32" ->
  given (activationBytes (program E)) = false ->
  result (fetchActivationBytesFromDevices E) = Resolved devices ->
  device (program E) = Some k ->
  array_index k = Some i ->
  nth_error devices i = Some d ->
  d <> "" ->
  result (fetchActivationBytes E) = Resolved (VStr d).
Proof.
  intros Hp Ha Hd Hk Hi Hn Hne.
  rewrite (fetchActivationBytes_windows Hp Ha), Hd.
  unfold pick. rewrite Hk, Ha.
  assert (Hg : array_get E devices (Some k) = VStr d).
  { unfold array_get. now rewrite Hi, Hn. }
  rewrite Hg. cbn [truthy].
  apply String.eqb_neq in Hne. rewrite Hne. cbn [negb].
  now rewrite andb_false_r.
Qed.

(** An enumerated entry that is the empty text cannot be selected. *)
Lemma empty_device_rejected devices k i :
  platform E = "win32" ->
  given (activationBytes (program E)) = false ->
  result (fetchActivationBytesFromDevices E) = Resolved devices ->
  device (program E) = Some k ->
  k <> "" ->
  array_index k = Some i ->
  nth_error devices i = Some "" ->
  result (fetchActivationBytes E)
  = Rejected (JsError ("Device Nr. " ++ k
                       ++ " not found! Please use the 'list' command to get your devices.")).
Proof.
  intros Hp Ha Hd Hk Hne Hi Hn.
  rewrite (fetchActivationBytes_windows Hp Ha), Hd.
  unfold pick. rewrite Hk.
  assert (Hg : array_get E devices (Some k) = VStr "").
  { unfold array_get. now rewrite Hi, Hn. }
  rewrite Hg. cbn [truthy given value_of text_of].
  apply String.eqb_neq in Hne. rewrite Hne. reflexivity.
Qed.

End ResolverMore.

(** X6.  Off Windows the resolver never looks at the registry: it
    resolves at once with the [-a] option, or with [false] when that
    was not given.  In the latter case [converter], for a file whose
    metadata is accepted, rejects with "Please provide activation bytes
    with -a <bytes>", without the hint at [-d], and starts no job. *)
Theorem other_platforms_use_option_only (E : Env) :
  platform E <> "win32" ->
  fetchActivationBytes E = resolve (value_of (activationBytes (program E)))
  /\ (given (activationBytes (program E)) = false ->
      forall inputFile metadata,
        result (fetchMetadata E inputFile) = Resolved metadata ->
        result (converter E inputFile)
        = Rejected (JsError "Please provide activation bytes with -a <bytes>")
        /\ runs (trace (converter E inputFile)) = []
        /\ registry_reads (trace (converter E inputFile)) = []).
Proof.
  intros Hp. apply String.eqb_neq in Hp.
  assert (Hf : fetchActivationBytes E
               = resolve (value_of (activationBytes (program E)))).
  { unfold fetchActivationBytes. now rewrite Hp. }
  split; [exact Hf|].
  intros Ha inputFile metadata Hm.
  assert (Ht : truthy (value_of (activationBytes (program E))) = false).
  { destruct (activationBytes (program E)); [exact Ha|reflexivity]. }
  rewrite converter_result, converter_runs, converter_registry_reads, Hm, Hf.
  cbn [resolve result trace fst snd]. rewrite Ht.
  unfold please_provide. rewrite Hp. rewrite append_empty_r. now repeat split.
Qed.

Lemma other_platforms_use_option_only_witness :
  let E := Sample.env "linux" Sample.no_options Sample.two_devices Sample.no_file
                      Sample.all_good ["a.aax"] "" in
  fetchActivationBytes E = resolve VFalse
  /\ result (converter E "a.aax")
     = Rejected (JsError "Please provide activation bytes with -a <bytes>")
  /\ runs (trace (converter E "a.aax")) = []
  /\ registry_reads (trace (converter E "a.aax")) = [].
Proof.
  intros E.
  destruct (other_platforms_use_option_only E) as [Hf Hc].
  - discriminate.
  - split; [exact Hf|].
    apply (Hc eq_refl "a.aax" (metadata_of Sample.aax_tags (format_duration Sample.aax) (alloc 20))). reflexivity.
Defined.

(** X7.  On Windows, without an explicit secret and with the registry
    enumerated: a requested device number that selects a non-empty
    entry of the enumerated list gives that entry; without a requested
    device the first enumerated entry is the secret. *)
Theorem device_selection (E : Env) (devices : list string) :
  platform E = "win32" ->
  given (activationBytes (program E)) = false ->
  result (fetchActivationBytesFromDevices E) = Resolved devices ->
  (forall k i d,
      device (program E) = Some k ->
      array_index k = Some i ->
      nth_error devices i = Some d ->
      d <> "" ->
      result (fetchActivationBytes E) = Resolved (VStr d))
  /\ (device (program E) = None ->
      array_inherited E "undefined" = None ->
      exists d rest,
        devices = d :: rest
        /\ result (fetchActivationBytes E) = Resolved (VStr d)).
Proof.
  intros Hp Ha Hd.
  split.
  - intros k i d Hk Hi Hn Hne.
    now apply (selected_device E devices k i d).
  - rewrite (fetchActivationBytes_windows E Hp Ha), Hd. intros Hk Hu.
    destruct devices as [|d rest];
      [now destruct (enumerated_nonempty E [] Hd)|].
    exists d, rest. split; [reflexivity|].
    unfold pick. rewrite Hk, Ha.
    assert (Hg : array_get E (d :: rest) None = VUndefined).
    { unfold array_get. cbn. now rewrite Hu. }
    rewrite Hg. cbn. now destruct (d =? "") eqn:Hd0; [apply String.eqb_eq in Hd0; subst|].
Qed.

Lemma device_selection_witness :
  result (fetchActivationBytes
            (Sample.env "win32" (Sample.from_device (Some "1"))
                        ([[1; 2; 3; 4]; [255; 255; 255; 255]; [5; 6; 7; 8]]%N)
                        Sample.no_file Sample.all_good [] ""))
  = Resolved (VStr "08070605").
Proof.
  apply (proj1 (device_selection
                  (Sample.env "win32" (Sample.from_device (Some "1"))
                              ([[1; 2; 3; 4]; [255; 255; 255; 255]; [5; 6; 7; 8]]%N)
                              Sample.no_file Sample.all_good [] "")
                  ["04030201"; "08070605"] eq_refl eq_refl eq_refl)
               "1" 1 "08070605"); try reflexivity.
  discriminate.
Defined.

(** X8.  On Windows, without an explicit secret, the resolver fails
    whenever the registry gives no usable device, whatever device was
    requested: with the reinstall hint when [regedit] is not loaded,
    with the registry's own error when listing fails, and with "Could
    not find any Audible Activation Bytes!" when the key holds no value
    or only values that render as [FFFFFFFF]. *)
Theorem no_usable_device (E : Env) :
  platform E = "win32" ->
  given (activationBytes (program E)) = false ->
  (regeditList E = None ->
   result (fetchActivationBytes E)
   = Rejected (JsError ("Optional dependency `regedit` is not installed. Try reinstalling "
                        ++ pkg_name E ++ " without ignoring `optionalDependencies`.")))
  /\ (forall regedit r,
         regeditList E = Some regedit ->
         regedit AudibleDevicesKey = Rejected r ->
         result (fetchActivationBytes E) = Rejected r)
  /\ (forall regedit values,
         regeditList E = Some regedit ->
         regedit AudibleDevicesKey = Resolved values ->
         (forall v, In v values -> extractBytes v = "FFFFFFFF") ->
         result (fetchActivationBytes E)
         = Rejected (JsError "Could not find any Audible Activation Bytes!")).
Proof.
  intros Hp Ha. rewrite (fetchActivationBytes_windows E Hp Ha).
  split; [|split].
  - intros Hr. unfold fetchActivationBytesFromDevices. now rewrite Hr.
  - intros regedit r Hr Hv. unfold fetchActivationBytesFromDevices.
    rewrite Hr. run_chain. now rewrite Hv.
  - intros regedit values Hr Hv Hall.
    rewrite (enumeration E regedit values Hr Hv).
    assert (Hf : filter (fun n => negb (n =? "FFFFFFFF")) (map extractBytes values) = []).
    { clear Hv. induction values as [|v values IH]; [reflexivity|].
      cbn [map filter]. rewrite (Hall v) by now left.
      change (negb ("FFFFFFFF" =? "FFFFFFFF")) with false. cbv iota.
      apply IH. intros; apply Hall; now right. }
    now rewrite Hf.
Qed.

Lemma no_usable_device_witness :
  result (fetchActivationBytes
            (Sample.env "win32" (Sample.from_device (Some "0"))
                        [[255; 255; 255; 255; 9]; [255; 255; 255; 255]]%N
                        Sample.no_file Sample.all_good [] ""))
  = Rejected (JsError "Could not find any Audible Activation Bytes!").
Proof.
  refine (proj2 (proj2 (no_usable_device
                          (Sample.env "win32" (Sample.from_device (Some "0"))
                                      [[255; 255; 255; 255; 9]; [255; 255; 255; 255]]%N
                                      Sample.no_file Sample.all_good [] "")
                          eq_refl eq_refl))
                (fun _ => Resolved [[255; 255; 255; 255; 9]; [255; 255; 255; 255]]%N)
                [[255; 255; 255; 255; 9]; [255; 255; 255; 255]]%N eq_refl eq_refl _).
  intros v [<-|[<-|[]]]; reflexivity.
Defined.

Lemma explicit_secret_wins_witness :
  result (fetchActivationBytes Sample.secret_and_absent_device)
  = Resolved (VStr "CAFEBABE")
  /\ trace (fetchActivationBytes Sample.secret_and_absent_device) = [].
Proof.
  apply (explicit_secret_wins Sample.secret_and_absent_device "CAFEBABE").
  - reflexivity.
  - discriminate.
Defined.

(** ** Progress, continued *)

(** X9.  Over timemarks [H:MM:SS] whose numbers stay in the range
    where the rounding of doubles cannot reach an integer (elapsed
    seconds times 100 below 2^53, and [(SS + 1) * 10^k] at most 2^53
    for a seconds field with [k] fraction digits), the percentage never
    decreases as the elapsed time grows; it is at least 0, stays below
    100 while the elapsed seconds are fewer than the total, and is
    exactly 100 when they equal it. *)
Theorem percent_grows_with_time :
  forall (h m s h' m' s' : Decimal.uint) (f f' : option Decimal.uint) (total : Z),
    h <> Decimal.Nil -> m <> Decimal.Nil -> s <> Decimal.Nil ->
    h' <> Decimal.Nil -> m' <> Decimal.Nil -> s' <> Decimal.Nil ->
    (0 < total)%Z ->
    let elapsed := (number h * 3600 + number m * 60 + number s)%Z in
    let elapsed' := (number h' * 3600 + number m' * 60 + number s')%Z in
    (elapsed <= elapsed')%Z ->
    (elapsed' * 100 < 2 ^ 53)%Z ->
    ((number s + 1) * 10 ^ fraction_digits f <= 2 ^ 53)%Z ->
    ((number s' + 1) * 10 ^ fraction_digits f' <= 2 ^ 53)%Z ->
    exists p p',
      currentTimemarkToPercent (hms h m s f) total = Some p
      /\ currentTimemarkToPercent (hms h' m' s' f') total = Some p'
      /\ (0 <= p <= p')%Z
      /\ (elapsed < total -> p < 100)%Z
      /\ (elapsed = total -> p = 100)%Z
      /\ (total <= elapsed -> 100 <= p)%Z.
Proof.
  intros h m s h' m' s' f f' total Hh Hm Hs Hh' Hm' Hs' Ht elapsed elapsed'
         Hle Hb Hf Hf'.
  rewrite (percent_of_hms h m s f total), (percent_of_hms h' m' s' f' total);
    try assumption; [|fold elapsed; lia].
  fold elapsed elapsed'.
  assert (H0 : (0 <= elapsed)%Z).
  { unfold elapsed. pose proof (number_nonneg h). pose proof (number_nonneg m).
    pose proof (number_nonneg s). lia. }
  do 2 eexists. split; [reflexivity|]. split; [reflexivity|].
  repeat split.
  - apply Z.div_pos; lia.
  - apply Z.div_le_mono; lia.
  - intros Hlt. apply Z.div_lt_upper_bound; lia.
  - intros ->. rewrite Z.mul_comm. apply Z.div_mul. lia.
  - intros Hge. apply Z.div_le_lower_bound; lia.
Qed.

Lemma percent_grows_with_time_witness :
  exists p p',
    currentTimemarkToPercent "0:31:40" 3800 = Some p
    /\ currentTimemarkToPercent "1:03:20.25" 3800 = Some p'
    /\ (0 <= p <= p')%Z
    /\ ((0 * 3600 + 31 * 60 + 40 < 3800)%Z -> (p < 100)%Z)
    /\ ((0 * 3600 + 31 * 60 + 40 = 3800)%Z -> p = 100%Z)
    /\ ((3800 <= 0 * 3600 + 31 * 60 + 40)%Z -> (100 <= p)%Z).
Proof.
  apply (percent_grows_with_time
           (Decimal.D0 Decimal.Nil) (Decimal.D3 (Decimal.D1 Decimal.Nil))
           (Decimal.D4 (Decimal.D0 Decimal.Nil))
           (Decimal.D1 Decimal.Nil) (Decimal.D0 (Decimal.D3 Decimal.Nil))
           (Decimal.D2 (Decimal.D0 Decimal.Nil))
           None (Some (Decimal.D2 (Decimal.D5 Decimal.Nil))) 3800%Z);
    try discriminate; try reflexivity.
Defined.

(** X10.  A timemark with fewer than three fields between colons, such
    as ffmpeg's [N/A], gives no finite percentage, and neither does a
    total duration of zero. *)
Theorem percent_needs_three_fields (a b : string) (total : Z) :
  all (fun c => negb (Ascii.eqb c ":")) a = true ->
  all (fun c => negb (Ascii.eqb c ":")) b = true ->
  currentTimemarkToPercent a total = None
  /\ currentTimemarkToPercent (a ++ ":" ++ b) total = None
  /\ forall timemark, currentTimemarkToPercent timemark 0 = None.
Proof.
  intros Ha Hb. repeat split.
  - unfold currentTimemarkToPercent. rewrite (split_whole ":" a Ha).
    cbn [nth_error Num.ofElement]. now destruct (Num.toNumber a).
  - unfold currentTimemarkToPercent. cbn [append].
    rewrite (split_app ":" a b Ha), (split_whole ":" b Hb).
    cbn [nth_error Num.ofElement].
    destruct (Num.toNumber a); [|reflexivity]. now destruct (Num.toNumber b).
  - intros timemark. unfold currentTimemarkToPercent.
    destruct (Num.ofElement _); [|reflexivity].
    destruct (Num.ofElement _); [|reflexivity].
    now destruct (Num.ofElement _).
Qed.

Lemma percent_needs_three_fields_witness :
  currentTimemarkToPercent "N/A" 3800 = None
  /\ currentTimemarkToPercent "02:03" 3800 = None.
Proof.
  destruct (percent_needs_three_fields "N/A" "" 3800 eq_refl eq_refl) as (H1 & _).
  destruct (percent_needs_three_fields "02" "03" 3800 eq_refl eq_refl) as (_ & H2 & _).
  split; [exact H1|exact H2].
Defined.

(** ** The displayed duration *)

Section Duration.

Lemma Qfloor_div_pos (q : Q) (n : positive) :
  Qfloor (q / inject_Z (Z.pos n))%Q = (Qfloor q / Z.pos n)%Z.
Proof.
  destruct q as [p d]. unfold Qdiv, Qmult, Qinv, inject_Z. cbn.
  rewrite Z.mul_1_r, Pos2Z.inj_mul. symmetry. apply Z.div_div; lia.
Qed.

Lemma Qfloor_minus_Z (q : Q) (k : Z) :
  Qfloor (q - inject_Z k)%Q = (Qfloor q - k)%Z.
Proof.
  destruct q as [p d]. unfold Qminus, Qplus, Qopp, inject_Z. cbn.
  rewrite Z.mul_1_r, Pos.mul_1_r.
  replace (p + - k * Z.pos d)%Z with (p + (- k) * Z.pos d)%Z by lia.
  rewrite Z.div_add by lia. lia.
Qed.

Lemma div_nonneg (a : Q) (n : positive) :
  (0 <= a)%Q -> (0 <= a / inject_Z (Z.pos n))%Q.
Proof.
  intros Ha. destruct a as [p d]. unfold Qle, Qdiv, Qmult, Qinv, inject_Z in *.
  cbn in *. lia.
Qed.

Lemma rem_eq (a : Q) (n : positive) :
  (0 <= a)%Q ->
  Num.rem a (Z.pos n)
  = (a - inject_Z (Z.pos n * (Qfloor a / Z.pos n)))%Q.
Proof.
  intros Ha. unfold Num.rem, Num.trunc.
  assert (Hb : Qle_bool 0 (a / inject_Z (Z.pos n)) = true).
  { apply Qle_bool_iff. now apply div_nonneg. }
  rewrite Hb, Qfloor_div_pos. now rewrite <- inject_Z_mult.
Qed.

Lemma rem_floor (a : Q) (n : positive) :
  (0 <= a)%Q ->
  Qfloor (Num.rem a (Z.pos n)) = (Qfloor a mod Z.pos n)%Z
  /\ (0 <= Num.rem a (Z.pos n))%Q.
Proof.
  intros Ha. rewrite (rem_eq a n Ha). split.
  - rewrite Qfloor_minus_Z. rewrite Z.mod_eq by lia. reflexivity.
  - assert (Hle : (inject_Z (Z.pos n * (Qfloor a / Z.pos n)) <= a)%Q).
    { apply Qle_trans with (inject_Z (Qfloor a)); [|apply Qfloor_le].
      rewrite <- Zle_Qle. apply Z.mul_div_le. lia. }
    apply Qle_minus_iff in Hle. exact Hle.
Qed.

Lemma duration_fields (d : Q) :
  (0 <= d)%Q ->
  Qfloor (d / 3600)%Q = (Qfloor d / 3600)%Z
  /\ Qfloor (Num.rem d 3600 / 60)%Q = (Qfloor d mod 3600 / 60)%Z
  /\ Qfloor (Num.rem (Num.rem d 3600) 60) = (Qfloor d mod 60)%Z.
Proof.
  intros Hd.
  destruct (rem_floor d 3600 Hd) as [Hr Hr0].
  destruct (rem_floor (Num.rem d 3600) 60 Hr0) as [Hs _].
  repeat split.
  - apply (Qfloor_div_pos d 3600).
  - change (Qfloor (Num.rem d (Z.pos 3600) / inject_Z (Z.pos 60))%Q
            = (Qfloor d mod 3600 / 60)%Z).
    now rewrite Qfloor_div_pos, Hr.
  - change (Qfloor (Num.rem (Num.rem d (Z.pos 3600)) (Z.pos 60))
            = (Qfloor d mod 60)%Z).
    rewrite Hs, Hr.
    generalize (Qfloor d). intros z.
    Z.to_euclidean_division_equations. lia.
Qed.

End Duration.

(** X11.  For a probed duration that is not negative, the duration
    shown for a file is the whole seconds of the probed duration,
    split into hours, minutes below 60 and seconds below 60: the three
    numbers add up to the [durationRaw] the progress is computed
    from. *)
Theorem duration_adds_up (E : Env) (input : string) (fmt : Format) (md : Metadata) :
  ffprobe E input = Resolved fmt ->
  (0 <= format_duration fmt)%Q ->
  result (fetchMetadata E input) = Resolved md ->
  let total := durationRaw md in
  total = Qfloor (format_duration fmt)
  /\ duration md
     = Js.toString10 (total / 3600) ++ "h"
       ++ Js.toString10 (total mod 3600 / 60) ++ "m"
       ++ Js.toString10 (total mod 60) ++ "s"
  /\ (total / 3600 * 3600 + total mod 3600 / 60 * 60 + total mod 60 = total)%Z
  /\ (0 <= total mod 3600 / 60 < 60)%Z
  /\ (0 <= total mod 60 < 60)%Z.
Proof.
  intros Hp Hd Hm total.
  destruct (fetchMetadata_resolved E input md Hm) as (fmt' & t & buffer & Hp' & _ & _ & Hmd & _).
  rewrite Hp in Hp'. injection Hp' as <-.
  unfold total. rewrite Hmd. cbn [durationRaw duration metadata_of].
  destruct (duration_fields (format_duration fmt) Hd) as (H1 & H2 & H3).
  rewrite H1, H2, H3.
  repeat split; try reflexivity;
    generalize (Qfloor (format_duration fmt)); intros z;
    Z.to_euclidean_division_equations; lia.
Qed.

Lemma duration_adds_up_witness :
  duration (metadata_of Sample.aax_tags (format_duration Sample.aax) (alloc 20)) = "1h3m20s"
  /\ durationRaw (metadata_of Sample.aax_tags (format_duration Sample.aax) (alloc 20)) = 3800%Z.
Proof.
  destruct (duration_adds_up Sample.one_file "a.aax" Sample.aax
              (metadata_of Sample.aax_tags (format_duration Sample.aax) (alloc 20))) as (H1 & H2 & _).
  - reflexivity.
  - discriminate.
  - reflexivity.
  - split; [|reflexivity]. rewrite H2. reflexivity.
Defined.

(** ** Regular expressions, continued *)

Section RegexMore.

Lemma append_inv_length a a' b b' :
  a ++ b = a' ++ b' -> String.length a = String.length a' -> a = a' /\ b = b'.
Proof.
  revert a'. induction a as [|c a IH]; intros [|c' a'] H Hl; try discriminate.
  - now split.
  - cbn in H, Hl. injection H as -> H. injection Hl as Hl.
    destruct (IH a' H Hl) as [-> ->]. now split.
Qed.

Lemma append_split_shorter a a' b b' :
  a ++ b = a' ++ b' -> String.length a <= String.length a' ->
  exists m, a' = a ++ m /\ b = m ++ b'.
Proof.
  revert a'. induction a as [|c a IH]; intros a' H Hl.
  - exists a'. now split.
  - destruct a' as [|c' a']; [cbn in Hl; lia|].
    cbn in H, Hl. injection H as -> H.
    destruct (IH a' H) as (m & -> & ->); [lia|]. now exists m.
Qed.

(** [search] returns the match at the leftmost position that has one. *)
Lemma search_first prefix group s g :
  Regex.search prefix group s = Some g ->
  exists pre rest,
    s = pre ++ rest
    /\ Regex.match_here prefix group rest = Some g
    /\ forall pre' rest',
        s = pre' ++ rest' -> String.length pre' < String.length pre ->
        Regex.match_here prefix group rest' = None.
Proof.
  induction s as [|c s IH]; cbn.
  - destruct (Regex.match_here prefix group "") eqn:H0; [|discriminate].
    intros H. injection H as <-. exists "", "". repeat split; auto.
    intros pre' rest' _ Hl. cbn in Hl. lia.
  - destruct (Regex.match_here prefix group (String c s)) eqn:H0.
    + intros H. injection H as <-. exists "", (String c s). repeat split; auto.
      intros pre' rest' _ Hl. cbn in Hl. lia.
    + intros H. destruct (IH H) as (pre & rest & -> & Hm & Hfirst).
      exists (String c pre), rest. repeat split; auto.
      intros pre' rest' Hs Hl. destruct pre' as [|c' pre'].
      * cbn in Hs. now subst rest'.
      * cbn in Hs, Hl. injection Hs as _ Hs. apply (Hfirst pre' rest' Hs). lia.
Qed.

Lemma search_prefix_occurs prefix group s g :
  Regex.search prefix group s = Some g ->
  exists pre post, s = pre ++ prefix ++ post.
Proof.
  intros H. destruct (search_some _ _ _ _ H) as (pre & rest & -> & Hm).
  unfold Regex.match_here in Hm.
  destruct (Regex.match_atoms (Regex.lit prefix) rest) as [r|] eqn:Hl;
    [|discriminate].
  apply match_lit in Hl. subst rest. now exists pre, r.
Qed.

(** A greedy repetition followed by a continuation consumes at least
    one character of the class, and only such characters. *)
Lemma plus_then_some p k s r :
  Regex.plus_then p k s = Some r ->
  exists m s', s = m ++ s' /\ m <> "" /\ all p m = true /\ k s' = Some r.
Proof.
  revert r. induction s as [|c s IH]; intros r; cbn; [discriminate|].
  destruct (p c) eqn:Hc; [|discriminate].
  destruct (Regex.plus_then p k s) as [r0|] eqn:Hp.
  - intros H. injection H as <-.
    destruct (IH r0 eq_refl) as (m & s' & -> & _ & Hall & Hk).
    exists (String c m), s'. cbn. rewrite Hc, Hall. repeat split; auto.
    discriminate.
  - intros Hk. exists (String c ""), s. cbn. rewrite Hc. repeat split; auto.
    discriminate.
Qed.

(** A greedy repetition with nothing after it stops only at the end of
    the text or before a character outside the class. *)
Lemma plus_then_longest p s r :
  Regex.plus_then p (fun x => Some x) s = Some r ->
  exists m,
    s = m ++ r /\ m <> "" /\ all p m = true
    /\ (r = "" \/ exists c r', r = String c r' /\ p c = false).
Proof.
  revert r. induction s as [|c s IH]; intros r; cbn; [discriminate|].
  destruct (p c) eqn:Hc; [|discriminate].
  destruct (Regex.plus_then p (fun x => Some x) s) as [r0|] eqn:Hp.
  - intros H. injection H as <-.
    destruct (IH r0 eq_refl) as (m & -> & _ & Hall & Hend).
    exists (String c m). cbn. rewrite Hc, Hall. repeat split; auto. discriminate.
  - intros H. injection H as <-. exists (String c ""). cbn. rewrite Hc.
    repeat split; auto; [discriminate|].
    destruct s as [|d s]; [now left|]. right. exists d, s. split; [reflexivity|].
    cbn in Hp. destruct (p d); [|reflexivity].
    now destruct (Regex.plus_then p (fun x => Some x) s).
Qed.

Lemma length_sub_append m r : String.length (m ++ r) - String.length r = String.length m.
Proof. rewrite length_append. lia. Qed.

(** The pattern [key([^&]+)] at the start of a text. *)
Lemma match_here_rest key s g :
  Regex.match_here key [Regex.Plus Regex.not_amp] s = Some g ->
  exists post,
    s = key ++ g ++ post /\ g <> "" /\ all Regex.not_amp g = true
    /\ (post = "" \/ exists post', post = String "&" post').
Proof.
  unfold Regex.match_here.
  destruct (Regex.match_atoms (Regex.lit key) s) as [r|] eqn:Hl; [|discriminate].
  apply match_lit in Hl. subst s. cbn [Regex.match_atoms].
  destruct (Regex.plus_then Regex.not_amp (fun x => Some x) r) as [r'|] eqn:Hp;
    [|discriminate].
  destruct (plus_then_longest _ _ _ Hp) as (m & -> & Hne & Hall & Hend).
  rewrite length_sub_append, substring_prefix. intros H. injection H as <-.
  exists r'. repeat split; auto.
  destruct Hend as [->|(c & r'' & -> & Hc)]; [now left|right].
  exists r''. f_equal. unfold Regex.not_amp in Hc.
  apply negb_false_iff, Ascii.eqb_eq in Hc. now subst.
Qed.

(** The pattern [key([\w-]+[^&])] at the start of a text. *)
Lemma match_here_id key s g :
  Regex.match_here key [Regex.Plus Regex.word_dash; Regex.One Regex.not_amp] s
  = Some g ->
  exists m x post,
    s = key ++ g ++ post /\ g = m ++ String x ""
    /\ m <> "" /\ all Regex.word_dash m = true /\ Regex.not_amp x = true.
Proof.
  unfold Regex.match_here.
  destruct (Regex.match_atoms (Regex.lit key) s) as [r|] eqn:Hl; [|discriminate].
  apply match_lit in Hl. subst s. cbn [Regex.match_atoms].
  destruct (Regex.plus_then Regex.word_dash _ r) as [r'|] eqn:Hp; [|discriminate].
  destruct (plus_then_some _ _ _ _ Hp) as (m & s' & -> & Hne & Hall & Hk).
  destruct s' as [|x s']; [discriminate|].
  destruct (Regex.not_amp x) eqn:Hx; [|discriminate]. injection Hk as <-.
  intros H. injection H as <-.
  replace (m ++ String x s') with ((m ++ String x "") ++ s')
    by (rewrite append_assoc; reflexivity).
  rewrite length_sub_append, substring_prefix.
  exists m, x, s'. repeat split; auto.
Qed.

End RegexMore.

(** ** The cracker adapter and the license parser, continued *)

(** X12.  When the cracker's output holds several occurrences of
    [hex:] with eight digits, [lookupChecksum] prints the digits of the
    leftmost one; rcrack is started once, with the checksum given. *)
Theorem lookupChecksum_prints_leftmost (E : Env) (checksum output h : string) :
  rcrack E checksum = Resolved output ->
  leftmost_hex output h ->
  console (trace (lookupChecksum E checksum))
  = ["Looking up activation bytes for checksum: " ++ checksum;
     "This might take a moment ...";
     "Activation Bytes found: " ++ h]
  /\ spawns (trace (lookupChecksum E checksum)) = [checksum]
  /\ result (lookupChecksum E checksum) = Resolved tt.
Proof.
  intros Hrc (pre & post & Ho & Hl & Ha & Hleft).
  assert (Hs : Regex.search "hex:" (repeat (Regex.One Regex.hexdigit) 8) output
               = Some h).
  { destruct (Regex.search "hex:" (repeat (Regex.One Regex.hexdigit) 8) output)
      as [g|] eqn:Hs.
    - f_equal.
      destruct (search_first _ _ _ _ Hs) as (pre0 & rest & Ho' & Hm & Hfirst).
      pose proof Hm as Hm'. apply match_here_hex in Hm'.
      destruct Hm' as (post0 & -> & Hl0 & Ha0).
      pose proof (Hleft pre0 g post0 Ho' Hl0 Ha0) as Hle.
      assert (Hge : String.length pre0 <= String.length pre).
      { destruct (Nat.le_gt_cases (String.length pre0) (String.length pre))
          as [H|H]; [exact H|].
        specialize (Hfirst pre ("hex:" ++ h ++ post) Ho H).
        assert (Hsome : Regex.match_here "hex:" (repeat (Regex.One Regex.hexdigit) 8)
                          ("hex:" ++ h ++ post) = Some h).
        { apply match_here_hex. now exists post. }
        congruence. }
      rewrite Ho in Ho'.
      destruct (append_inv_length _ _ _ _ Ho') as [_ Hrest]; [lia|].
      cbn in Hrest. injection Hrest as Hrest.
      destruct (append_inv_length _ _ _ _ Hrest) as [Hh _]; [lia|]. now symmetry.
    - exfalso. apply (search_hex_none output Hs h). now exists pre, post. }
  unfold lookupChecksum. rewrite Hrc. run_chain. rewrite Hs. now repeat split.
Qed.

Lemma lookupChecksum_prints_leftmost_witness :
  let E := Sample.env "linux" Sample.no_options [] Sample.no_file Sample.all_good []
                      "hex:12 hex:1ceb00da hex:cafebabe" in
  console (trace (lookupChecksum E "9d0a"))
  = ["Looking up activation bytes for checksum: 9d0a";
     "This might take a moment ...";
     "Activation Bytes found: 1ceb00da"].
Proof.
  intros E.
  apply (lookupChecksum_prints_leftmost E "9d0a" "hex:12 hex:1ceb00da hex:cafebabe"
                                        "1ceb00da").
  - reflexivity.
  - exists "hex:12 ", " hex:cafebabe". repeat split.
    intros pre' h' post' Ho Hl Ha.
    destruct (Nat.le_gt_cases 7 (String.length pre')) as [H|H]; [exact H|].
    exfalso.
    assert (Hn : forall pre rest,
               "hex:12 hex:1ceb00da hex:cafebabe" = pre ++ rest ->
               String.length pre < 7 ->
               Regex.match_here "hex:" (repeat (Regex.One Regex.hexdigit) 8) rest
               = None).
    { intros p r Hs Hlt.
      do 7 (destruct p as [|? p];
            [cbn in Hs; subst r; reflexivity|cbn in Hs; injection Hs as _ Hs]).
      cbn in Hlt. lia. }
    specialize (Hn pre' ("hex:" ++ h' ++ post') Ho H).
    assert (Hsome : Regex.match_here "hex:" (repeat (Regex.One Regex.hexdigit) 8)
                      ("hex:" ++ h' ++ post') = Some h').
    { apply match_here_hex. now exists post'. }
    congruence.
Defined.

Section License.

Variable E : Env.

Lemma word_dash_not_amp c : Regex.word_dash c = true -> Regex.not_amp c = true.
Proof. destruct c as [[] [] [] [] [] [] [] []]; vm_compute; congruence. Qed.

Lemma search_id content key g :
  Regex.search key [Regex.Plus Regex.word_dash; Regex.One Regex.not_amp] content
  = Some g ->
  field_of content key g.
Proof.
  intros H. destruct (search_some _ _ _ _ H) as (pre & rest & -> & Hm).
  destruct (match_here_id _ _ _ Hm) as (m & x & post & -> & -> & Hne & Hall & Hx).
  repeat split.
  - now exists pre, post.
  - rewrite length_append. cbn. destruct m; [contradiction|cbn; lia].
  - rewrite all_app. cbn. rewrite Hx.
    rewrite (all_impl Regex.word_dash Regex.not_amp m word_dash_not_amp Hall).
    reflexivity.
Qed.

Lemma extractDownloadURL_unfold adhFile content :
  readFile E adhFile = Resolved content ->
  result (extractDownloadURL E adhFile)
  = match Regex.search "cust_id="
            [Regex.Plus Regex.word_dash; Regex.One Regex.not_amp] content,
          Regex.search "product_id="
            [Regex.Plus Regex.word_dash; Regex.One Regex.not_amp] content,
          Regex.search "codec="
            [Regex.Plus Regex.word_dash; Regex.One Regex.not_amp] content,
          Regex.search "title=" [Regex.Plus Regex.not_amp] content with
    | Some custId, Some productId, Some codec, Some title =>
        Resolved {| url := download_url productId custId codec; dl_title := title |}
    | _, _, _, _ => Rejected TypeError_pop
    end.
Proof.
  intros Hr. unfold extractDownloadURL. rewrite Hr. run_chain.
  destruct (Regex.search "cust_id=" _ content); [|reflexivity].
  cbn [pop]. run_chain.
  destruct (Regex.search "product_id=" _ content); [|reflexivity].
  cbn [pop]. run_chain.
  destruct (Regex.search "codec=" _ content); [|reflexivity].
  cbn [pop]. run_chain.
  destruct (Regex.search "title=" _ content); reflexivity.
Qed.

End License.

(** X13.  A license text that lacks one of the four keys [cust_id=],
    [product_id=], [codec=], [title=] makes [extractDownloadURL]
    reject; no download address is produced. *)
Theorem license_needs_all_fields (E : Env) (adhFile content key : string) :
  readFile E adhFile = Resolved content ->
  In key ["cust_id="; "product_id="; "codec="; "title="] ->
  (forall pre post, content <> pre ++ key ++ post) ->
  result (extractDownloadURL E adhFile) = Rejected TypeError_pop.
Proof.
  intros Hr Hk Hno. rewrite (extractDownloadURL_unfold E adhFile content Hr).
  destruct (Regex.search "cust_id=" _ content) as [c|] eqn:H1; [|reflexivity].
  destruct (Regex.search "product_id=" _ content) as [p|] eqn:H2; [|reflexivity].
  destruct (Regex.search "codec=" _ content) as [q|] eqn:H3; [|reflexivity].
  destruct (Regex.search "title=" _ content) as [t|] eqn:H4; [|reflexivity].
  exfalso.
  destruct Hk as [<-|[<-|[<-|[<-|[]]]]];
    [destruct (search_prefix_occurs _ _ _ _ H1) as (pre & post & Hc)
    |destruct (search_prefix_occurs _ _ _ _ H2) as (pre & post & Hc)
    |destruct (search_prefix_occurs _ _ _ _ H3) as (pre & post & Hc)
    |destruct (search_prefix_occurs _ _ _ _ H4) as (pre & post & Hc)];
    exact (Hno pre post Hc).
Qed.

Lemma license_needs_all_fields_witness :
  result (extractDownloadURL
            (Sample.env "linux" Sample.no_options [] Sample.no_file
                        Sample.all_good [] "id=1&t=2")
            "book.adh") = Rejected TypeError_pop.
Proof.
  apply (license_needs_all_fields
           (Sample.env "linux" Sample.no_options [] Sample.no_file
                       Sample.all_good [] "id=1&t=2")
           "book.adh" "id=1&t=2" "codec=").
  - reflexivity.
  - cbn. tauto.
  - intros pre post H.
    assert (Hlen : String.length "id=1&t=2"
                   = String.length (pre ++ "codec=" ++ post)) by now rewrite <- H.
    rewrite !length_append in Hlen. cbn in Hlen.
    do 3 (destruct pre as [|? pre]; [discriminate H|cbn in H; injection H as _ H]).
    cbn in Hlen. lia.
Defined.

(** X14.  When [extractDownloadURL] resolves, the title is the whole
    run of text between a [title=] and the next [&] or the end of the
    file, and it is not empty; the three values in the download address
    each follow their key in the file, have at least two characters and
    contain no [&]. *)
Theorem license_fields (E : Env) (adhFile content : string) (d : Download) :
  readFile E adhFile = Resolved content ->
  result (extractDownloadURL E adhFile) = Resolved d ->
  (exists pre post,
      content = pre ++ "title=" ++ dl_title d ++ post
      /\ dl_title d <> ""
      /\ all Regex.not_amp (dl_title d) = true
      /\ (post = "" \/ exists post', post = String "&" post'))
  /\ exists custId productId codec,
      url d = "https://cds.audible.de/download?product_id=" ++ productId
              ++ "&cust_id=" ++ custId ++ "&codec=" ++ codec
      /\ field_of content "cust_id=" custId
      /\ field_of content "product_id=" productId
      /\ field_of content "codec=" codec.
Proof.
  intros Hr. rewrite (extractDownloadURL_unfold E adhFile content Hr).
  destruct (Regex.search "cust_id=" _ content) as [c|] eqn:H1; [|discriminate].
  destruct (Regex.search "product_id=" _ content) as [p|] eqn:H2; [|discriminate].
  destruct (Regex.search "codec=" _ content) as [q|] eqn:H3; [|discriminate].
  destruct (Regex.search "title=" _ content) as [t|] eqn:H4; [|discriminate].
  intros H. injection H as <-. cbn [url dl_title]. split.
  - destruct (search_some _ _ _ _ H4) as (pre & rest & -> & Hm).
    destruct (match_here_rest _ _ _ Hm) as (post & -> & Hne & Hall & Hend).
    now exists pre, post.
  - exists c, p, q. split; [reflexivity|].
    split; [now apply search_id|]. split; now apply search_id.
Qed.

Lemma license_fields_witness :
  exists custId productId codec,
    url {| url := "https://cds.audible.de/download?product_id=BBB&cust_id=AAA&codec=C1";
           dl_title := "My+Book" |}
    = "https://cds.audible.de/download?product_id=" ++ productId
      ++ "&cust_id=" ++ custId ++ "&codec=" ++ codec
    /\ field_of Sample.license_text "cust_id=" custId
    /\ field_of Sample.license_text "product_id=" productId
    /\ field_of Sample.license_text "codec=" codec.
Proof.
  apply (license_fields Sample.license "book.adh" Sample.license_text
           {| url := "https://cds.audible.de/download?product_id=BBB&cust_id=AAA&codec=C1";
              dl_title := "My+Book" |}); reflexivity.
Defined.

(** ** The commands *)

Section Tasks.

Context {X : Type} (pick : action -> option X).

Lemma choose_app a b : choose pick (a ++ b) = (choose pick a ++ choose pick b)%list.
Proof.
  induction a as [|e a IH]; [reflexivity|].
  cbn. destruct (pick e); cbn; now rewrite IH.
Qed.

Lemma choose_core tr :
  choose pick (map Core tr) = select (fun e => pick (Core e)) tr.
Proof.
  induction tr as [|e tr IH]; [reflexivity|].
  cbn. now rewrite IH.
Qed.

Lemma andThen_trace {A B} (t : Task A) (k : A -> Task B) :
  fst (andThen t k)
  = (fst t ++ match snd t with
              | Resolved a => fst (k a)
              | Rejected _ => []
              end)%list.
Proof.
  destruct t as [tr [a|r]]; cbn; [now destruct (k a)|now rewrite app_nil_r].
Qed.

Lemma andThen_result {A B} (t : Task A) (k : A -> Task B) :
  snd (andThen t k)
  = match snd t with
    | Resolved a => snd (k a)
    | Rejected r => Rejected r
    end.
Proof. destruct t as [tr [a|r]]; cbn; [now destruct (k a)|reflexivity]. Qed.

Lemma orElse_trace {A} (t : Task A) (h : rejection -> Task A) :
  fst (orElse t h)
  = (fst t ++ match snd t with
              | Resolved _ => []
              | Rejected r => fst (h r)
              end)%list.
Proof.
  destruct t as [tr [a|r]]; cbn; [now rewrite app_nil_r|now destruct (h r)].
Qed.

End Tasks.

Section ListCommand.

Variable E : Env.

Lemma toString10_nat i :
  Js.toString10 (Z.of_nat i)
  = DecimalString.NilEmpty.string_of_uint (N.to_uint (N.of_nat i))
  /\ N.to_uint (N.of_nat i) <> Decimal.Nil.
Proof.
  unfold Js.toString10. destruct i as [|i]; [split; [reflexivity|discriminate]|].
  cbn [Z.of_nat N.of_nat Z.to_int N.to_uint DecimalString.NilZero.string_of_int].
  pose proof (DecimalPos.Unsigned.to_uint_nonnil (Pos.of_succ_nat i)) as Hn.
  split; [|exact Hn].
  unfold DecimalString.NilZero.string_of_uint.
  now destruct (Pos.to_uint (Pos.of_succ_nat i)).
Qed.

(** The number [list] prints for a device is an index [-d] accepts. *)
Lemma array_index_decimal i : array_index (Js.toString10 (Z.of_nat i)) = Some i.
Proof.
  destruct (toString10_nat i) as [Hs Hn]. unfold array_index.
  rewrite Hs, DecimalString.NilEmpty.usu, DecimalN.Unsigned.of_to.
  assert (Hz : DecimalString.NilZero.string_of_uint (N.to_uint (N.of_nat i))
               = DecimalString.NilEmpty.string_of_uint (N.to_uint (N.of_nat i))).
  { unfold DecimalString.NilZero.string_of_uint.
    now destruct (N.to_uint (N.of_nat i)). }
  rewrite Hz, String.eqb_refl. f_equal. lia.
Qed.

Lemma each_device_in k devices i d :
  nth_error devices i = Some d ->
  In (ConsoleLog ("Device " ++ Js.toString10 (Z.of_nat (k + i)) ++ ": " ++ d))
     (each_device k devices).
Proof.
  revert k i. induction devices as [|v devices IH]; intros k i H.
  - destruct i; discriminate.
  - destruct i as [|i]; cbn in H.
    + injection H as ->. rewrite Nat.add_0_r. now left.
    + right. replace (k + S i) with (S k + i) by lia. now apply IH.
Qed.

Lemma each_device_lines k devices :
  select is_console (each_device k devices)
  = map (fun p => "Device " ++ Js.toString10 (Z.of_nat (fst p)) ++ ": " ++ snd p)
        (combine (seq k (List.length devices)) devices).
Proof.
  revert k. induction devices as [|v devices IH]; intros k; [reflexivity|].
  cbn. now rewrite IH.
Qed.

Lemma fetchActivationBytesFromDevices_resolved devices :
  result (fetchActivationBytesFromDevices E) = Resolved devices ->
  fetchActivationBytesFromDevices E
  = ([Registry AudibleDevicesKey], Resolved devices).
Proof.
  intros H. rewrite (promise_eta (fetchActivationBytesFromDevices E)), H.
  rewrite trace_fetchActivationBytesFromDevices.
  unfold fetchActivationBytesFromDevices in H.
  destruct (regeditList E); [reflexivity|discriminate].
Qed.

Lemma list_command_windows devices :
  platform E = "win32" ->
  result (fetchActivationBytesFromDevices E) = Resolved devices ->
  list_command E
  = map Core (trace (setupWinston E)
              ++ Registry AudibleDevicesKey
                 :: ConsoleLog ("Activation bytes of registered devices:" ++ LF)
                 :: each_device 0 devices)%list.
Proof.
  intros Hp Hd. unfold list_command. rewrite Hp.
  change (negb ("win32" =? "win32")) with false. cbv iota.
  rewrite (fetchActivationBytesFromDevices_resolved devices Hd).
  cbn. rewrite ?app_nil_r. reflexivity.
Qed.

Lemma fromDevices_program o :
  fetchActivationBytesFromDevices (Vary.program_of E o)
  = fetchActivationBytesFromDevices E.
Proof. reflexivity. Qed.

End ListCommand.

(** X15.  Off Windows the [list] command only reports that it is not
    available and never reads the registry.  On Windows it prints one
    line [Device k: v] per enumerated device, numbered from 0 in
    enumeration order.  Given to [-d] without an explicit secret, a
    number printed beside a secret that is not empty selects exactly
    that secret; a number printed beside an empty entry (a registry
    value without bytes) is rejected as not found. *)
Theorem list_numbers_select_devices (E : Env) :
  (platform E <> "win32" ->
   list_command E = [ConsoleError "This command is only available on Windows"])
  /\ (platform E = "win32" ->
      forall devices,
        result (fetchActivationBytesFromDevices E) = Resolved devices ->
        choose printed (list_command E)
        = ("Activation bytes of registered devices:" ++ LF)
          :: map (fun p => "Device " ++ Js.toString10 (Z.of_nat (fst p))
                           ++ ": " ++ snd p)
                 (combine (seq 0 (List.length devices)) devices)
        /\ forall i d o,
            nth_error devices i = Some d ->
            given (activationBytes o) = false ->
            device o = Some (Js.toString10 (Z.of_nat i)) ->
            In (Core (ConsoleLog ("Device " ++ Js.toString10 (Z.of_nat i)
                                  ++ ": " ++ d)))
               (list_command E)
            /\ (d <> "" ->
                result (fetchActivationBytes (Vary.program_of E o))
                = Resolved (VStr d))
            /\ (d = "" ->
                result (fetchActivationBytes (Vary.program_of E o))
                = Rejected
                    (JsError ("Device Nr. " ++ Js.toString10 (Z.of_nat i)
                              ++ " not found! Please use the 'list' command to get your devices.")))).
Proof.
  split.
  - intros Hp. apply String.eqb_neq in Hp. unfold list_command. now rewrite Hp.
  - intros Hp devices Hd.
    rewrite (list_command_windows E devices Hp Hd). split.
    + rewrite choose_core, select_app. cbn.
      change (select (fun e => printed (Core e))) with (select is_console).
      now rewrite each_device_lines.
    + intros i d o Hn Ha Ho. split; [|split].
      * apply in_map. apply in_or_app. right. right. right.
        now apply (each_device_in 0).
      * intros Hne.
        apply (selected_device (Vary.program_of E o) devices
                 (Js.toString10 (Z.of_nat i)) i d Hp Ha Hd Ho
                 (array_index_decimal i) Hn Hne).
      * intros ->.
        apply (empty_device_rejected (Vary.program_of E o) devices
                 (Js.toString10 (Z.of_nat i)) i Hp Ha Hd Ho);
          [|apply array_index_decimal|exact Hn].
        destruct (toString10_nat i) as [Hs Hnil]. rewrite Hs.
        destruct (N.to_uint (N.of_nat i)); try contradiction; discriminate.
Qed.

Lemma list_numbers_select_devices_witness :
  let E := Sample.env "win32" Sample.no_options [[]; [120; 86; 52; 18]]%N
                      Sample.no_file Sample.all_good ["book.aax"] "" in
  choose printed (list_command E)
  = ["Activation bytes of registered devices:" ++ LF;
     "Device 0: "; "Device 1: 12345678"]
  /\ result (fetchActivationBytes
               (Vary.program_of E (Sample.from_device (Some "1"))))
     = Resolved (VStr "12345678")
  /\ result (fetchActivationBytes
               (Vary.program_of E (Sample.from_device (Some "0"))))
     = Rejected (JsError "Device Nr. 0 not found! Please use the 'list' command to get your devices.").
Proof.
  intros E.
  destruct (proj2 (list_numbers_select_devices E) eq_refl [""; "12345678"] eq_refl)
    as [Hl Hs].
  split; [exact Hl|]. split.
  - apply (Hs 1 "12345678" (Sample.from_device (Some "1"))); try reflexivity.
    discriminate.
  - apply (Hs 0 "" (Sample.from_device (Some "0"))); reflexivity.
Defined.

Section LookupCommand.

Variable E : Env.

Lemma search_run n s :
  Regex.search "" (repeat (Regex.One Regex.hexdigit) n) s <> None <-> hex_run n s.
Proof.
  split.
  - destruct (Regex.search "" _ s) as [g|] eqn:Hs; [intros _|congruence].
    destruct (search_some _ _ _ _ Hs) as (pre & rest & -> & Hm).
    unfold Regex.match_here in Hm. cbn [Regex.lit list_ascii_of_string map
                                        Regex.match_atoms] in Hm.
    destruct (Regex.match_atoms (repeat (Regex.One Regex.hexdigit) n) rest)
      as [r|] eqn:Hg; [|discriminate].
    apply match_class_n in Hg. destruct Hg as (m & -> & Hl & Ha).
    now exists pre, m, r.
  - intros (pre & h & post & -> & Hl & Ha) Hnone.
    rewrite search_none in Hnone. specialize (Hnone pre (h ++ post) eq_refl).
    unfold Regex.match_here in Hnone. cbn [Regex.lit list_ascii_of_string map
                                           Regex.match_atoms] in Hnone.
    assert (Hg : Regex.match_atoms (repeat (Regex.One Regex.hexdigit) n) (h ++ post)
                 = Some post) by (apply match_class_n; now exists h).
    rewrite Hg in Hnone. discriminate.
Qed.

Lemma trace_lookupChecksum_select {X} (pick : event -> option X) checksum :
  (forall l, pick (ConsoleLog l) = None) ->
  (forall l m, pick (Log l m) = None) ->
  select pick (trace (lookupChecksum E checksum))
  = match pick (Spawn checksum) with Some x => [x] | None => [] end.
Proof.
  intros H1 H2. unfold lookupChecksum.
  destruct (rcrack E checksum) as [a|r]; run_chain.
  - destruct (Regex.search "hex:" _ a); run_chain; cbn [select];
      rewrite ?H1, ?H2; destruct (pick (Spawn checksum)); reflexivity.
  - cbn [select]. rewrite ?H1, ?H2. destruct (pick (Spawn checksum)); reflexivity.
Qed.

Lemma select_logged {X} (pick : action -> option X) r :
  (forall l m, pick (Core (Log l m)) = None) ->
  (forall l x, pick (Core (LogStack l x)) = None) ->
  choose pick (fst (logged r)) = [].
Proof. intros H1 H2. cbn. now rewrite H1, H2. Qed.

Lemma lookup_command_supported arg :
  can_lookup E ->
  lookup_command E arg
  = fst (andThen (lift (setupWinston E)) (fun _ =>
         match Regex.search "" (repeat (Regex.One Regex.hexdigit) 20) arg with
         | Some _ => orElse (lift (lookupChecksum E arg)) logged
         | None =>
             orElse
               (lift (metadata <- fetchMetadata E arg ;;
                      lookupChecksum E (checksum metadata)))
               logged
         end)).
Proof.
  intros [Hp|Hp]; unfold lookup_command; rewrite Hp; reflexivity.
Qed.

Lemma lookup_direct arg :
  can_lookup E ->
  hex_run 20 arg ->
  choose probed (lookup_command E arg) = []
  /\ choose spawned (lookup_command E arg) = [arg].
Proof.
  intros Hp Hrun. apply search_run in Hrun.
  rewrite (lookup_command_supported arg Hp).
  destruct (Regex.search "" _ arg) as [g|]; [|congruence].
  rewrite andThen_trace. cbn [lift setupWinston emit trace result fst snd map List.app].
  cbn [choose probed spawned]. rewrite orElse_trace. cbn [lift fst snd].
  rewrite !choose_app, !choose_core.
  rewrite (trace_lookupChecksum_select (fun e => probed (Core e)))
    by reflexivity.
  rewrite (trace_lookupChecksum_select (fun e => spawned (Core e)))
    by reflexivity.
  cbn [probed spawned List.app].
  destruct (result (lookupChecksum E arg)); cbn; now split.
Qed.

Lemma probed_fetchMetadata input :
  select (fun e => probed (Core e)) (trace (fetchMetadata E input)) = [input].
Proof.
  rewrite fetchMetadata_trace.
  change (Probe input :: ?l) with ([Probe input] ++ l)%list.
  rewrite !select_app.
  change (select (fun e => probed (Core e)) [Probe input]) with [input].
  cbn [List.app]. f_equal.
  pose proof (lacks_fetchChecksum E (fun e => probed (Core e)) input
                (fun _ => eq_refl) (fun _ _ => eq_refl) (fun _ _ => eq_refl)) as Hc.
  unfold lacks in Hc. rewrite Hc.
  destruct (ffprobe E input) as [fmt|]; [|reflexivity].
  destruct (result (fetchChecksum E input)); [|reflexivity].
  now destruct (tags fmt).
Qed.

Lemma lookup_by_file arg :
  can_lookup E ->
  ~ hex_run 20 arg ->
  choose probed (lookup_command E arg) = [arg]
  /\ choose spawned (lookup_command E arg)
     = match result (fetchMetadata E arg) with
       | Resolved metadata => [checksum metadata]
       | Rejected _ => []
       end.
Proof.
  intros Hp Hrun. rewrite <- search_run in Hrun.
  rewrite (lookup_command_supported arg Hp).
  destruct (Regex.search "" _ arg) as [g|]; [exfalso; apply Hrun; discriminate|].
  rewrite andThen_trace. cbn [lift setupWinston emit trace result fst snd map List.app].
  cbn [choose probed spawned]. rewrite orElse_trace. cbn [lift fst snd].
  rewrite !choose_app, !choose_core, !select_then.
  rewrite probed_fetchMetadata.
  pose proof (lacks_fetchMetadata E (fun e => spawned (Core e)) arg
                (fun _ => eq_refl) (fun _ => eq_refl) (fun _ _ => eq_refl)
                (fun _ _ => eq_refl) (fun _ => eq_refl)) as Hl.
  unfold lacks in Hl. rewrite Hl. rewrite result_then.
  destruct (result (fetchMetadata E arg)) as [md|r].
  - rewrite (trace_lookupChecksum_select (fun e => probed (Core e)))
      by reflexivity.
    rewrite (trace_lookupChecksum_select (fun e => spawned (Core e)))
      by reflexivity.
    cbn [probed spawned List.app].
    destruct (result (lookupChecksum E (checksum md))); cbn; now split.
  - cbn. now split.
Qed.

End LookupCommand.

(** X16.  The [lookup] command is refused on platforms other than
    Windows and Linux.  Elsewhere an argument that holds twenty
    hexadecimal digits in a row anywhere, even inside a file name, is
    taken as the checksum itself: rcrack is started with the argument
    and no file is probed.  Any other argument is probed as a file, and
    rcrack is started with the checksum of its metadata only if the
    metadata is accepted. *)
Theorem lookup_routing (E : Env) (arg : string) :
  (platform E <> "win32" -> platform E <> "linux" ->
   lookup_command E arg
   = [ConsoleError "This command is only available on Windows and Linux"])
  /\ (can_lookup E -> hex_run 20 arg ->
      choose probed (lookup_command E arg) = []
      /\ choose spawned (lookup_command E arg) = [arg])
  /\ (can_lookup E -> ~ hex_run 20 arg ->
      choose probed (lookup_command E arg) = [arg]
      /\ choose spawned (lookup_command E arg)
         = match result (fetchMetadata E arg) with
           | Resolved metadata => [checksum metadata]
           | Rejected _ => []
           end).
Proof.
  split; [|split].
  - intros H1 H2. apply String.eqb_neq in H1, H2.
    unfold lookup_command. now rewrite H1, H2.
  - apply lookup_direct.
  - apply lookup_by_file.
Qed.

Lemma lookup_routing_witness :
  choose probed (lookup_command Sample.cracker_failed
                                "backup-0123456789abcdef0123.aax") = []
  /\ choose spawned (lookup_command Sample.cracker_failed
                                    "backup-0123456789abcdef0123.aax")
     = ["backup-0123456789abcdef0123.aax"].
Proof.
  apply (proj1 (proj2 (lookup_routing Sample.cracker_failed
                                      "backup-0123456789abcdef0123.aax"))).
  - now right.
  - exists "backup-", "0123456789abcdef0123", ".aax". now repeat split.
Defined.

Section ChecksumCommand.

Variable E : Env.

Lemma take_prefix (p : ascii -> bool) n s :
  n <= String.length s -> all p s = true ->
  exists h post, s = h ++ post /\ String.length h = n /\ all p h = true.
Proof.
  revert s. induction n as [|n IH]; intros s Hl Ha.
  - now exists "", s.
  - destruct s as [|c s]; [cbn in Hl; lia|].
    cbn in Hl, Ha. apply andb_true_iff in Ha. destruct Ha as [Hc Ha].
    destruct (IH s) as (h & post & -> & Hh & Hall); [lia|exact Ha|].
    exists (String c h), post. cbn. rewrite Hc, Hall, Hh. now repeat split.
Qed.

Lemma console_fetchMetadata input md :
  result (fetchMetadata E input) = Resolved md ->
  select is_console (trace (fetchMetadata E input))
  = [artist md ++ " - " ++ title md ++ " [" ++ date md ++ "] (Duration: "
     ++ duration md ++ ")"].
Proof.
  intros Hm.
  destruct (fetchMetadata_resolved E input md Hm) as (fmt & t & buffer & Hp & Ht & Hb & -> & _).
  rewrite fetchMetadata_trace, Hp, Hb, Ht.
  change (Probe input :: ?l) with ([Probe input] ++ l)%list.
  rewrite !select_app.
  pose proof (lacks_fetchChecksum E is_console input
                (fun _ => eq_refl) (fun _ _ => eq_refl) (fun _ _ => eq_refl)) as Hc.
  unfold lacks in Hc. rewrite Hc. reflexivity.
Qed.

End ChecksumCommand.

(** X17.  For a file whose metadata is accepted, the [checksum] command
    prints the metadata line and then the checksum of the file; that
    checksum, given back to the [lookup] command on Windows or Linux,
    is looked up as it is, without any file being probed. *)
Theorem checksum_feeds_lookup (E E' : Env) (inputFile : string) (md : Metadata) :
  result (fetchMetadata E inputFile) = Resolved md ->
  (forall bytes, fs E inputFile = Content bytes -> Forall is_byte bytes) ->
  choose printed (checksum_command E inputFile)
  = [artist md ++ " - " ++ title md ++ " [" ++ date md ++ "] (Duration: "
     ++ duration md ++ ")";
     "Checksum for " ++ inputFile ++ " is " ++ checksum md]
  /\ (can_lookup E' ->
      choose probed (lookup_command E' (checksum md)) = []
      /\ choose spawned (lookup_command E' (checksum md)) = [checksum md]).
Proof.
  intros Hm Hbytes. split.
  - unfold checksum_command. rewrite andThen_trace.
    cbn [lift setupWinston emit trace result fst snd map List.app choose printed].
    rewrite orElse_trace. cbn [lift fst snd].
    rewrite choose_app, choose_core, select_then, result_then, Hm.
    change (select (fun e => printed (Core e))) with (select is_console).
    rewrite (console_fetchMetadata E inputFile md Hm). cbn. reflexivity.
  - intros Hp. apply (lookup_direct E' (checksum md) Hp).
    destruct (fetchMetadata_resolved E inputFile md Hm)
      as (fmt & t & buffer & _ & _ & Hb & Hmd & _).
    pose proof (fetchChecksum_bytes E inputFile buffer Hbytes Hb) as Hall.
    destruct (lower_hex_decodes buffer Hall) as (_ & Hhex & _).
    destruct (fetchChecksum_resolves E inputFile) as (b & Hb' & Hl).
    rewrite Hb in Hb'. injection Hb' as <-.
    assert (Hlen : String.length (checksum md) = 40).
    { rewrite Hmd. cbn [checksum metadata_of].
      now rewrite toLowerCase_length, bytesToHex_length_any, Hl. }
    assert (Hx : all Regex.hexdigit (checksum md) = true).
    { rewrite Hmd. exact Hhex. }
    destruct (take_prefix Regex.hexdigit 20 (checksum md)) as (h & post & Hs & Hh & Hah);
      [lia|exact Hx|].
    exists "", h, post. now repeat split.
Qed.

Lemma checksum_feeds_lookup_witness :
  let E := Sample.env "linux" Sample.no_options []
                      (fun _ => Content Vary.counting) Sample.all_good [] "" in
  choose printed (checksum_command E "book.aax")
  = ["Author - Book [2016] (Duration: 1h3m20s)";
     "Checksum for book.aax is 8d8e8f909192939495969798999a9b9c9d9e9fa0"]
  /\ choose spawned
       (lookup_command Sample.cracker_failed
                       "8d8e8f909192939495969798999a9b9c9d9e9fa0")
     = ["8d8e8f909192939495969798999a9b9c9d9e9fa0"].
Proof.
  intros E.
  destruct (checksum_feeds_lookup E Sample.cracker_failed "book.aax"
              (metadata_of Sample.aax_tags (format_duration Sample.aax) (firstn 20 (skipn 653 Vary.counting))))
    as [Hp Hl].
  - vm_compute. reflexivity.
  - intros bytes Hc. injection Hc as <-.
    apply Forall_forall. intros x Hx. apply in_map_iff in Hx.
    destruct Hx as (n & <- & _). unfold is_byte. apply N.mod_lt. lia.
  - split; [exact Hp|]. apply Hl. now right.
Defined.

(** ** The downloader *)

Section Download.

Variable E : Env.
Variable https : string -> request.

Lemma trace_extractDownloadURL adhFile :
  trace (extractDownloadURL E adhFile) = [ReadFile adhFile].
Proof.
  unfold extractDownloadURL.
  destruct (readFile E adhFile) as [content|r]; run_chain; [|reflexivity].
  destruct (Regex.search "cust_id=" _ content); cbn [pop]; run_chain; [|reflexivity].
  destruct (Regex.search "product_id=" _ content); cbn [pop]; run_chain; [|reflexivity].
  destruct (Regex.search "codec=" _ content); cbn [pop]; run_chain; [|reflexivity].
  destruct (Regex.search "title=" _ content); reflexivity.
Qed.

(** The [download] command, by the outcome of its two steps. *)
Lemma download_command_eq inputFile :
  download_command E https inputFile
  = (map Core (trace (setupWinston E)) ++ [Core (ReadFile inputFile)]
     ++ match result (extractDownloadURL E inputFile) with
        | Rejected r => fst (logged r)
        | Resolved d =>
            fst (download https (url d) (download_name E d))
            ++ match snd (download https (url d) (download_name E d)) with
               | Some (Resolved _) => [Core (ConsoleLog "Download complete!")]
               | Some (Rejected r) => fst (logged r)
               | None => []
               end
        end)%list.
Proof.
  unfold download_command, settled.
  cbn [lift setupWinston emit trace result fst snd map andThenP].
  pose proof (trace_extractDownloadURL inputFile) as Ht.
  destruct (extractDownloadURL E inputFile) as [tr [d|r]]. 
  - cbn [trace result fst snd] in *. subst tr.
    fold (download_name E d).
    destruct (download https (url d) (download_name E d)) as [tr' [[u|r]|]];
      cbn; rewrite ?app_nil_r; reflexivity.
  - cbn [trace result fst snd] in *. subst tr. reflexivity.
Qed.

Lemma on_data_length output total received chunks :
  List.length (on_data output total received chunks) = List.length chunks.
Proof.
  revert received. induction chunks as [|c chunks IH]; intros received;
    [reflexivity|]. cbn. now rewrite IH.
Qed.

Lemma choose_on_data output total received chunks :
  choose written (on_data output total received chunks)
  = map (fun a => match a with Core (StdoutWrite t) => t | _ => "" end)
        (on_data output total received chunks).
Proof.
  revert received. induction chunks as [|c chunks IH]; intros received;
    [reflexivity|]. cbn. now rewrite IH.
Qed.

Lemma on_data_last output total received chunks :
  chunks <> [] ->
  last (choose written (on_data output total received chunks)) ""
  = progress_line output (received + body_length chunks) total.
Proof.
  revert received. induction chunks as [|c chunks IH]; intros received Hne;
    [contradiction|].
  destruct chunks as [|c' chunks].
  - cbn. now rewrite N.add_0_r.
  - cbn [on_data choose written]. cbn [on_data choose written] in IH.
    change (last (?x :: ?y :: ?l) "") with (last (y :: l) "").
    rewrite (IH (received + c)%N) by discriminate.
    cbn [body_length fold_right]. f_equal. lia.
Qed.

(** A body that arrived in full shows 100 percent. *)
Lemma percent_text_whole (t : N) :
  (0 < t)%N -> (t * 100 < 2 ^ 53)%N ->
  percent_text t (Some t) = "100".
Proof.
  intros Ht Hb. unfold percent_text.
  destruct t as [|p]; [lia|]. unfold Double.mul, Double.div.
  assert (Hz : (0 <= Z.of_N (N.pos p) * 100 < 2 ^ 53)%Z).
  { split; [lia|]. change (2 ^ 53)%Z with (Z.of_N (2 ^ 53)). lia. }
  rewrite (round_eq (inject_Z (Z.of_N (N.pos p)) * 100)%Q (Z.of_N (N.pos p) * 100))
    by (try exact Hz; now rewrite inject_Z_mult).
  cbn [Double.bind].
  rewrite (round_eq (inject_Z (Z.of_N (N.pos p) * 100) / inject_Z (Z.of_N (N.pos p)))%Q
                    100).
  - reflexivity.
  - rewrite inject_Z_mult. field. apply inject_Z_pos_neq0. lia.
  - split; [lia|reflexivity].
Qed.

Lemma choose_on_data_none {X} (pick : action -> option X) output total received chunks :
  (forall t, pick (Core (StdoutWrite t)) = None) ->
  choose pick (on_data output total received chunks) = [].
Proof.
  intros H. revert received.
  induction chunks as [|c chunks IH]; intros received; [reflexivity|].
  cbn. now rewrite H, IH.
Qed.

(** What [download] does, by the answer to the request. *)
Lemma download_thrown url output err :
  https url = Thrown err ->
  download https url output = ([HttpsGet url], Some (Rejected err)).
Proof. intros H. unfold download. now rewrite H. Qed.

Lemma download_failed url output :
  https url = Failed -> download https url output = ([HttpsGet url], None).
Proof. intros H. unfold download. now rewrite H. Qed.

Lemma download_refused url output response :
  https url = Answered response ->
  statusCode response <> 200%N ->
  download https url output
  = ([HttpsGet url], Some (Rejected (JsError "Download error!"))).
Proof.
  intros H Hs. apply N.eqb_neq in Hs. unfold download. now rewrite H, Hs.
Qed.

Lemma download_accepted url output response :
  https url = Answered response ->
  statusCode response = 200%N ->
  download https url output
  = ((HttpsGet url :: CreateWriteStream output
      :: on_data output (content_length response) 0 (chunks response)
      ++ match ending response with
         | Stall => []
         | _ => [Core (ConsoleLog "")]
         end)%list,
     match ending response with
     | Finish => Some (Resolved tt)
     | WriteError err => Some (Rejected err)
     | Stall => None
     end).
Proof.
  intros H Hs. apply N.eqb_eq in Hs. unfold download. rewrite H, Hs.
  cbn [negb]. destruct (ending response); cbn; rewrite ?app_nil_r; reflexivity.
Qed.

End Download.





Section BatchMore.

Variable E : Env.

Lemma select_converted {X} (pick : event -> option X) files :
  (forall l, pick (ConsoleLog l) = None) ->
  select pick (converted E files)
  = flat_map (fun g => select pick (trace (converter E g))) files.
Proof.
  intros H. induction files as [|g files IH]; [reflexivity|].
  cbn [converted flat_map]. rewrite !select_app. fold (converted E files).
  rewrite IH. cbn [select]. rewrite H. now rewrite app_nil_r.
Qed.

Lemma converter_resolved_metadata file :
  result (converter E file) = Resolved tt ->
  exists metadata, result (fetchMetadata E file) = Resolved metadata.
Proof.
  rewrite converter_result.
  destruct (result (fetchMetadata E file)) as [metadata|r]; [|discriminate].
  intros _. now exists metadata.
Qed.

Lemma registry_reads_converted files :
  (forall g, In g files -> result (converter E g) = Resolved tt) ->
  registry_reads (converted E files)
  = flat_map (fun _ => registry_reads (trace (fetchActivationBytes E))) files.
Proof.
  intros Hok. unfold registry_reads. rewrite select_converted by reflexivity.
  induction files as [|g files IH]; [reflexivity|].
  cbn [flat_map]. rewrite IH by (intros; apply Hok; now right). f_equal.
  destruct (converter_resolved_metadata g) as [metadata Hm];
    [apply Hok; now left|].
  pose proof (converter_registry_reads E g) as Hr. unfold registry_reads in Hr.
  now rewrite Hr, Hm.
Qed.

Lemma flat_map_constant {A B} (l : list A) (x : B) :
  flat_map (fun _ => [x]) l = repeat x (List.length l).
Proof. induction l as [|a l IH]; [reflexivity|]. cbn. now rewrite IH. Qed.

Lemma flat_map_nothing {A B} (l : list A) :
  flat_map (fun _ => @nil B) l = [].
Proof. induction l as [|a l IH]; [reflexivity|]. exact IH. Qed.

End BatchMore.

(** X20.  The secret is resolved anew for every file of a batch.  When
    all files convert, on Windows without an explicit secret [main]
    lists the devices key of the registry once per file; with an
    explicit secret, or on another platform, it never reads the
    registry. *)
Theorem main_resolves_secret_per_file (E : Env) (inputFile : string)
        (files : list string) :
  glob E inputFile = Resolved files ->
  (forall g, In g files -> result (converter E g) = Resolved tt) ->
  (platform E = "win32" ->
   given (activationBytes (program E)) = false ->
   regeditList E <> None ->
   registry_reads (main E inputFile)
   = repeat AudibleDevicesKey (List.length files))
  /\ (platform E <> "win32" \/ given (activationBytes (program E)) = true ->
      registry_reads (main E inputFile) = []).
Proof.
  intros Hg Hok.
  pose proof (reduce_ok E files 0%N Hok) as Hb. fold (batch E files) in Hb.
  assert (Hm : registry_reads (main E inputFile)
               = flat_map (fun _ => registry_reads (trace (fetchActivationBytes E)))
                          files).
  { rewrite (main_resolved E inputFile files _ Hg) by now rewrite Hb.
    rewrite Hb. cbn [trace fst]. unfold registry_reads at 1.
    rewrite !select_app. fold registry_reads.
    rewrite registry_reads_converted by exact Hok.
    cbn. now rewrite app_nil_r. }
  rewrite Hm, trace_fetchActivationBytes, trace_fetchActivationBytesFromDevices.
  split.
  - intros Hp Ha Hr. rewrite Hp, Ha.
    change (negb ("win32" =? "win32") || false) with false. cbv iota.
    destruct (regeditList E); [|congruence].
    apply flat_map_constant.
  - intros [Hp|Ha].
    + apply String.eqb_neq in Hp. rewrite Hp. apply flat_map_nothing.
    + rewrite Ha, orb_true_r. apply flat_map_nothing.
Qed.

Lemma main_resolves_secret_per_file_witness :
  let E := Sample.env "win32" (Sample.from_device (Some "0")) Sample.two_devices
                      Sample.no_file Sample.all_good ["a.aax"; "b.aax"] "" in
  registry_reads (main E "*.aax") = [AudibleDevicesKey; AudibleDevicesKey].
Proof.
  intros E.
  apply (proj1 (main_resolves_secret_per_file E "*.aax" ["a.aax"; "b.aax"] eq_refl
                  (fun g _ => eq_refl))); [reflexivity|reflexivity|discriminate].
Defined.

(** X21.  When the file pattern cannot be expanded, [main] logs the
    error of the expansion and its stack and does nothing else: no file
    is probed, no job is started, the registry is not read and no final
    line is printed. *)
Theorem main_glob_failure (E : Env) (inputFile : string) (err : rejection) :
  glob E inputFile = Rejected err ->
  main E inputFile
  = (trace (setupWinston E)
     ++ [Glob inputFile; Log error (message err); LogStack debug err])%list
  /\ probes (main E inputFile) = []
  /\ runs (main E inputFile) = []
  /\ registry_reads (main E inputFile) = []
  /\ console (main E inputFile) = [].
Proof.
  intros Hg.
  assert (Hm : main E inputFile
               = (trace (setupWinston E)
                  ++ [Glob inputFile; Log error (message err); LogStack debug err])%list).
  { unfold main, main_chain, globPromise. rewrite Hg. reflexivity. }
  rewrite Hm. now repeat split.
Qed.

Lemma main_glob_failure_witness :
  let E := Vary.glob_of Sample.one_file
                        (fun _ => Rejected (JsError "EACCES: permission denied")) in
  probes (main E "*.aax") = [] /\ runs (main E "*.aax") = []
  /\ last (main E "*.aax") (Glob "")
     = LogStack debug (JsError "EACCES: permission denied").
Proof.
  intros E.
  destruct (main_glob_failure E "*.aax" (JsError "EACCES: permission denied") eq_refl)
    as (Hm & Hp & Hr & _).
  split; [exact Hp|]. split; [exact Hr|]. now rewrite Hm.
Defined.
